(** * WRFlux: staggered-grid budget decomposition (wrflux/tools.py)

    A shallow embedding of the parts of [wrflux/tools.py] that the
    specification's properties are about:

    - the grid staggering algebra ([stagger], [post_stagger], [destagger],
      [diff]);
    - the budget-method configuration ([get_budget_method]) and its validity
      check in [calc_tendencies_core];
    - the vertical advective tendency and the mean / resolved-turbulent
      decomposition of [adv_tend];
    - the control flow of [calc_tendencies] / [calc_tendencies_core]
      (skipping of existing output, tiling, worker count);
    - the tile partition of [create_tiles] and the halo trimming.

    Conventions of the model.

    - A sample of a field is a [val]: an exact rational ([Qc]) or [NaN].
      Floating-point rounding is not modelled; a division by zero gives
      [NaN] (the non-finite results of IEEE arithmetic are identified with
      the missing value).
    - A field is the list of its samples along the one axis an operator works
      on (xarray applies every operator of this file independently along that
      axis).  Coordinates are positional: the labels of a coordinate are
      pairwise distinct, so label-based selection [.loc] and [reindex] agree
      with positions.
    - Python exceptions are values of [exn]; a fallible function returns a
      [result]. *)

From Stdlib Require Import QArith Qcanon Field Ascii String Lia.
From stdpp Require Import base option list strings gmap.

Local Open Scope string_scope.
Local Open Scope list_scope.

(** ** Exceptions and results *)

Inductive exn : Type :=
| ValueError (msg : string)
| IndexError
| TypeError
| KeyError (key : string)
| ZeroDivisionError
| FileNotFoundError (path : string)
| UnboundLocalError (name : string).

Inductive result (A : Type) : Type :=
| Ok (a : A)
| Raise (e : exn).

Arguments Ok {A} a.
Arguments Raise {A} e.

#[global] Instance exn_eq_dec : EqDecision exn.
Proof. solve_decision. Defined.
#[global] Instance result_eq_dec {A : Type} `{EqDecision A} : EqDecision (result A).
Proof. solve_decision. Defined.

#[global] Instance result_ret : MRet result := fun A a => Ok a.
#[global] Instance result_bind : MBind result := fun A B k m =>
  match m with
  | Ok a => k a
  | Raise e => Raise e
  end.

Definition is_ValueError {A : Type} (r : result A) : bool :=
  match r with
  | Raise (ValueError _) => true
  | _ => false
  end.

(** ** Samples and their arithmetic (numpy semantics of NaN) *)

Module Val.

Abbreviation val := (option Qc).

Definition NaN : val := None.
Definition num (q : Qc) : val := Some q.

Definition zero : Qc := Q2Qc 0.
Definition one : Qc := Q2Qc 1.
Definition two : Qc := Q2Qc 2.
Definition four : Qc := Q2Qc 4.
Definition half : Qc := Q2Qc (1 # 2).
(** [g = 9.81] *)
Definition g : Qc := Q2Qc (981 # 100).

Definition lift2 (op : Qc -> Qc -> Qc) (a b : val) : val :=
  match a, b with
  | Some x, Some y => Some (op x y)
  | _, _ => None
  end.

Definition add : val -> val -> val := lift2 Qcplus.
Definition sub : val -> val -> val := lift2 Qcminus.
Definition mul : val -> val -> val := lift2 Qcmult.
Definition neg (a : val) : val := Qcopp <$> a.

Definition div (a b : val) : val :=
  match a, b with
  | Some x, Some y => if Qc_eq_bool y zero then None else Some (Qcdiv x y)
  | _, _ => None
  end.

Definition is_nan (a : val) : bool :=
  match a with
  | None => true
  | Some _ => false
  end.

End Val.

Import Val.

(** ** Fields: one-dimensional arrays of samples *)

Abbreviation field := (list val).

Definition fmap2 (op : val -> val -> val) (a b : field) : field :=
  zip_with op a b.

Definition fadd : field -> field -> field := fmap2 add.
Definition fsub : field -> field -> field := fmap2 sub.
Definition fmul : field -> field -> field := fmap2 mul.
Definition fdiv : field -> field -> field := fmap2 div.
Definition fneg (a : field) : field := neg <$> a.
(** scalar * array and array / scalar *)
Definition fscale (c : val) (a : field) : field := mul c <$> a.
Definition fdivs (a : field) (c : val) : field := (fun x => div x c) <$> a.

(** A weight of [stagger]: a float or a 1-D array. *)
Inductive weight : Type :=
| WScalar (c : val)
| WArray (w : field).

(** A weight array is aligned with an axis of [n] points: it has a value
    for every point and no other; a float is broadcast. *)
Definition weight_covers (n : nat) (w : weight) : bool :=
  match w with
  | WScalar _ => true
  | WArray f => (length f =? n)%nat
  end.

(** The values of [a * w] for an aligned weight. *)
Definition weighted (a : field) (w : weight) : field :=
  match w with
  | WScalar c => (fun x => mul x c) <$> a
  | WArray f => fmul a f
  end.

(** [a * w].  The module sets [arithmetic_join="exact"] (line 48): the
    product with an array that is not aligned with [a] raises a
    ValueError. *)
Definition wmul (a : field) (w : weight) : result field :=
  if weight_covers (length a) w then Ok (weighted a w)
  else Raise (ValueError "cannot align objects with join='exact'").

(** [data.shift({dim: 1})]: move every sample one place up, fill with NaN. *)
Definition shift_up (a : field) : field :=
  match a with
  | [] => []
  | _ :: _ => NaN :: removelast a
  end.

(** [data.shift({dim: -1})]: move every sample one place down, fill with NaN. *)
Definition shift_down (a : field) : field :=
  match a with
  | [] => []
  | _ :: t => t ++ [NaN]
  end.

(** The values of [data.roll({dim: 1}, roll_coords=False)] on an axis with
    points: cyclic shift, the last sample comes first. *)
Definition roll_up (a : field) : field :=
  match a with
  | [] => []
  | x :: _ => List.last a x :: removelast a
  end.

(** [data.roll({dim: 1}, roll_coords=False)]: the shift is taken modulo the
    number of points, which fails on an axis without points. *)
Definition roll (a : field) : result field :=
  match a with
  | [] => Raise ZeroDivisionError
  | _ :: _ => Ok (roll_up a)
  end.

(** [reindex({dim_s: new_coord})] after [data_stag[dim_s] = new_coord[:-1]]:
    the new coordinate has one more label, whose sample is missing. *)
Definition reindex_stag (a : field) : field := a ++ [NaN].

(** Python indexing with a possibly negative position. *)
Definition py_pos (n : nat) (i : Z) : option nat :=
  if (0 <=? i)%Z then
    (if (i <? Z.of_nat n)%Z then Some (Z.to_nat i) else None)
  else
    (if (- Z.of_nat n <=? i)%Z then Some (Z.to_nat (Z.of_nat n + i)) else None).

Definition py_get (a : field) (i : Z) : result val :=
  match py_pos (length a) i with
  | Some k => match a !! k with Some v => Ok v | None => Raise IndexError end
  | None => Raise IndexError
  end.

Definition py_set (a : field) (i : Z) (v : val) : result field :=
  match py_pos (length a) i with
  | Some k => Ok (<[k := v]> a)
  | None => Raise IndexError
  end.

(** ** The staggering algebra *)

(** [**interp_const]: the vertical extrapolation constants; [None] is the
    empty dictionary. *)
Record interp_const : Type := InterpConst {
  CF1 : val; CF2 : val; CF3 : val; CFN : val; CFN1 : val
}.

(** ["_stag" in dim] *)
Definition has_stag (dim : string) : bool :=
  match String.index 0 "_stag" dim with
  | Some _ => true
  | None => false
  end.

(** [post_stagger(data_stag, dim, new_coord, rename, data, cyclic,
    **interp_const)]: the values of the result.  The new coordinate only
    contributes its length (one more than [data_stag]).  On an axis without
    points the assignments through [.loc] (lines 659 and 662) raise a
    ValueError. *)
Definition post_stagger (data_stag : field) (dim : string)
    (data : option field) (cyclic : bool) (ic : option interp_const)
    : result field :=
  let empty := bool_decide (data_stag = []) in
  let data_stag := reindex_stag data_stag in
  let last := (Z.of_nat (length data_stag) - 1)%Z in
  if String.eqb dim "bottom_top" then
    match ic with
    | Some c =>
        match data with
        | None => Raise TypeError
        | Some data =>
            d0 ← py_get data 0;
            d1 ← py_get data 1;
            d2 ← py_get data 2;
            s ← py_set data_stag 0
                  (add (add (mul (CF1 c) d0) (mul (CF2 c) d1)) (mul (CF3 c) d2));
            dl ← py_get data (-1);
            dl2 ← py_get data (-2);
            py_set s (-1) (add (mul (CFN c) dl) (mul (CFN1 c) dl2))
        end
    | None => Ok data_stag
    end
  else if empty then
    Raise (ValueError "assignment through .loc on an axis without points")
  else if cyclic then
    (* set second boundary point equal to first *)
    v ← py_get data_stag 0;
    py_set data_stag last v
  else
    (* also set first boundary point to NaN *)
    py_set data_stag 0 NaN.

(** [stagger(data, dim, new_coord, FNM, FNP, rename, cyclic, **interp_const)] *)
Definition stagger (data : field) (dim : string) (FNM FNP : weight)
    (cyclic : bool) (ic : option interp_const) : result field :=
  data_stag ←
    (if String.eqb dim "bottom_top" then
       upper ← wmul data FNM;
       lower ← wmul (shift_up data) FNP;
       Ok (fadd upper lower)
     else
       data_r ← roll data;
       Ok (fscale (num half) (fadd data data_r)));
  post_stagger data_stag dim (Some data) cyclic ic.

(** The default weights [FNM=0.5, FNP=0.5]. *)
Definition w_default : weight := WScalar (num half).

(** [destagger(data, dim, new_coord, rename)]; [dim.index("_stag")] raises
    a ValueError when the name has no such part. *)
Definition destagger (data : field) (dim : string) (rename : bool)
    : result field :=
  let data := fscale (num half) (fadd data (shift_down data)) in
  let data := removelast data in
  if rename && negb (has_stag dim) then Raise (ValueError "substring not found")
  else Ok data.

(** [destagger] of the [stagger]ed field, with the default weights. *)
Definition destagger_stagger (data : field) (dim : string) (cyc : bool)
    : result field :=
  s ← stagger data dim w_default w_default cyc None;
  destagger s (dim +:+ "_stag") true.

(** The axes on which [diff] never wraps around. *)
Definition diff_one_sided_dims : list string :=
  ["bottom_top"; "z"; "bottom_top_stag"; "z_stag"; "Time"].

Definition in_list (s : string) (l : list string) : bool :=
  existsb (String.eqb s) l.

(** The shifted operand [data_s] of [diff]. *)
Definition diff_operand (data : field) (dim : string) (cyclic : bool)
    : result field :=
  if in_list dim diff_one_sided_dims || negb cyclic then
    (* lower boundary value is nan *)
    Ok (shift_up data)
  else
    (* lower boundary value is filled periodically *)
    roll data.

(** [diff(data, dim, new_coord, rename, cyclic)] *)
Definition diff (data : field) (dim : string) (cyclic : bool) : result field :=
  data_s ← diff_operand data dim cyclic;
  let out := fsub data data_s in
  if has_stag dim then
    (* staggered to unstaggered: lower boundary is not needed *)
    Ok (tail out)
  else
    (* unstaggered to staggered: fill boundary values *)
    post_stagger out dim None cyclic None.

(** ** Strings as Python uses them *)

Module PyStr.

Definition upper_ascii (c : ascii) : ascii :=
  let n := nat_of_ascii c in
  if (97 <=? n)%nat && (n <=? 122)%nat then ascii_of_nat (n - 32) else c.

(** [s.upper()] (ASCII letters) *)
Fixpoint upper (s : string) : string :=
  match s with
  | EmptyString => EmptyString
  | String c s' => String (upper_ascii c) (upper s')
  end.

(** [s.split(" ")] *)
Fixpoint split_space (s : string) : list string :=
  match s with
  | EmptyString => [EmptyString]
  | String c s' =>
      if Ascii.eqb c " "%char then EmptyString :: split_space s'
      else match split_space s' with
           | h :: t => String c h :: t
           | [] => [String c EmptyString]
           end
  end.

(** [sep.join(l)] *)
Definition join (sep : string) (l : list string) : string := String.concat sep l.

(** [sub in s] *)
Definition contains (sub s : string) : bool :=
  match String.index 0 sub s with
  | Some _ => true
  | None => false
  end.

End PyStr.

(** ** Budget methods *)

(** module constants *)
Definition xy : list string := ["x"; "y"].
Definition outfiles : list string :=
  ["grid"; "adv"; "flux"; "tend"; "sources"; "sgs"; "sgsflux"; "corr"].
Definition budget_settings : list string :=
  ["cartesian"; "dz_out_x"; "dz_out_z"; "force_2nd_adv"].
Definition settings_short_names : gmap string string :=
  {[ "2nd" := "force_2nd_adv" ]}.

(** The default of the argument [budget_methods] of [calc_tendencies] and
    [calc_tendencies_core]. *)
Definition default_budget_methods : string := "castesian".

(** [make_list(o)] on the two shapes of [budget_methods]. *)
Inductive str_or_list : Type :=
| Str (s : string)
| StrList (l : list string).

Definition make_list (o : str_or_list) : list string :=
  match o with
  | Str s => [s]
  | StrList l => l
  end.

(** [get_budget_method(budget_method)]: the settings dictionary and the
    name of the method. *)
Definition get_budget_method (budget_method : string)
    : result (gmap string bool * string) :=
  let '(budget_method, budget_method_list) :=
    if String.eqb budget_method "" then ("native", [])
    else (budget_method, PyStr.split_space budget_method) in
  let budget_method_list :=
    (fun key => default key (settings_short_names !! key)) <$> budget_method_list in
  let undefined :=
    List.filter (fun key => negb (in_list key budget_settings)) budget_method_list in
  if (0 <? length undefined)%nat then
    Raise (ValueError ("Undefined keys: " +:+ PyStr.join ", " undefined))
  else
    let config : gmap string bool :=
      foldl (fun config k => <[k := in_list k budget_method_list]> config)
            ∅ budget_settings in
    Ok (config, budget_method).

(** [c[k]] on a settings dictionary. *)
Definition setting (c : gmap string bool) (k : string) : result bool :=
  match c !! k with
  | Some b => Ok b
  | None => Raise (KeyError k)
  end.

(** Lines 1988-1994 of [calc_tendencies_core]: the validity check of one
    budget method; the result is [dz_out]. *)
Definition check_dz_out (c : gmap string bool) : result bool :=
  dz_out_x ← setting c "dz_out_x";
  dz_out_z ← setting c "dz_out_z";
  if dz_out_x || dz_out_z then
    cartesian ← setting c "cartesian";
    if negb cartesian then
      Raise (ValueError "dz_out can only be used for Cartesian calculations!")
    else if dz_out_x && dz_out_z then
      Raise (ValueError "dz_out_x and dz_out_z cannot be used at the same time!")
    else Ok true
  else Ok false.

(** ** Tiles *)

(** A Python [slice(start, stop)]; [None] bounds are open. *)
Record slice : Type := Slice { start : option Z; stop : option Z }.

#[global] Instance slice_eq_dec : EqDecision slice.
Proof. solve_decision. Defined.

(** Position selected by a bound of a slice on an axis of [n] points. *)
Definition clip (n : nat) (i : Z) : nat :=
  Z.to_nat (Z.min (Z.max (if (i <? 0)%Z then Z.of_nat n + i else i) 0) (Z.of_nat n)).

(** [l[s]] *)
Definition apply_slice {A : Type} (s : slice) (l : list A) : list A :=
  let n := length l in
  let lo := from_option (clip n) 0%nat (start s) in
  let hi := from_option (clip n) n (stop s) in
  take (hi - lo) (drop lo l).

(** [np.arange(n)[::size]] for a chunk size that is a natural number.  (The
    code has no test of the sign: a negative size gives a reversed range,
    which this development does not cover.) *)
Definition bounds (n size : nat) : list nat :=
  (fun k => k * size)%nat <$> seq 0 (Nat.div (n + size - 1) size).

(** The slice of tile [i] along a dimension (lines 2163-2174 of
    [create_tiles]); [ext] is 1 for the unstaggered and 2 for the staggered
    variant of the dimension. *)
Definition tile_slice (bounds : list nat) (i : nat) (ext : Z) : slice :=
  {| start := if (i =? 0)%nat then None  (* no halo points at domain start *)
              else Some (Z.of_nat (nth i bounds 0%nat) - 1)%Z;
     stop := if (i =? length bounds - 1)%nat then None  (* no halo points at domain end *)
             else Some (Z.of_nat (nth (i + 1) bounds 0%nat) + ext)%Z |}.

(** The dictionary [iloc_b] of tile [i]. *)
Definition iloc_b (dim : string) (bounds : list nat) (i : nat) : gmap string slice :=
  foldl (fun iloc_b (stag : bool) =>
           let '(dim_s, ext) :=
             if stag then (dim +:+ "_stag", 2%Z)  (* staggered dimensions need one gridpoint more *)
             else (dim, 1%Z) in
           <[dim_s := tile_slice bounds i ext]> iloc_b)
        ∅ [false; true].

(** The list [iloc] of a chunking dimension. *)
Definition iloc (dim : string) (bounds : list nat) : list (gmap string slice) :=
  iloc_b dim bounds <$> seq 0 (length bounds).

(** [itertools.product] of the lists in [tiles] *)
Fixpoint product {A : Type} (ls : list (list A)) : list (list A) :=
  match ls with
  | [] => [[]]
  | l :: rest => x ← l; r ← product rest; [x :: r]
  end.

(** What [create_tiles] leaves behind: its return value, the dictionary
    [chunks] of the caller (which it mutates) and what it printed. *)
Record tiling : Type := Tiling {
  tiles : list (list (gmap string slice));
  chunks_left : list (string * nat);
  printed : list string
}.

Definition one_chunk_message (dim : string) : string :=
  "Chunking in " +:+ dim +:+ "-direction leads to one chunk only. Deleting "
    +:+ dim +:+ " from chunks dictionary.".

(** [del chunks[dim]] *)
Definition del_key {A : Type} (dim : string) (chunks : list (string * A))
    : list (string * A) :=
  List.filter (fun kv => negb (String.eqb (fst kv) dim)) chunks.

(** The loop of [create_tiles] over [chunks.copy().items()]; [dims] are the
    sizes of the dimensions of [dat_mean]. *)
Fixpoint create_tiles_loop (dims : gmap string nat)
    (items : list (string * nat)) (st : tiling) : result tiling :=
  match items with
  | [] => Ok st
  | (dim, size) :: items' =>
      match dims !! dim with
      | None =>
          Raise (ValueError ("Chunking dimension " +:+ dim +:+ " not in data!"))
      | Some n =>
          if (size =? 0)%nat then Raise (ValueError "slice step cannot be zero")
          else
            (* split domain in tiles with given size *)
            let bounds := bounds n size in
            if (length bounds =? 1)%nat then
              create_tiles_loop dims items'
                {| tiles := tiles st;
                   chunks_left := del_key dim (chunks_left st);
                   printed := printed st ++ [one_chunk_message dim] |}
            else
              (* add halo points to tiles and create indexers *)
              create_tiles_loop dims items'
                {| tiles := tiles st ++ [iloc dim bounds];
                   chunks_left := chunks_left st;
                   printed := printed st |}
      end
  end.

(** [create_tiles(outpath_wrf, chunks, **load_kw)] on data with dimension
    sizes [dims]. *)
Definition create_tiles (dims : gmap string nat) (chunks : list (string * nat))
    : result tiling :=
  st ← create_tiles_loop dims chunks
         {| tiles := []; chunks_left := chunks; printed := ["Create tasks"] |};
  (* create all combinations of x slices and y slices *)
  Ok {| tiles := product (tiles st);
        chunks_left := chunks_left st;
        printed := printed st |}.

(** The partitions of the chunking dimensions that [create_tiles] keeps,
    and the dimensions it deletes from [chunks] because they give one chunk
    only. *)
Definition partitions (dims : gmap string nat) (chunks : list (string * nat))
    : list (list (gmap string slice)) :=
  omap (fun kv : string * nat =>
          n ← dims !! kv.1;
          let b := bounds n kv.2 in
          if (length b =? 1)%nat then None else Some (iloc kv.1 b)) chunks.

Definition one_chunk_dims (dims : gmap string nat) (chunks : list (string * nat))
    : list string :=
  omap (fun kv : string * nat =>
          n ← dims !! kv.1;
          if (length (bounds n kv.2) =? 1)%nat then Some kv.1 else None) chunks.

(** Lines 2088-2105 of [calc_tendencies_core]: strip tile boundary points
    except for domain boundary points. *)
Definition strip_slice (d : string) (l : slice) : slice :=
  {| start := match start l with Some _ => Some 1%Z | None => None end;
     stop := match stop l with
             | Some _ =>
                 if PyStr.contains "stag" d then Some (-2)%Z  (* cut two points at end *)
                 else Some (-1)%Z
             | None => None
             end |}.

Definition t_bounds (tile : gmap string slice) (dat_dims : list string)
    : gmap string slice :=
  map_imap (fun d l => if in_list d dat_dims then Some (strip_slice d l) else None) tile.

(** ** The drivers [calc_tendencies] and [calc_tendencies_core]

    The drivers are modelled by their control flow.  The numerical kernels
    and the input/output they call are recorded as events.  The errors that
    the drivers and [adv_tend] raise themselves, and the errors for files
    that are not there, are modelled; apart from these the kernels are taken
    to succeed on the (well-formed) model output.  The state is the set of
    files below [outpath] together with the events so far, as one process
    sees them. *)

Inductive event : Type :=
| EvLoadData
| EvPrepare (cyclic : gmap string bool)
| EvLoadPostproc (var : string)
| EvSources (var : string) (cyclic : gmap string bool)
| EvTotalTend (var method : string) (dz_out : bool) (cyclic : gmap string bool)
| EvAdvTend (var method : string) (c : gmap string bool) (cyclic : gmap string bool)
| EvCartCorr (var method : string) (dz_out : bool) (cyclic : gmap string bool)
| EvHeight (var : string) (cyclic : gmap string bool)
| EvRemove (path : string)
| EvSave (path : string)
| EvPrint (msg : string)
| EvBarrier.

Record world : Type := World {
  files : gset string;
  trace : list event
}.

Definition M (A : Type) : Type := world -> result A * world.

Definition retM {A : Type} (a : A) : M A := fun w => (Ok a, w).

Definition bindM {A B : Type} (m : M A) (k : A -> M B) : M B := fun w =>
  match m w with
  | (Ok a, w') => k a w'
  | (Raise e, w') => (Raise e, w')
  end.

Definition raiseM {A : Type} (e : exn) : M A := fun w => (Raise e, w).

Definition liftM {A : Type} (r : result A) : M A := fun w => (r, w).

Definition emit (e : event) : M unit := fun w =>
  (Ok tt, {| files := files w; trace := trace w ++ [e] |}).

Definition file_exists (path : string) : M bool := fun w =>
  (Ok (bool_decide (path ∈ files w)), w).

(** [os.remove(fpath)] *)
Definition remove_file (path : string) : M unit := fun w =>
  (Ok tt, {| files := files w ∖ {[path]}; trace := trace w ++ [EvRemove path] |}).

(** A file is written ([to_netcdf]) or opened for writing
    ([netCDF4.Dataset(path, mode)]): it exists afterwards. *)
Definition save_file (path : string) : M unit := fun w =>
  (Ok tt, {| files := files w ∪ {[path]}; trace := trace w ++ [EvSave path] |}).

#[global] Instance M_ret : MRet M := @retM.
#[global] Instance M_bind : MBind M := fun A B k m => bindM m k.

Fixpoint for_each {A : Type} (l : list A) (body : A -> M unit) : M unit :=
  match l with
  | [] => retM tt
  | a :: l' => body a ;; for_each l' body
  end.

(** The MPI setting of the module: [rank], [nproc] and whether [mpi4py]
    could be imported ([comm is not None]). *)
Record mpi : Type := Mpi { rank : nat; nproc : nat; has_comm : bool }.

(** What the drivers return: nothing, or the output of every variable,
    loaded from disk ([false]) or computed ([true]), optionally with the
    model output. *)
Inductive output : Type :=
| OutNone
| OutData (vars : list (string * bool)) (model_output : bool).

#[global] Instance output_eq_dec : EqDecision output.
Proof. solve_decision. Defined.

(** The keyword arguments shared by both drivers. *)
Record options : Type := Options {
  budget_methods : str_or_list;
  hor_avg : bool;
  avg_dims : option (list string);
  skip_exist : bool;
  save_output : bool;
  return_model_output : bool
}.

(** What the drivers read from the model output: the global attributes
    [PERIODIC_X], [PERIODIC_Y], [USE_THETA_M] and [OUTPUT_DRY_THETA_FLUXES],
    the sizes of the dimensions and the names of the variables of the
    time-averaged output. *)
Record model_output : Type := ModelOutput {
  PERIODIC_X : bool;
  PERIODIC_Y : bool;
  dims : gmap string nat;
  USE_THETA_M : bool;
  OUTPUT_DRY_THETA_FLUXES : bool;
  data_vars : list string
}.

(** [avg = "_avg_" + "".join(avg_dims)] *)
Definition avg_suffix (o : options) : result string :=
  if hor_avg o then
    match avg_dims o with
    | Some l => Ok ("_avg_" +:+ PyStr.join "" l)
    | None => Raise TypeError
    end
  else Ok "".

(** ["cartesian" in " ".join(make_list(budget_methods))] *)
Definition any_cartesian (o : options) : bool :=
  PyStr.contains "cartesian" (PyStr.join " " (make_list (budget_methods o))).

(** [outpath / VAR / (outfile + avg + ".nc")], relative to [outpath] *)
Definition fpath (var outfile avg : string) : string :=
  PyStr.upper var +:+ "/" +:+ outfile +:+ avg +:+ ".nc".

(** The output files looked for: all of [outfiles], without ["corr"] when
    no method is Cartesian. *)
Definition expected_outfiles (cartesian : bool) : list string :=
  List.filter (fun outfile => negb (String.eqb outfile "corr" && negb cartesian)) outfiles.

(** The dictionary [cyclic] of [calc_tendencies_core] (lines 1930-1943). *)
Definition core_cyclic (dat : model_output) (tile : option (gmap string slice))
    : gmap string bool :=
  let cyclic : gmap string bool :=
    <["bottom_top" := false]>
      (foldl (fun c d =>
                <[d := if String.eqb d "x" then PERIODIC_X dat else PERIODIC_Y dat]> c)
             ∅ xy) in
  match tile with
  | Some tile =>
      (* periodic BC cannot be used in tiling dimensions *)
      map_imap (fun d v => Some (v && bool_decide (tile !! d = None))) cyclic
  | None => cyclic
  end.

(** [dat_mean_all[tile]] and the check of lines 1945-1946: indexing with a
    dimension that the data do not have raises a ValueError, and so does a
    dimension that has no points left after indexing. *)
Definition indexed_sizes (dat : model_output) (tile : option (gmap string slice))
    : result (gmap string nat) :=
  match tile with
  | None => Ok (dims dat)
  | Some tile =>
      if bool_decide (map_Forall (fun d _ => is_Some (dims dat !! d)) tile) then
        Ok (map_imap (fun d n =>
                        Some (match tile !! d with
                              | Some l => length (apply_slice l (seq 0 n))
                              | None => n
                              end)) (dims dat))
      else Raise (ValueError "Dimensions do not exist")
  end.

Definition select_tile (dat : model_output) (tile : option (gmap string slice))
    : result unit :=
  sizes ← indexed_sizes dat tile;
  if bool_decide (map_Exists (fun _ n => n = 0%nat) sizes) then
    Raise (ValueError "At least one dimension is empy after indexing!")
  else Ok tt.

(** The names of the total advective fluxes of [adv_tend] (lines 1361-1363). *)
Definition adv_fluxnames (VAR : string) (force_2nd_adv : bool) : list string :=
  (fun d => "F" +:+ VAR +:+ d +:+ "_ADV_MEAN"
              +:+ (if force_2nd_adv then "_2ND" else ""))
    <$> ["X"; "Y"; "Z"].

(** The errors that [adv_tend] raises before it computes (lines 1360-1393).
    With force_2nd_adv the fluxes are read by subscript first (a missing one
    is a KeyError) and mean 2nd-order fluxes of moist potential temperature
    are refused; then all fluxes must be variables of the data.  The other
    variables that the kernels read are taken to be there. *)
Definition adv_tend_check (dat : model_output) (VAR : string)
    (force_2nd_adv : bool) : result unit :=
  let fluxnames := adv_fluxnames VAR force_2nd_adv in
  (if force_2nd_adv then
     match List.find (fun f => negb (in_list f (data_vars dat))) fluxnames with
     | Some f => Raise (KeyError f)
     | None =>
         if String.eqb VAR "T"
            && (USE_THETA_M dat && negb (OUTPUT_DRY_THETA_FLUXES dat))
         then Raise (ValueError
                ("Averaged moist potential temperature not available to build "
                 +:+ "mean 2nd-order fluxes! (use_theta_m=1 and output_dry_theta_fluxes=0)"))
         else Ok tt
     end
   else Ok tt) ;;
  if negb (forallb (fun f => in_list f (data_vars dat)) fluxnames)
  then Raise (ValueError "Fluxes not available!")
  else Ok tt.

(** The body of the loop over the budget methods (lines 1984-2030): the
    settings of the method are returned. *)
Definition process_method (dat : model_output) (var : string)
    (cyclic : gmap string bool) (budget_method : string)
    : M (gmap string bool) :=
  (* get config dict for current budget method *)
  '(c, budget_method) ← liftM (get_budget_method budget_method);
  dz_out ← liftM (check_dz_out c);
  emit (EvTotalTend var budget_method dz_out cyclic) ;;
  (* advective tendency *)
  emit (EvAdvTend var budget_method c cyclic) ;;
  force_2nd_adv ← liftM (setting c "force_2nd_adv");
  liftM (adv_tend_check dat (PyStr.upper var) force_2nd_adv) ;;
  cartesian ← liftM (setting c "cartesian");
  (if (cartesian : bool) then emit (EvCartCorr var budget_method dz_out cyclic) else retM tt) ;;
  retM c.

Fixpoint process_methods (dat : model_output) (var : string)
    (cyclic : gmap string bool)
    (methods : list string) (done : list (gmap string bool))
    : M (list (gmap string bool)) :=
  match methods with
  | [] => retM done
  | m :: methods' =>
      c ← process_method dat var cyclic m;
      process_methods dat var cyclic methods' (done ++ [c])
  end.

(** The keys of [datout] that are written for a variable. *)
Definition written_outfiles (configs : list (gmap string bool)) : list string :=
  ["flux"; "adv"; "tend"]
  ++ (if existsb (fun c => bool_decide (c !! "cartesian" = Some true)) configs
      then ["corr"] else [])
  ++ ["sgsflux"; "sgs"; "sources"; "grid"].

(** Is the postprocessed output of [var] complete (lines 1964-1971)? *)
Definition output_complete (var avg : string) (cartesian : bool) : M bool :=
  fun w =>
    (Ok (forallb (fun outfile => bool_decide (fpath var outfile avg ∈ files w))
                 (expected_outfiles cartesian)), w).

(** [load_postproc(outpath, var, cartesian, hor_avg, avg_dims)]: the files
    of the variable are opened one after the other; a missing file is a
    FileNotFoundError. *)
Definition load_postproc (var avg : string) (cartesian : bool) : M unit :=
  emit (EvLoadPostproc var) ;;
  for_each (expected_outfiles cartesian) (fun f =>
    ex ← file_exists (fpath var f avg);
    if (ex : bool) then retM tt else raiseM (FileNotFoundError (fpath var f avg))).

(** [save_tiles(dat, name, fpath, coords_all, task, tile, comm)]: the files
    it creates and removes.  A new file is laid out after a template
    [fpath + ".tmp"], which the first task writes (after removing a stale
    one) and removes at the end; the other tasks need the template to be
    there.  The first task reads the template again at the end, which it has
    not opened when the file existed before. *)
Definition save_tiles (fpath : string) (task : option nat) : M unit :=
  let first := bool_decide (task = Some 0%nat) in
  let tempfile := fpath +:+ ".tmp" in
  ex ← file_exists fpath;
  let mode_w := negb ex in
  save_file fpath ;;
  (if mode_w then
     (if first then
        (* create small template file to copy attributes and coordinates from *)
        tmp_ex ← file_exists tempfile;
        (if (tmp_ex : bool) then remove_file tempfile else retM tt) ;;
        save_file tempfile
      else retM tt) ;;
     tmp_ex ← file_exists tempfile;
     if (tmp_ex : bool) then retM tt else raiseM (FileNotFoundError tempfile)
   else retM tt) ;;
  if first then
    (* set general vars *)
    if mode_w then remove_file tempfile
    else raiseM (UnboundLocalError "nc_dat")
  else retM tt.

(** The body of the loop over the variables of [calc_tendencies_core]; the
    result tells whether the variable was computed. *)
Definition process_variable (dat : model_output) (o : options)
    (tile : option (gmap string slice)) (task : option nat)
    (cyclic : gmap string bool) (avg : string) (cartesian : bool)
    (var : string) : M bool :=
  complete ← output_complete var avg cartesian;
  if skip_exist o && complete then
    emit (EvPrint "Postprocessed output already available!") ;;
    load_postproc var avg cartesian ;;
    retM false
  else
    (* calculate all sources except advection *)
    emit (EvSources var cyclic) ;;
    (* total and advective tendencies *)
    configs ← process_methods dat var cyclic (make_list (budget_methods o)) [];
    match configs with
    | [] => raiseM (KeyError "tend")
    | _ :: _ =>
        emit (EvHeight var cyclic) ;;
        (if save_output o then
           for_each (written_outfiles configs) (fun dn =>
             match tile with
             | None => save_file (fpath var dn avg)
             | Some _ => save_tiles (fpath var dn avg) task
             end)
         else retM tt) ;;
        retM true
    end.

Fixpoint process_variables (dat : model_output) (o : options)
    (tile : option (gmap string slice)) (task : option nat)
    (cyclic : gmap string bool) (avg : string) (cartesian : bool)
    (variables : list string) (datout_all : list (string * bool))
    : M (list (string * bool)) :=
  match variables with
  | [] => retM datout_all
  | var :: variables' =>
      computed ← process_variable dat o tile task cyclic avg cartesian var;
      process_variables dat o tile task cyclic avg cartesian variables'
        (if computed && negb (bool_decide (tile = None)) then datout_all
         else datout_all ++ [(var, computed)])
  end.

(** [calc_tendencies_core(variables, outpath_wrf, outpath, budget_methods,
    tile, task, comm, ...)] *)
Definition calc_tendencies_core (dat : model_output) (variables : list string)
    (o : options) (tile : option (gmap string slice)) (task : option nat)
    : M output :=
  emit EvLoadData ;;
  (* check if periodic bc can be used in staggering operations *)
  let cartesian := any_cartesian o in
  let cyclic := core_cyclic dat tile in
  (* select tile *)
  liftM (select_tile dat tile) ;;
  avg ← liftM (avg_suffix o);
  (* prepare variable tendencies *)
  emit (EvPrepare cyclic) ;;
  datout_all ← process_variables dat o tile task cyclic avg cartesian variables [];
  match tile with
  | None => retM (OutData datout_all (return_model_output o))
  | Some _ => retM OutNone  (* in case of tiling: load output later *)
  end.

(** The loop of [calc_tendencies] over the expected output files (lines
    1779-1794): existing files are removed when [skip_exist] is off (by the
    first worker), a missing file clears [skip]. *)
Fixpoint check_existing (env : mpi) (o : options) (avg : string)
    (paths : list (string * string)) (skip : bool) : M bool :=
  match paths with
  | [] => mret skip
  | (outfile, var) :: paths' =>
      ex ← file_exists (fpath var outfile avg);
      if (ex : bool) then
        (if negb (skip_exist o) && (rank env =? 0)%nat
         then remove_file (fpath var outfile avg) else mret tt) ;;
        check_existing env o avg paths' skip
      else check_existing env o avg paths' false
  end.

(** [l[start::step]] *)
Fixpoint take_every {A : Type} (fuel step : nat) (l : list A) : list A :=
  match fuel, l with
  | S fuel', x :: _ => x :: take_every fuel' step (drop step l)
  | _, _ => []
  end.

Definition slice_from_step {A : Type} (start step : nat) (l : list A)
    : result (list A) :=
  if (step =? 0)%nat then Raise (ValueError "slice step cannot be zero")
  else Ok (take_every (length l) step (drop start l)).

(** [{k: v for d in tile for k, v in d.items()}] *)
Definition merge_tile (tile : list (gmap string slice)) : gmap string slice :=
  foldl (fun acc d => d ∪ acc) ∅ tile.

Definition with_return_model_output (o : options) (b : bool) : options :=
  {| budget_methods := budget_methods o; hor_avg := hor_avg o;
     avg_dims := avg_dims o; skip_exist := skip_exist o;
     save_output := save_output o; return_model_output := b |}.

(** Load the entire postprocessed output (lines 1800-1808, 1851-1858). *)
Definition load_all (variables : list string) (o : options) (avg : string)
    (cartesian : bool) : M output :=
  for_each variables (fun var => load_postproc var avg cartesian) ;;
  (if return_model_output o then emit EvLoadData else mret tt) ;;
  mret (OutData ((fun var => (var, false)) <$> variables) (return_model_output o)).

(** [calc_tendencies(variables, outpath_wrf, outpath, budget_methods, ...,
    chunks, ...)] *)
Definition calc_tendencies (env : mpi) (dat : model_output)
    (variables : list string) (o : options)
    (chunks : option (list (string * nat))) : M output :=
  avg ← liftM (avg_suffix o);
  (* check if postprocessed output already exists *)
  let cartesian := any_cartesian o in
  skip ← check_existing env o avg
           (outfile ← expected_outfiles cartesian; var ← variables; [(outfile, var)])
           (skip_exist o);
  if (skip : bool) then
    emit (EvPrint "Postprocessed output already available!") ;;
    load_all variables o avg cartesian
  else
    match chunks with
    | Some chunks =>
        (* prepare tile processing *)
        if existsb (fun c => negb (in_list c xy)) (chunks.*1) then
          raiseM (ValueError "Chunking is only allowed in the x and y-directions!")
        else if hor_avg o
                && existsb (fun d => in_list d (default [] (avg_dims o))) (chunks.*1) then
          raiseM (ValueError "Averaging dimensions cannot be used for chunking!")
        else
          (* create tiles and divide among processors *)
          emit EvLoadData ;;
          t ← liftM (create_tiles (dims dat) chunks);
          for_each (printed t) (fun msg => emit (EvPrint msg)) ;;
          let all_tiles := imap (fun i t => (i, t)) (tiles t) in
          tiles ← liftM (slice_from_step (rank env) (nproc env) all_tiles);
          (* process tiles of this processor *)
          for_each tiles (fun '(task, tile) =>
            let tile := merge_tile tile in
            (if bool_decide (tile = ∅)
             then calc_tendencies_core dat variables
                    (with_return_model_output o false) None None
             else calc_tendencies_core dat variables
                    (with_return_model_output o false) (Some tile) (Some task)) ;;
            mret tt) ;;
          (* wait until all processors are finished *)
          (if has_comm env then emit EvBarrier else mret tt) ;;
          if (rank env =? 0)%nat then load_all variables o avg cartesian
          else mret OutNone
    | None =>
        if (1 <? nproc env)%nat then
          raiseM (ValueError
            "Number of processors > 1, but chunking is disabled (chunks=None)!")
        else calc_tendencies_core dat variables o None None
    end.

(** The dictionary [cyclic] a kernel is called with. *)
Definition event_cyclic (e : event) : option (gmap string bool) :=
  match e with
  | EvPrepare c | EvSources _ c | EvTotalTend _ _ _ c | EvAdvTend _ _ _ c
  | EvCartCorr _ _ _ c | EvHeight _ c => Some c
  | _ => None
  end.

(** The events that compute something: everything except printing, loading
    stored output and removing files. *)
Definition is_computation (e : event) : bool :=
  match e with
  | EvPrint _ | EvRemove _ | EvLoadPostproc _ => false
  | _ => true
  end.

(** Is the output of a variable stored completely, and of all variables? *)
Definition stored (w : world) (avg : string) (cartesian : bool) (var : string)
    : bool :=
  forallb (fun outfile => bool_decide (fpath var outfile avg ∈ files w))
          (expected_outfiles cartesian).

Definition all_stored (w : world) (avg : string) (cartesian : bool)
    (variables : list string) : bool :=
  forallb (stored w avg cartesian) variables.

(** Nothing is left to compute: the stored output of every variable is
    complete and may be reused. *)
Definition nothing_to_process (o : options) (w : world) (avg : string)
    (cartesian : bool) (variables : list string) : bool :=
  forallb (fun var => skip_exist o && stored w avg cartesian var) variables.

(** The stored output of all variables, as the drivers return it. *)
Definition loaded (o : options) (variables : list string) : output :=
  OutData ((fun var => (var, false)) <$> variables) (return_model_output o).

(** The keyword defaults of [calc_tendencies]. *)
Definition default_options : options :=
  {| budget_methods := Str default_budget_methods;
     hor_avg := false; avg_dims := None; skip_exist := true;
     save_output := true; return_model_output := false |}.

(** ** The advective tendency [adv_tend]

    The model follows [adv_tend] from the flux dictionary [fluxes] on (lines
    1440-1541).  Every direction is followed along one grid line of its own
    axis: the horizontal directions along a row in x resp. y, the vertical
    direction along a column.  A quantity is a scalar or an array along that
    line ([xfield]); arithmetic broadcasts as xarray does.  What is computed
    across grid lines is an input of the model, as is everything [adv_tend]
    has prepared before line 1440. *)

Inductive dir : Type := dirX | dirY | dirZ.
Inductive comp : Type := adv_r | mean | trb_r.

#[global] Instance dir_eq_dec : EqDecision dir.
Proof. solve_decision. Defined.
#[global] Instance comp_eq_dec : EqDecision comp.
Proof. solve_decision. Defined.

Definition XYZ : list dir := [dirX; dirY; dirZ].

Inductive xfield : Type :=
| Scalar (c : val)
| Array (a : field).

#[global] Instance xfield_eq_dec : EqDecision xfield.
Proof. solve_decision. Defined.

Definition xmap2 (op : val -> val -> val) (x y : xfield) : xfield :=
  match x, y with
  | Scalar a, Scalar b => Scalar (op a b)
  | Scalar a, Array b => Array (op a <$> b)
  | Array a, Scalar b => Array ((fun v => op v b) <$> a)
  | Array a, Array b => Array (zip_with op a b)
  end.

Definition xadd : xfield -> xfield -> xfield := xmap2 add.
Definition xsub : xfield -> xfield -> xfield := xmap2 sub.
Definition xmul : xfield -> xfield -> xfield := xmap2 mul.
Definition xdiv : xfield -> xfield -> xfield := xmap2 div.
Definition xneg (x : xfield) : xfield :=
  match x with
  | Scalar a => Scalar (neg a)
  | Array a => Array (fneg a)
  end.

(** [diff] needs its dimension. *)
Definition xdiff (x : xfield) (dim : string) (cyclic : bool) : result xfield :=
  match x with
  | Array a => a' ← diff a dim cyclic; Ok (Array a')
  | Scalar _ => Raise (KeyError dim)
  end.

(** [x[{dim: i}]] and [x[{dim: i}] = v] *)
Definition xget (x : xfield) (i : Z) : result val :=
  match x with
  | Array a => py_get a i
  | Scalar _ => Raise IndexError
  end.

Definition xset (x : xfield) (i : Z) (v : val) : result xfield :=
  match x with
  | Array a => a' ← py_set a i v; Ok (Array a')
  | Scalar _ => Raise IndexError
  end.

(** The name of a direction in lower case, and the direction a name in upper
    case stands for. *)
Definition dir_lower (D : dir) : string :=
  match D with dirX => "x" | dirY => "y" | dirZ => "z" end.

Definition dir_of_name (s : string) : option dir :=
  if String.eqb s "X" then Some dirX
  else if String.eqb s "Y" then Some dirY
  else if String.eqb s "Z" then Some dirZ
  else None.

(** The inputs of the model. *)
Record adv_data : Type := AdvData {
  VAR : string;
  cyclic : string -> bool;            (* [cyclic[d]] *)
  adv_hor_avg : bool;
  adv_avg_dims : list string;
  dz_out_x : bool;
  dz_out_z : bool;
  tot_flux : dir -> xfield;           (* [tot_flux], after line 1410 *)
  mean_flux : dir -> xfield;          (* [mean_flux], after line 1438 *)
  TRB_MEAN : dir -> option xfield;    (* [dat_mean["F{VAR}{vel}_TRB_MEAN"]], if present *)
  flux_unstaggered : dir -> bool;     (* [d in flux[D].dims] *)
  fac : comp -> dir -> xfield;        (* [fac], after line 1490 *)
  mapfac_F : dir -> xfield;           (* [mapfac["F" + D]] *)
  mapfac_X : dir -> xfield;           (* [mapfac["X"]] on the line of a direction *)
  mapfac_Y : dir -> xfield;
  DX : val;
  DY : val;
  rhod8z : xfield;
  DN : field;                         (* [grid["DN"]], on the staggered levels *)
  DNW : field;
  RHOD_STAG_MEAN : dir -> xfield;
  MU_STAG_MEAN : dir -> xfield
}.

(** The three decomposition components in the three directions. *)
Definition decomp : Type := comp -> dir -> xfield.

Record adv_result : Type := AdvResult {
  flux : decomp;
  adv : decomp
}.

Section AdvTend.

(** The horizontal average [avg_xy(., avg_dims, cyclic=cyclic)]; it works
    across the grid lines of the model. *)
Variable avg_xy : xfield -> xfield.

Variable d : adv_data.

Definition dz_out : bool := dz_out_x d || dz_out_z d.

(** [(comp in ["trb_r", "mean"]) and hor_avg] *)
Definition averaged (c : comp) : bool :=
  bool_decide (c ∈ [trb_r; mean]) && adv_hor_avg d.

Definition maybe_avg (c : comp) (x : xfield) : xfield :=
  if averaged c then avg_xy x else x.

(** Lines 1465-1494: the tendency from the horizontal flux in direction
    [D]. *)
Definition adv_horizontal (c : comp) (flx : dir -> xfield) (D : dir)
    : result xfield :=
  let dl := dir_lower D in
  let cyc := cyclic d dl in
  if adv_hor_avg d && in_list dl (adv_avg_dims d)
     && bool_decide (c ∈ [trb_r; mean]) then
    (* mean and turbulent fluxes are zero in avg_dims *)
    Ok (Scalar (num zero))
  else
    let ds := if flux_unstaggered d D then dl else dl +:+ "_stag" in
    (* determine correct mapscale factors and density to multiply with flux *)
    let mf_flx := maybe_avg c (mapfac_F d D) in
    (* flux derivative *)
    let dx := if bool_decide (D = dirX) then DX d else DY d in
    df ← xdiff (xdiv (xmul (fac d c D) (flx D)) mf_flx) ds cyc;
    Ok (xdiv (xmul (xmul (xneg df) (maybe_avg c (mapfac_X d D)))
                   (maybe_avg c (mapfac_Y d D)))
             (Scalar dx)).

(** Lines 1496-1508: the tendency from the vertical flux. *)
Definition adv_vertical (c : comp) (flx : dir -> xfield) : result xfield :=
  let rhod8z_m := maybe_avg c (rhod8z d) in
  let fz := xmul rhod8z_m (flx dirZ) in
  adv_Z ←
    (if String.eqb (VAR d) "W" then
       df ← xdiff fz "bottom_top" false;
       let a := xdiv (xneg df) (Array (DN d)) in
       (* set sfc and top point correctly *)
       a ← xset a 0 (num zero);
       top ← xget fz (-1);
       dn ← py_get (DN d) (-2);
       xset a (-1) (div (mul (num two) top) dn)
     else
       df ← xdiff fz "bottom_top_stag" false;
       Ok (xdiv (xneg df) (Array (DNW d))));
  (* multiply with g so that we can then divide all tendencies by mu *)
  Ok (xmul adv_Z (Scalar (num (- g)%Qc))).

(** Lines 1509-1513 *)
Definition normalize (D : dir) (x : xfield) : xfield :=
  if dz_out && negb (bool_decide (D = dirZ)) then xdiv x (RHOD_STAG_MEAN d D)
  else xdiv x (MU_STAG_MEAN d D).

(** The body of the loop over [fluxes.items()] (lines 1457-1515): the
    dataset [adv_i] of one component. *)
Definition adv_component (c : comp) (flx : dir -> xfield)
    : result (dir -> xfield) :=
  aX ← adv_horizontal c flx dirX;
  aY ← adv_horizontal c flx dirY;
  aZ ← adv_vertical c flx;
  Ok (fun D => normalize D match D with dirX => aX | dirY => aY | dirZ => aZ end).

(** Lines 1441-1453: the explicit resolved turbulent fluxes, if present. *)
Definition trb_flux : option (dir -> xfield) :=
  match TRB_MEAN d dirX, TRB_MEAN d dirY, TRB_MEAN d dirZ with
  | Some fx, Some fy, Some fz =>
      Some (fun D => match D with dirX => fx | dirY => fy | dirZ => fz end)
  | _, _, _ => None
  end.

Definition trb_exp : bool :=
  match trb_flux with Some _ => true | None => false end.

(** The dictionary [fluxes] after line 1453. *)
Definition fluxes (c : comp) : option (dir -> xfield) :=
  match c with
  | adv_r => Some (tot_flux d)
  | mean => Some (mean_flux d)
  | trb_r => trb_flux
  end.

(** [a.loc[D, "trb_r"] = a.loc[D, "adv_r"] - a.loc[D, "mean"]] *)
Definition set_residual (a : decomp) (D : dir) : decomp :=
  fun c D' =>
    if bool_decide (c = trb_r) && bool_decide (D' = D)
    then xsub (a adv_r D) (a mean D)
    else a c D'.

(** The loop over [avg_dims] of lines 1537-1540. *)
Fixpoint assign_avg_dims (dims : list string) (r : adv_result)
    : result adv_result :=
  match dims with
  | [] => Ok r
  | dn :: dims' =>
      match dir_of_name (PyStr.upper dn) with
      | Some D =>
          assign_avg_dims dims'
            {| flux := set_residual (flux r) D; adv := set_residual (adv r) D |}
      | None => Raise (KeyError (PyStr.upper dn))
      end
  end.

(** [adv_tend], from line 1440 on. *)
Definition adv_tend : result adv_result :=
  adv_adv_r ← adv_component adv_r (tot_flux d);
  adv_mean ← adv_component mean (mean_flux d);
  adv_trb ←
    match trb_flux with
    | Some f => a ← adv_component trb_r f; Ok (Some a)
    | None => Ok None
    end;
  let post (x : dir -> xfield) : dir -> xfield :=
    if adv_hor_avg d then (fun D => avg_xy (x D)) else x in
  (* the arrays along "comp"; a missing component is NaN after reindex *)
  let stack (r m : dir -> xfield) (t : option (dir -> xfield)) : decomp :=
    fun c D =>
      match c with
      | adv_r => r D
      | mean => m D
      | trb_r => match t with Some t => t D | None => Scalar NaN end
      end in
  let r := {| flux := stack (post (tot_flux d)) (mean_flux d) trb_flux;
              adv := stack (post adv_adv_r) adv_mean adv_trb |} in
  (* calculate resolved turbulent fluxes and tendencies as residual *)
  if negb trb_exp then
    Ok (foldl (fun r D => {| flux := set_residual (flux r) D;
                             adv := set_residual (adv r) D |}) r XYZ)
  else if adv_hor_avg d then
    (* assign fluxes in averaged dimension to turbulent component *)
    assign_avg_dims (adv_avg_dims d) r
  else Ok r.

End AdvTend.

(** A small data set for the vertical-velocity budget: two layers (three
    staggered levels) and rows of three staggered points, with unit grid
    constants; [trb] are the explicit resolved turbulent fluxes, if any. *)
Definition sample_w (trb : dir -> option xfield) : adv_data :=
  let ones := Scalar (num one) in
  {| VAR := "W";
     cyclic := fun _ => false;
     adv_hor_avg := false;
     adv_avg_dims := [];
     dz_out_x := false;
     dz_out_z := false;
     tot_flux := fun D =>
       match D with
       | dirZ => Array [num one; num one]
       | _ => Array [num one; num two; num four]
       end;
     mean_flux := fun D =>
       match D with
       | dirZ => Array [num one; num zero]
       | _ => Array [num one; num one; num one]
       end;
     TRB_MEAN := trb;
     flux_unstaggered := fun _ => false;
     fac := fun _ _ => ones;
     mapfac_F := fun _ => ones;
     mapfac_X := fun _ => ones;
     mapfac_Y := fun _ => ones;
     DX := num one;
     DY := num one;
     rhod8z := ones;
     DN := [num one; num one; NaN];
     DNW := [num one; num one];
     RHOD_STAG_MEAN := fun _ => ones;
     MU_STAG_MEAN := fun D =>
       match D with
       | dirZ => Array [num one; num one; num one]
       | _ => ones
       end |}.

Definition sample_trb (D : dir) : option xfield :=
  Some match D with
       | dirZ => Array [num four; num four]
       | _ => Array [num one; num one; num one]
       end.

(** The keys of a budget method (lines 873-876): the words of the method
    string, with abbreviations replaced. *)
Definition method_keys (budget_method : string) : list string :=
  (fun key => default key (settings_short_names !! key))
    <$> (if String.eqb budget_method "" then [] else PyStr.split_space budget_method).

(** What is left of tile [i] of an axis of [points] points after the tile
    has been cut out (line 2174 of [create_tiles]) and its boundary points
    have been stripped (lines 2088-2105 of [calc_tendencies_core]); the
    points of the axis are numbered from 0. *)
Definition stripped_tile (dim : string) (bounds : list nat) (i : nat) (ext : Z)
    (points : nat) : list nat :=
  apply_slice (strip_slice dim (tile_slice bounds i ext))
              (apply_slice (tile_slice bounds i ext) (seq 0 points)).

(** [extends P w w']: the trace of [w'] is the trace of [w] followed by
    events that satisfy [P]. *)
Definition extends (P : event -> Prop) (w w' : world) : Prop :=
  exists evs, trace w' = trace w ++ evs /\ Forall P evs.

Definition emits (P : event -> Prop) {A : Type} (m : M A) : Prop :=
  forall w, extends P w (m w).2.

(** The change of the stored files from [w] to [w']: every file that is
    gone satisfies [R], and every new file satisfies [Q]. *)
Definition file_change (R Q : string -> Prop) (w w' : world) : Prop :=
  (forall p, p ∈ files w -> p ∈ files w' \/ R p)
  /\ (forall p, p ∈ files w' -> p ∈ files w \/ Q p).

Definition changes_files (R Q : string -> Prop) {A : Type} (m : M A) : Prop :=
  forall w, file_change R Q w (m w).2.

(** The output files [VAR/<outfile><avg>.nc] of the requested variables,
    and the templates [fpath + ".tmp"] that [save_tiles] lays them out
    after. *)
Definition output_file (variables : list string) (o : options) (p : string)
    : Prop :=
  exists avg var dn, avg_suffix o = Ok avg /\ var ∈ variables /\ dn ∈ outfiles
                     /\ p = fpath var dn avg.

Definition template_file (variables : list string) (o : options) (p : string)
    : Prop :=
  exists q, output_file variables o q /\ p = q +:+ ".tmp".

(** The files that the core driver may remove and may add for the
    variables in [vars]: output files and, from the first task of a tiled
    run, their templates. *)
Definition core_removes (o : options) (tile : option (gmap string slice))
    (task : option nat) (avg : string) (vars : list string) (p : string) : Prop :=
  save_output o = true /\ tile <> None /\ task = Some 0%nat
  /\ exists var dn, var ∈ vars /\ dn ∈ outfiles /\ p = fpath var dn avg +:+ ".tmp".

Definition core_adds (o : options) (tile : option (gmap string slice))
    (task : option nat) (avg : string) (vars : list string) (p : string) : Prop :=
  save_output o = true
  /\ exists var dn, var ∈ vars /\ dn ∈ outfiles
       /\ (p = fpath var dn avg
           \/ (tile <> None /\ task = Some 0%nat /\ p = fpath var dn avg +:+ ".tmp")).

(** ** Coordinates ([fix_coords])

    The horizontal coordinate that [fix_coords] assigns to a dimension of
    [size] points with grid spacing [res] (lines 149-150):
    [coord = np.arange(size) * res; coord = coord - (coord[-1] + res) / 2]. *)
Definition of_nat (i : nat) : Qc := Q2Qc (inject_Z (Z.of_nat i)).

Definition fix_coords_coord (size : nat) (res : Qc) : result field :=
  let coord : field := (fun i => mul (num (of_nat i)) (num res)) <$> seq 0 size in
  last ← py_get coord (-1);
  Ok ((fun c => sub c (div (add last (num res)) (num two))) <$> coord).

(** ** Dictionaries of locations ([correct_dims_stag])

    The dictionary [loc] is given by its items in insertion order; the loop
    of [correct_dims_stag] over [loc.items()] changes the copy [loc_out].
    [del loc_out[d]] raises a KeyError when the key is missing. *)
Fixpoint correct_dims_stag_loop {V : Type} (loc_keys dat_dims : list string)
    (items : list (string * V)) (loc_out : gmap string V) : result (gmap string V) :=
  match items with
  | [] => Ok loc_out
  | (d, val) :: items' =>
      let ds := d +:+ "_stag" in
      let loc_out :=
        if in_list ds dat_dims && negb (in_list ds loc_keys)
        then <[ds := val]> loc_out else loc_out in
      if negb (in_list d dat_dims) then
        match loc_out !! d with
        | Some _ => correct_dims_stag_loop loc_keys dat_dims items' (delete d loc_out)
        | None => Raise (KeyError d)
        end
      else correct_dims_stag_loop loc_keys dat_dims items' loc_out
  end.

Definition correct_dims_stag {V : Type} (loc : list (string * V))
    (dat_dims : list string) : result (gmap string V) :=
  correct_dims_stag_loop (loc.*1) dat_dims loc (list_to_map loc).

(** The value that the items give to the key [k] as a staggered variant of
    one of their keys (the last such item). *)
Fixpoint stag_src {V : Type} (items : list (string * V)) (k : string) : option V :=
  match items with
  | [] => None
  | (d, val) :: rest =>
      match stag_src rest k with
      | Some v => Some v
      | None => if String.eqb (d +:+ "_stag") k then Some val else None
      end
  end.

(** [correct_dims_stag_list(iterable, dat)] *)
Definition correct_dims_stag_list (iterable dat_dims : list string) : list string :=
  d ← iterable;
  if in_list d dat_dims then [d]
  else if in_list (d +:+ "_stag") dat_dims then [d +:+ "_stag"] else [].

(** The budget method a kernel is called for. *)
Definition event_method (e : event) : option string :=
  match e with
  | EvTotalTend _ m _ _ | EvAdvTend _ m _ _ | EvCartCorr _ m _ _ => Some m
  | _ => None
  end.

(** The settings of a budget method are refused by the check of lines
    1988-1994. *)
Definition bad_dz_out (c : gmap string bool) : Prop :=
  (c !! "dz_out_x" = Some true /\ c !! "dz_out_z" = Some true)
  \/ ((c !! "dz_out_x" = Some true \/ c !! "dz_out_z" = Some true)
      /\ c !! "cartesian" = Some false).

(** * Properties *)

(** ** Lists and Python positions *)

Section ListFacts.
Context {A : Type}.
Implicit Types l : list A.

Lemma removelast_take l : removelast l = take (length l - 1) l.
Proof. rewrite removelast_firstn_len. f_equal. lia. Qed.

Lemma length_removelast' l : length (removelast l) = length l - 1.
Proof. rewrite removelast_take, length_take. lia. Qed.

Lemma lookup_removelast l i :
  i + 1 < length l -> removelast l !! i = l !! i.
Proof. intros Hi. rewrite removelast_take. apply lookup_take_lt. lia. Qed.

End ListFacts.

Lemma py_pos_nat (n k : nat) : k < n -> py_pos n (Z.of_nat k) = Some k.
Proof.
  intros Hk. unfold py_pos.
  destruct (Z.leb_spec 0 (Z.of_nat k)); [|lia].
  destruct (Z.ltb_spec (Z.of_nat k) (Z.of_nat n)); [|lia].
  by rewrite Nat2Z.id.
Qed.

Lemma py_pos_neg (n k : nat) :
  0 < k -> k <= n -> py_pos n (- Z.of_nat k) = Some (n - k).
Proof.
  intros Hk Hn. unfold py_pos.
  destruct (Z.leb_spec 0 (- Z.of_nat k)); [lia|].
  destruct (Z.leb_spec (- Z.of_nat n) (- Z.of_nat k)); [|lia].
  f_equal. lia.
Qed.

Lemma py_get_nat (a : field) (k : nat) (v : val) :
  a !! k = Some v -> py_get a (Z.of_nat k) = Ok v.
Proof.
  intros Hv. unfold py_get.
  rewrite py_pos_nat by (by eapply lookup_lt_Some). by rewrite Hv.
Qed.

Lemma py_get_neg (a : field) (k : nat) (v : val) :
  0 < k -> k <= length a -> a !! (length a - k) = Some v ->
  py_get a (- Z.of_nat k) = Ok v.
Proof.
  intros Hk Hn Hv. unfold py_get.
  rewrite py_pos_neg by lia. by rewrite Hv.
Qed.

Lemma py_set_nat (a : field) (k : nat) (v : val) :
  k < length a -> py_set a (Z.of_nat k) v = Ok (<[k := v]> a).
Proof. intros Hk. unfold py_set. by rewrite py_pos_nat. Qed.

Lemma py_set_neg (a : field) (k : nat) (v : val) :
  0 < k -> k <= length a -> py_set a (- Z.of_nat k) v = Ok (<[length a - k := v]> a).
Proof. intros Hk Hn. unfold py_set. by rewrite py_pos_neg. Qed.

(** ** Shifts *)

Lemma length_shift_up (a : field) : length (shift_up a) = length a.
Proof.
  destruct a as [|x t]; [done|].
  unfold shift_up. cbn [length]. rewrite length_removelast'. cbn [length]. lia.
Qed.

Lemma length_roll_up (a : field) : length (roll_up a) = length a.
Proof.
  destruct a as [|x t]; [done|].
  unfold roll_up. cbn [length]. rewrite length_removelast'. cbn [length]. lia.
Qed.

Lemma length_shift_down (a : field) : length (shift_down a) = length a.
Proof. destruct a as [|x t]; [done|]. cbn. rewrite length_app. cbn. lia. Qed.

Lemma shift_up_0 (a : field) : a <> [] -> shift_up a !! 0 = Some NaN.
Proof. by destruct a. Qed.

Lemma shift_up_S (a : field) (i : nat) :
  S i < length a -> shift_up a !! S i = a !! i.
Proof.
  destruct a as [|x t]; [cbn; lia|]. intros Hi.
  unfold shift_up. cbn [lookup list_lookup]. apply lookup_removelast. lia.
Qed.

Lemma roll_up_S (a : field) (i : nat) :
  S i < length a -> roll_up a !! S i = a !! i.
Proof.
  destruct a as [|x t]; [cbn; lia|]. intros Hi.
  unfold roll_up. cbn [lookup list_lookup]. apply lookup_removelast. lia.
Qed.

Lemma shift_down_lookup (a : field) (i : nat) :
  S i < length a -> shift_down a !! i = a !! S i.
Proof.
  destruct a as [|x t]; [cbn; lia|]. cbn [length]. intros Hi.
  cbn. apply lookup_app_l. lia.
Qed.

Lemma length_fmap2 (op : val -> val -> val) (a b : field) :
  length a = length b -> length (fmap2 op a b) = length a.
Proof. intros H. unfold fmap2. rewrite length_zip_with. lia. Qed.

Lemma lookup_fmap2 (op : val -> val -> val) (a b : field) (i : nat) (x y : val) :
  a !! i = Some x -> b !! i = Some y -> fmap2 op a b !! i = Some (op x y).
Proof. intros Ha Hb. unfold fmap2. rewrite lookup_zip_with, Ha, Hb. done. Qed.

Lemma lookup_fscale (c : val) (a : field) (i : nat) (x : val) :
  a !! i = Some x -> fscale c a !! i = Some (mul c x).
Proof. intros Ha. unfold fscale. by rewrite list_lookup_fmap, Ha. Qed.

Lemma length_fscale (c : val) (a : field) : length (fscale c a) = length a.
Proof. unfold fscale. by rewrite length_fmap. Qed.

(** ** The staggering algebra *)

Lemma eqb_bottom_top_xy (dim : string) :
  dim ∈ xy -> String.eqb dim "bottom_top" = false.
Proof.
  unfold xy. rewrite !elem_of_cons, elem_of_nil.
  intros [-> | [-> | []]]; reflexivity.
Qed.

Lemma has_stag_xy (dim : string) : dim ∈ xy -> has_stag (dim +:+ "_stag") = true.
Proof.
  unfold xy. rewrite !elem_of_cons, elem_of_nil.
  intros [-> | [-> | []]]; reflexivity.
Qed.

(** The operations that fail on an axis without points or on a weight that
    is not aligned. *)
Lemma roll_ok (a : field) : a <> [] -> roll a = Ok (roll_up a).
Proof. by destruct a. Qed.

Lemma wmul_ok (a : field) (w : weight) :
  weight_covers (length a) w = true -> wmul a w = Ok (weighted a w).
Proof. intros H. unfold wmul. by rewrite H. Qed.

Lemma nonempty_length (a : field) : a <> [] <-> 0 < length a.
Proof. destruct a; cbn; split; (done || lia). Qed.

Lemma stagger_horizontal (data : field) (dim : string) (FNM FNP : weight)
    (cyc : bool) (ic : option interp_const) :
  String.eqb dim "bottom_top" = false -> data <> [] ->
  stagger data dim FNM FNP cyc ic
  = post_stagger (fscale (num half) (fadd data (roll_up data))) dim (Some data) cyc ic.
Proof. intros Hbt Hne. unfold stagger. rewrite Hbt, roll_ok by done. done. Qed.

Lemma stagger_vertical (data : field) (FNM FNP : weight)
    (cyc : bool) (ic : option interp_const) :
  weight_covers (length data) FNM = true ->
  weight_covers (length data) FNP = true ->
  stagger data "bottom_top" FNM FNP cyc ic
  = post_stagger (fadd (weighted data FNM) (weighted (shift_up data) FNP))
                 "bottom_top" (Some data) cyc ic.
Proof.
  intros HM HP. unfold stagger. cbn [String.eqb Ascii.eqb Bool.eqb].
  rewrite (wmul_ok data FNM HM). cbn [mbind result_bind].
  rewrite wmul_ok; [done|]. by rewrite length_shift_up.
Qed.

(** [post_stagger] on an axis that is not the vertical one. *)
Lemma post_stagger_periodic (data_stag : field) (dim : string)
    (data : option field) (ic : option interp_const) (v : val) :
  String.eqb dim "bottom_top" = false -> data_stag <> [] ->
  (data_stag ++ [NaN]) !! 0 = Some v ->
  post_stagger data_stag dim data true ic
  = Ok (<[length data_stag := v]> (data_stag ++ [NaN])).
Proof.
  intros Hdim Hne Hv. unfold post_stagger, reindex_stag. rewrite Hdim.
  rewrite bool_decide_eq_false_2 by done.
  rewrite (py_get_nat _ 0 v Hv : py_get _ 0%Z = _). cbn [mbind result_bind].
  rewrite length_app. cbn [length].
  replace (Z.of_nat (length data_stag + 1) - 1)%Z
    with (Z.of_nat (length data_stag)) by lia.
  rewrite py_set_nat; [done|]. rewrite length_app. cbn. lia.
Qed.

Lemma post_stagger_open (data_stag : field) (dim : string)
    (data : option field) (ic : option interp_const) :
  String.eqb dim "bottom_top" = false -> data_stag <> [] ->
  post_stagger data_stag dim data false ic
  = Ok (<[0 := NaN]> (data_stag ++ [NaN])).
Proof.
  intros Hdim Hne. unfold post_stagger, reindex_stag. rewrite Hdim.
  rewrite bool_decide_eq_false_2 by done.
  apply (py_set_nat _ 0 _ : _ -> py_set _ 0%Z _ = _). rewrite length_app. cbn. lia.
Qed.

Lemma post_stagger_vertical_plain (data_stag : field) (data : option field)
    (cyc : bool) :
  post_stagger data_stag "bottom_top" data cyc None = Ok (data_stag ++ [NaN]).
Proof. reflexivity. Qed.

Lemma post_stagger_vertical_const (data_stag data : field) (cyc : bool)
    (c : interp_const) (d0 d1 d2 dl dl2 : val) :
  data !! 0 = Some d0 -> data !! 1 = Some d1 -> data !! 2 = Some d2 ->
  data !! (length data - 1) = Some dl -> data !! (length data - 2) = Some dl2 ->
  post_stagger data_stag "bottom_top" (Some data) cyc (Some c)
  = Ok (<[length data_stag := add (mul (CFN c) dl) (mul (CFN1 c) dl2)]>
          (<[0 := add (add (mul (CF1 c) d0) (mul (CF2 c) d1)) (mul (CF3 c) d2)]>
             (data_stag ++ [NaN]))).
Proof.
  intros H0 H1 H2 Hl Hl2. unfold post_stagger, reindex_stag.
  assert (2 < length data) by (by eapply lookup_lt_Some).
  cbn [String.eqb Ascii.eqb Bool.eqb].
  rewrite (py_get_nat _ 0 d0 H0 : py_get _ 0%Z = _).
  rewrite (py_get_nat _ 1 d1 H1 : py_get _ 1%Z = _).
  rewrite (py_get_nat _ 2 d2 H2 : py_get _ 2%Z = _).
  cbn [mbind result_bind].
  rewrite (py_set_nat _ 0 _ : _ -> py_set _ 0%Z _ = _)
    by (rewrite length_app; cbn; lia).
  cbn [mbind result_bind].
  rewrite (py_get_neg _ 1 dl : _ -> _ -> _ -> py_get _ (-1)%Z = _) by (done || lia).
  rewrite (py_get_neg _ 2 dl2 : _ -> _ -> _ -> py_get _ (-2)%Z = _) by (done || lia).
  cbn [mbind result_bind].
  rewrite (py_set_neg _ 1 _ : _ -> _ -> py_set _ (-1)%Z _ = _)
    by (rewrite ?length_insert, ?length_app; cbn; lia).
  rewrite length_insert, length_app. cbn [length].
  do 2 f_equal. lia.
Qed.

(** The values of a horizontally staggered field. *)
Lemma stagger_xy_ok (data : field) (dim : string) (FNM FNP : weight)
    (cyc : bool) (ic : option interp_const) :
  dim ∈ xy -> data <> [] ->
  exists s, stagger data dim FNM FNP cyc ic = Ok s
    /\ length s = S (length data)
    /\ forall i x y, 0 < i -> data !! i = Some x -> data !! (i - 1) = Some y ->
         s !! i = Some (mul (num half) (add x y)).
Proof.
  intros Hdim Hne. pose proof (eqb_bottom_top_xy dim Hdim) as Hbt.
  rewrite stagger_horizontal by done.
  set (ds := fscale (num half) (fadd data (roll_up data))).
  assert (Hlen : length ds = length data).
  { unfold ds, fadd. rewrite length_fscale, length_fmap2; [done|].
    by rewrite length_roll_up. }
  assert (Hds : ds <> []).
  { apply nonempty_length. rewrite Hlen. by apply nonempty_length. }
  assert (Hval : forall i x y, 0 < i -> data !! i = Some x ->
            data !! (i - 1) = Some y -> ds !! i = Some (mul (num half) (add x y))).
  { intros i x y Hi Hx Hy. unfold ds, fadd.
    apply lookup_fscale, lookup_fmap2; [done|].
    destruct i as [|i]; [lia|]. rewrite roll_up_S.
    - by replace (S i - 1) with i in Hy by lia.
    - by eapply lookup_lt_Some. }
  destruct cyc.
  - destruct (lookup_lt_is_Some_2 (ds ++ [NaN]) 0) as [v Hv].
    { rewrite length_app. cbn. lia. }
    rewrite (post_stagger_periodic _ _ _ _ v Hbt Hds Hv).
    eexists. split; [done|]. split.
    { rewrite length_insert, length_app. cbn. lia. }
    intros i x y Hi Hx Hy.
    assert (i < length data) by (by eapply lookup_lt_Some).
    rewrite list_lookup_insert_ne by lia.
    rewrite lookup_app_l by lia. by apply Hval.
  - rewrite (post_stagger_open _ _ _ _ Hbt Hds).
    eexists. split; [done|]. split.
    { rewrite length_insert, length_app. cbn. lia. }
    intros i x y Hi Hx Hy.
    assert (i < length data) by (by eapply lookup_lt_Some).
    rewrite list_lookup_insert_ne by lia.
    rewrite lookup_app_l by lia. by apply Hval.
Qed.

(** The values of a destaggered field. *)
Lemma destagger_ok (s : field) (dim : string) :
  has_stag dim = true ->
  exists r, destagger s dim true = Ok r
    /\ length r = length s - 1
    /\ forall i x y, s !! i = Some x -> s !! S i = Some y ->
         r !! i = Some (mul (num half) (add x y)).
Proof.
  intros Hdim. unfold destagger. rewrite Hdim. cbn [negb andb].
  eexists. split; [done|]. split.
  { rewrite length_removelast', length_fscale. unfold fadd.
    rewrite length_fmap2; [done|]. by rewrite length_shift_down. }
  intros i x y Hx Hy.
  assert (S i < length s) by (by eapply lookup_lt_Some).
  rewrite lookup_removelast.
  - apply lookup_fscale, lookup_fmap2; [done|]. by rewrite shift_down_lookup.
  - rewrite length_fscale. unfold fadd. rewrite length_fmap2; [lia|].
    by rewrite length_shift_down.
Qed.

Lemma half_eq : half = (1 / (1 + 1))%Qc.
Proof. apply Qc_is_canon. reflexivity. Qed.

Lemma two_eq : two = (1 + 1)%Qc.
Proof. apply Qc_is_canon. reflexivity. Qed.

Lemma four_eq : four = ((1 + 1) * (1 + 1))%Qc.
Proof. apply Qc_is_canon. reflexivity. Qed.

Ltac qc_consts := rewrite ?half_eq, ?two_eq, ?four_eq.
Ltac qc_nonzero := repeat split; let Hz := fresh "Hz" in intro Hz; discriminate Hz.

Lemma smoothing_identity (a b c : Qc) :
  (half * (half * (b + a) + half * (c + b)) = (a + two * b + c) / four)%Qc.
Proof. qc_consts. field. qc_nonzero. Qed.

Lemma smoothing_fixpoint (a b c : Qc) :
  ((a + two * b + c) / four = b <-> a + c = two * b)%Qc.
Proof.
  qc_consts. split; intros H.
  - assert (E : (a + c = ((1 + 1) * (1 + 1)) * ((a + (1 + 1) * b + c) / ((1 + 1) * (1 + 1)))
                        - (1 + 1) * b)%Qc) by (field; qc_nonzero).
    rewrite E, H. ring.
  - assert (E : (a + (1 + 1) * b + c = (a + c) + (1 + 1) * b)%Qc) by ring.
    rewrite E, H. field. qc_nonzero.
Qed.

(** Closed facts are decided by evaluation. *)
Ltac by_compute := apply (bool_decide_unpack _); vm_compute; exact I.

(** C2, as stated, fails: on the field 0, 1, 0, 0 along x, destaggering the
    staggered field gives 1/2 at the interior point 1, where the field is 1. *)
Lemma destagger_stagger_not_inverse :
  let f := [num zero; num one; num zero; num zero] in
  (r ← destagger_stagger f "x" false; Ok (r !! 1)) = Ok (Some (num half))
  /\ (r ← destagger_stagger f "x" true; Ok (r !! 1)) = Ok (Some (num half))
  /\ f !! 1 = Some (num one)
  /\ num half <> num one.
Proof. cbv zeta. repeat split; by_compute. Qed.

(** C2 (amended): for every field without NaNs and every horizontal axis,
    destagger after stagger gives, at every interior point, the weighted
    mean (f[i-1] + 2 f[i] + f[i+1]) / 4 of the point and its two neighbours;
    the original value is reproduced exactly where f[i-1] + f[i+1] = 2 f[i]
    (the field is locally linear). *)
Theorem destagger_stagger_interior (f : list Qc) (dim : string) (cyc : bool)
    (i : nat) (a b c : Qc) :
  dim ∈ xy ->
  f !! i = Some a -> f !! (i + 1) = Some b -> f !! (i + 2) = Some c ->
  exists r, destagger_stagger (num <$> f) dim cyc = Ok r
    /\ r !! (i + 1) = Some (num ((a + two * b + c) / four)%Qc)
    /\ (r !! (i + 1) = (num <$> f) !! (i + 1) <-> (a + c = two * b)%Qc).
Proof.
  intros Hdim Ha Hb Hc. unfold destagger_stagger.
  assert (Hne : num <$> f <> []).
  { destruct f; [by rewrite lookup_nil in Ha|done]. }
  destruct (stagger_xy_ok (num <$> f) dim w_default w_default cyc None Hdim Hne)
    as (s & -> & Hlen & Hs).
  destruct (destagger_ok s (dim +:+ "_stag") (has_stag_xy dim Hdim))
    as (r & Hr & _ & Hrv).
  cbn [mbind result_bind]. exists r. split; [exact Hr|].
  assert (Ha' : (num <$> f) !! i = Some (num a)) by (by rewrite list_lookup_fmap, Ha).
  assert (Hb' : (num <$> f) !! (i + 1) = Some (num b))
    by (by rewrite list_lookup_fmap, Hb).
  assert (Hc' : (num <$> f) !! (i + 2) = Some (num c))
    by (by rewrite list_lookup_fmap, Hc).
  assert (Hval : r !! (i + 1) = Some (num ((a + two * b + c) / four)%Qc)).
  { rewrite (Hrv (i + 1) (mul (num half) (add (num b) (num a)))
                 (mul (num half) (add (num c) (num b)))).
    - cbn. unfold num. do 2 f_equal. apply smoothing_identity.
    - apply Hs; [lia|done|]. by replace (i + 1 - 1) with i by lia.
    - replace (S (i + 1)) with (i + 2) by lia.
      apply Hs; [lia|done|]. by replace (i + 2 - 1) with (i + 1) by lia. }
  split; [exact Hval|].
  rewrite Hval, Hb'. unfold num. split.
  - intros [= E]. by apply smoothing_fixpoint.
  - intros E. do 2 f_equal. by apply smoothing_fixpoint.
Qed.

Lemma destagger_stagger_interior_witness :
  exists r, destagger_stagger (num <$> [one; two; four]) "y" true = Ok r
    /\ r !! 1 = Some (num ((one + two * two + four) / four)%Qc)
    /\ (r !! 1 = (num <$> [one; two; four]) !! 1 <-> (one + four = two * two)%Qc).
Proof.
  apply (destagger_stagger_interior [one; two; four] "y" true 0 one two four).
  - by_compute.
  - reflexivity.
  - reflexivity.
  - reflexivity.
Defined.

Lemma post_stagger_periodic_ends (data_stag : field) (dim : string)
    (data : option field) (ic : option interp_const) :
  String.eqb dim "bottom_top" = false -> data_stag <> [] ->
  exists s, post_stagger data_stag dim data true ic = Ok s
    /\ s !! length data_stag = s !! 0
    /\ s !! 0 = (data_stag ++ [NaN]) !! 0.
Proof.
  intros Hdim Hne.
  destruct (lookup_lt_is_Some_2 (data_stag ++ [NaN]) 0) as [v Hv].
  { rewrite length_app. cbn. lia. }
  rewrite (post_stagger_periodic _ _ _ _ v Hdim Hne Hv).
  eexists. split; [done|].
  assert (Hn : length data_stag < length (data_stag ++ [NaN])).
  { rewrite length_app. cbn. lia. }
  rewrite list_lookup_insert_eq by exact Hn.
  destruct (decide (length data_stag = 0)) as [E|E].
  - rewrite E. rewrite list_lookup_insert_eq by (rewrite length_app; cbn; lia).
    done.
  - rewrite list_lookup_insert_ne by done. done.
Qed.

Lemma post_stagger_open_ends (data_stag : field) (dim : string)
    (data : option field) (ic : option interp_const) :
  String.eqb dim "bottom_top" = false -> data_stag <> [] ->
  exists s, post_stagger data_stag dim data false ic = Ok s
    /\ s !! 0 = Some NaN
    /\ s !! length data_stag = Some NaN.
Proof.
  intros Hdim Hne. rewrite (post_stagger_open _ _ _ _ Hdim Hne).
  eexists. split; [done|].
  assert (Hn : 0 < length (data_stag ++ [NaN])).
  { rewrite length_app. cbn. lia. }
  split; [by rewrite list_lookup_insert_eq|].
  destruct (decide (length data_stag = 0)) as [E|E].
  - rewrite E. by rewrite list_lookup_insert_eq.
  - rewrite list_lookup_insert_ne by done.
    rewrite lookup_app_r by lia. by rewrite Nat.sub_diag.
Qed.

Lemma length_stagger_xy_operand (data : field) :
  length (fscale (num half) (fadd data (roll_up data))) = length data.
Proof.
  unfold fadd. rewrite length_fscale, length_fmap2; [done|].
  by rewrite length_roll_up.
Qed.

Lemma in_list_one_sided (dim : string) :
  dim ∈ diff_one_sided_dims -> in_list dim diff_one_sided_dims = true.
Proof.
  unfold diff_one_sided_dims. rewrite !elem_of_cons, elem_of_nil.
  intros [-> | [-> | [-> | [-> | [-> | []]]]]]; reflexivity.
Qed.

Lemma diff_operand_one_sided (data : field) (dim : string) (cyc : bool) :
  dim ∈ diff_one_sided_dims -> diff_operand data dim cyc = Ok (shift_up data).
Proof. intros Hdim. unfold diff_operand. by rewrite in_list_one_sided. Qed.

Lemma diff_operand_cyclic (data : field) (dim : string) :
  in_list dim diff_one_sided_dims = false -> data <> [] ->
  diff_operand data dim true = Ok (roll_up data).
Proof. intros Hdim Hne. unfold diff_operand. rewrite Hdim. by apply roll_ok. Qed.

Lemma length_diff_shift (data : field) :
  length (fsub data (shift_up data)) = length data.
Proof. unfold fsub. rewrite length_fmap2; [done|]. by rewrite length_shift_up. Qed.

Lemma length_diff_roll (data : field) :
  length (fsub data (roll_up data)) = length data.
Proof. unfold fsub. rewrite length_fmap2; [done|]. by rewrite length_roll_up. Qed.

Lemma diff_operand_open (data : field) (dim : string) :
  diff_operand data dim false = Ok (shift_up data).
Proof. unfold diff_operand. by rewrite orb_true_r. Qed.

Lemma in_list_xy_one_sided (dim : string) :
  dim ∈ xy -> in_list dim diff_one_sided_dims = false.
Proof.
  unfold xy. rewrite !elem_of_cons, elem_of_nil.
  intros [-> | [-> | []]]; reflexivity.
Qed.

Lemma has_stag_xy_plain (dim : string) : dim ∈ xy -> has_stag dim = false.
Proof.
  unfold xy. rewrite !elem_of_cons, elem_of_nil.
  intros [-> | [-> | []]]; reflexivity.
Qed.

(** The lower boundary of a field minus its shifted copy is missing. *)
Lemma diff_shift_lower (data : field) :
  (fsub data (shift_up data) ++ [NaN]) !! 0 = Some NaN.
Proof. destruct data as [|x t]; [done|]. cbn. by destruct x. Qed.

Lemma stagger_vertical_lower (data : field) (FNM FNP : weight) :
  (fadd (weighted data FNM) (weighted (shift_up data) FNP) ++ [NaN]) !! 0
  = Some NaN.
Proof.
  destruct data as [|x t]; [by destruct FNM, FNP|].
  destruct FNM as [a|[|a f]], FNP as [b|[|b g]]; cbn; try done;
    by destruct (mul x a).
Qed.

Lemma length_weighted (a : field) (w : weight) :
  weight_covers (length a) w = true -> length (weighted a w) = length a.
Proof.
  destruct w as [c|f]; cbn; intros H.
  - by rewrite length_fmap.
  - apply Nat.eqb_eq in H. unfold fmul, fmap2. rewrite length_zip_with. lia.
Qed.

Lemma length_stagger_vertical_operand (data : field) (FNM FNP : weight) :
  weight_covers (length data) FNM = true ->
  weight_covers (length data) FNP = true ->
  length (fadd (weighted data FNM) (weighted (shift_up data) FNP)) = length data.
Proof.
  intros HM HP. unfold fadd.
  rewrite length_fmap2; rewrite !length_weighted; rewrite ?length_shift_up; done.
Qed.

Lemma lookup_snoc_last (l : field) (v : val) : (l ++ [v]) !! length l = Some v.
Proof. rewrite lookup_app_r by lia. by rewrite Nat.sub_diag. Qed.

(** C3, as stated, fails.  [diff] on the vertical axis leaves both boundary
    cells missing, and so does [stagger] when no extrapolation constants are
    passed; with constants, the top cell is extrapolated from the two
    topmost levels only: it is the same for two columns that differ in the
    third level from the top. *)
Lemma vertical_boundaries_counterexample :
  let column := [num one; num two; num four] in
  let c := InterpConst (num one) (num one) (num one) (num one) (num one) in
  diff column "bottom_top" false = Ok [NaN; num one; num two; NaN]
  /\ (s ← stagger column "bottom_top" w_default w_default false None;
      Ok (s !! 0, s !! 3)) = Ok (Some NaN, Some NaN)
  /\ (s ← stagger [num one; num two; num four; num four] "bottom_top"
            w_default w_default false (Some c);
      Ok (s !! 4)) = Ok (Some (num (four + four)%Qc))
  /\ (s ← stagger [num one; num zero; num four; num four] "bottom_top"
            w_default w_default false (Some c);
      Ok (s !! 4)) = Ok (Some (num (four + four)%Qc)).
Proof. cbv zeta. repeat split; by_compute. Qed.

(** C3 (amended): on the vertical axis [stagger] fills the bottom cell by a
    3-point extrapolation (CF1, CF2, CF3 on the three lowest levels) and the
    top cell by a 2-point extrapolation (CFN, CFN1 on the two highest levels)
    when the extrapolation constants are supplied; without constants, as
    always in [diff], both vertical boundary cells stay NaN.  The weights are
    floats or arrays aligned with the column.  On a periodic horizontal axis
    with at least one point the upper boundary point is set equal to the
    lower one; on a non-periodic horizontal axis with at least one point the
    first boundary point is NaN (and so is the last). *)
Theorem boundary_fill (data : field) :
  (forall FNM FNP cyc c d0 d1 d2 dl dl2,
      weight_covers (length data) FNM = true ->
      weight_covers (length data) FNP = true ->
      data !! 0 = Some d0 -> data !! 1 = Some d1 -> data !! 2 = Some d2 ->
      data !! (length data - 1) = Some dl ->
      data !! (length data - 2) = Some dl2 ->
      exists s, stagger data "bottom_top" FNM FNP cyc (Some c) = Ok s
        /\ s !! 0 = Some (add (add (mul (CF1 c) d0) (mul (CF2 c) d1))
                              (mul (CF3 c) d2))
        /\ s !! length data = Some (add (mul (CFN c) dl) (mul (CFN1 c) dl2)))
  /\ (forall FNM FNP cyc,
        weight_covers (length data) FNM = true ->
        weight_covers (length data) FNP = true ->
        exists s, stagger data "bottom_top" FNM FNP cyc None = Ok s
          /\ s !! 0 = Some NaN /\ s !! length data = Some NaN)
  /\ (forall cyc,
        exists s, diff data "bottom_top" cyc = Ok s
          /\ s !! 0 = Some NaN /\ s !! length data = Some NaN)
  /\ (forall dim FNM FNP ic, dim ∈ xy -> data <> [] ->
        (exists s, stagger data dim FNM FNP true ic = Ok s
           /\ s !! length data = s !! 0)
        /\ (exists s, diff data dim true = Ok s /\ s !! length data = s !! 0)
        /\ (exists s, stagger data dim FNM FNP false ic = Ok s
              /\ s !! 0 = Some NaN /\ s !! length data = Some NaN)
        /\ (exists s, diff data dim false = Ok s
              /\ s !! 0 = Some NaN /\ s !! length data = Some NaN)).
Proof.
  split; [|split; [|split]].
  - intros FNM FNP cyc c d0 d1 d2 dl dl2 HM HP H0 H1 H2 Hl Hl2.
    rewrite stagger_vertical by done.
    rewrite (post_stagger_vertical_const _ data cyc c d0 d1 d2 dl dl2) by done.
    pose proof (length_stagger_vertical_operand data FNM FNP HM HP) as Hlen.
    assert (2 < length data) by (by eapply lookup_lt_Some).
    rewrite Hlen. eexists. split; [done|].
    split.
    + rewrite list_lookup_insert_ne by lia.
      rewrite list_lookup_insert_eq; [done|]. rewrite length_app. cbn. lia.
    + rewrite list_lookup_insert_eq; [done|].
      rewrite length_insert, length_app. cbn. lia.
  - intros FNM FNP cyc HM HP. rewrite stagger_vertical by done.
    rewrite post_stagger_vertical_plain. eexists. split; [done|].
    split; [apply stagger_vertical_lower|].
    rewrite <- (length_stagger_vertical_operand data FNM FNP) at 1 by done.
    apply lookup_snoc_last.
  - intros cyc. unfold diff.
    rewrite diff_operand_one_sided by (by left). cbn [mbind result_bind].
    change (has_stag "bottom_top") with false. cbv iota.
    rewrite post_stagger_vertical_plain. eexists. split; [done|].
    split; [apply diff_shift_lower|].
    rewrite <- (length_diff_shift data) at 1.
    apply lookup_snoc_last.
  - intros dim FNM FNP ic Hdim Hne.
    pose proof (eqb_bottom_top_xy dim Hdim) as Hbt.
    pose proof (has_stag_xy_plain dim Hdim) as Hst.
    assert (Hs1 : fscale (num half) (fadd data (roll_up data)) <> []).
    { apply nonempty_length. rewrite length_stagger_xy_operand.
      by apply nonempty_length. }
    assert (Hs2 : fsub data (roll_up data) <> []).
    { apply nonempty_length. rewrite length_diff_roll. by apply nonempty_length. }
    assert (Hs3 : fsub data (shift_up data) <> []).
    { apply nonempty_length. rewrite length_diff_shift. by apply nonempty_length. }
    split; [|split; [|split]].
    + rewrite stagger_horizontal by done.
      destruct (post_stagger_periodic_ends
                  (fscale (num half) (fadd data (roll_up data))) dim (Some data) ic
                  Hbt Hs1)
        as (s & Hs & Hends & _).
      exists s. split; [done|]. by rewrite length_stagger_xy_operand in Hends.
    + unfold diff.
      rewrite diff_operand_cyclic by (done || by apply in_list_xy_one_sided).
      cbn [mbind result_bind]. rewrite Hst.
      destruct (post_stagger_periodic_ends
                  (fsub data (roll_up data)) dim None None Hbt Hs2)
        as (s & Hs & Hends & _).
      exists s. split; [done|]. by rewrite length_diff_roll in Hends.
    + rewrite stagger_horizontal by done.
      destruct (post_stagger_open_ends
                  (fscale (num half) (fadd data (roll_up data))) dim (Some data) ic
                  Hbt Hs1)
        as (s & Hs & H0 & Hn).
      exists s. split; [done|]. split; [done|].
      by rewrite length_stagger_xy_operand in Hn.
    + unfold diff. rewrite diff_operand_open. cbn [mbind result_bind]. rewrite Hst.
      destruct (post_stagger_open_ends
                  (fsub data (shift_up data)) dim None None Hbt Hs3)
        as (s & Hs & H0 & Hn).
      exists s. split; [done|]. split; [done|].
      by rewrite length_diff_shift in Hn.
Qed.

Lemma boundary_fill_witness :
  let column := [num one; num two; num four] in
  let c := InterpConst (num one) (num two) (num one) (num two) (num one) in
  exists s, stagger column "bottom_top" w_default w_default false (Some c) = Ok s
    /\ s !! 0 = Some (add (add (mul (CF1 c) (num one)) (mul (CF2 c) (num two)))
                          (mul (CF3 c) (num four)))
    /\ s !! 3 = Some (add (mul (CFN c) (num four)) (mul (CFN1 c) (num two))).
Proof.
  cbv zeta.
  apply (proj1 (boundary_fill [num one; num two; num four])
               w_default w_default false
               (InterpConst (num one) (num two) (num one) (num two) (num one))
               (num one) (num two) (num four) (num four) (num two));
    reflexivity.
Defined.

Lemma List_last_lookup {A : Type} (l : list A) (d x : A) :
  l !! (length l - 1) = Some x -> List.last l d = x.
Proof.
  induction l as [|a l IH]; [done|].
  destruct l as [|b l]; [by intros [= ->]|].
  intros H. change (List.last (a :: b :: l) d) with (List.last (b :: l) d).
  apply IH. cbn [length] in *. by replace (S (length l) - 1) with (length l) by lia.
Qed.

Lemma not_one_sided_not_vertical (dim : string) :
  in_list dim diff_one_sided_dims = false -> String.eqb dim "bottom_top" = false.
Proof.
  unfold in_list, diff_one_sided_dims. cbn [existsb].
  by destruct (String.eqb dim "bottom_top").
Qed.

Lemma not_elem_one_sided (dim : string) :
  dim ∉ diff_one_sided_dims -> in_list dim diff_one_sided_dims = false.
Proof.
  intros Hdim. apply not_true_iff_false. intros E. apply Hdim.
  unfold in_list in E. apply existsb_exists in E as (s & Hs & Heq).
  apply String.eqb_eq in Heq. subst s. by apply list_elem_of_In.
Qed.

(** [diff] from a staggered to an unstaggered axis: the first-order
    differences, whatever the boundary treatment. *)
Lemma diff_staggered (data : field) (dim : string) (cyc : bool) :
  has_stag dim = true -> data <> [] ->
  exists out, diff data dim cyc = Ok out
    /\ length out = length data - 1
    /\ forall i x y, data !! S i = Some x -> data !! i = Some y ->
         out !! i = Some (sub x y).
Proof.
  intros Hst Hne. unfold diff, diff_operand.
  destruct (in_list dim diff_one_sided_dims || negb cyc).
  - cbn [mbind result_bind]. rewrite Hst. eexists. split; [done|]. split.
    + rewrite length_tl, length_diff_shift. done.
    + intros i x y Hx Hy. rewrite lookup_tail. apply lookup_fmap2; [done|].
      rewrite shift_up_S; [done|]. by eapply lookup_lt_Some.
  - rewrite roll_ok by done. cbn [mbind result_bind]. rewrite Hst.
    eexists. split; [done|]. split.
    + rewrite length_tl, length_diff_roll. done.
    + intros i x y Hx Hy. rewrite lookup_tail. apply lookup_fmap2; [done|].
      rewrite roll_up_S; [done|]. by eapply lookup_lt_Some.
Qed.

(** [diff] from an unstaggered to a staggered axis without wrap-around: the
    backward differences between two missing boundary values. *)
Lemma diff_unstaggered_shift (data : field) (dim : string) (cyc : bool) :
  has_stag dim = false ->
  in_list dim diff_one_sided_dims = true \/ cyc = false ->
  String.eqb dim "bottom_top" = true \/ data <> [] ->
  exists out, diff data dim cyc = Ok out
    /\ length out = S (length data)
    /\ out !! 0 = Some NaN
    /\ (forall i x y, data !! S i = Some x -> data !! i = Some y ->
          out !! S i = Some (sub x y))
    /\ out !! length data = Some NaN.
Proof.
  intros Hst Hop Hne.
  assert (Hraw : forall i x y, data !! S i = Some x -> data !! i = Some y ->
            (fsub data (shift_up data) ++ [NaN]) !! S i = Some (sub x y)).
  { intros i x y Hx Hy.
    assert (S i < length data) by (by eapply lookup_lt_Some).
    rewrite lookup_app_l by (rewrite length_diff_shift; lia).
    apply lookup_fmap2; [done|]. by rewrite shift_up_S. }
  assert (Hlast : (fsub data (shift_up data) ++ [NaN]) !! length data = Some NaN).
  { rewrite <- (length_diff_shift data) at 1. apply lookup_snoc_last. }
  assert (Hlen : length (fsub data (shift_up data) ++ [NaN]) = S (length data)).
  { rewrite length_app, length_diff_shift. cbn. lia. }
  unfold diff.
  assert (Hs : diff_operand data dim cyc = Ok (shift_up data)).
  { unfold diff_operand. destruct Hop as [-> | ->]; [done|]. by rewrite orb_true_r. }
  rewrite Hs. cbn [mbind result_bind]. rewrite Hst.
  destruct (String.eqb dim "bottom_top") eqn:Hbt.
  { apply String.eqb_eq in Hbt as ->. rewrite post_stagger_vertical_plain.
    eexists. split; [done|]. split; [done|]. split; [apply diff_shift_lower|].
    by split. }
  destruct Hne as [|Hne]; [done|].
  assert (Hs3 : fsub data (shift_up data) <> []).
  { apply nonempty_length. rewrite length_diff_shift. by apply nonempty_length. }
  assert (Hout : post_stagger (fsub data (shift_up data)) dim None cyc None
                 = Ok (fsub data (shift_up data) ++ [NaN])).
  { destruct cyc.
    - rewrite (post_stagger_periodic _ _ _ _ NaN Hbt Hs3 (diff_shift_lower data)).
      f_equal. apply list_insert_id. rewrite length_diff_shift. exact Hlast.
    - rewrite (post_stagger_open _ _ _ _ Hbt Hs3).
      f_equal. apply list_insert_id, diff_shift_lower. }
  rewrite Hout. eexists. split; [done|]. split; [done|].
  split; [apply diff_shift_lower|]. by split.
Qed.

(** [diff] from an unstaggered to a staggered axis with wrap-around: the
    backward differences, the first one taken against the last sample, and
    the upper boundary point equal to the lower one. *)
Lemma diff_unstaggered_roll (data : field) (dim : string) :
  has_stag dim = false -> in_list dim diff_one_sided_dims = false -> data <> [] ->
  exists out, diff data dim true = Ok out
    /\ length out = S (length data)
    /\ (forall i x y, data !! S i = Some x -> data !! i = Some y ->
          out !! S i = Some (sub x y))
    /\ (forall x0 xl, data !! 0 = Some x0 -> data !! (length data - 1) = Some xl ->
          out !! 0 = Some (sub x0 xl) /\ out !! length data = Some (sub x0 xl)).
Proof.
  intros Hst Hdim Hne.
  pose proof (not_one_sided_not_vertical dim Hdim) as Hbt.
  assert (Hs2 : fsub data (roll_up data) <> []).
  { apply nonempty_length. rewrite length_diff_roll. by apply nonempty_length. }
  unfold diff. rewrite diff_operand_cyclic by done. cbn [mbind result_bind].
  rewrite Hst.
  destruct (lookup_lt_is_Some_2 (fsub data (roll_up data) ++ [NaN]) 0) as [v Hv].
  { rewrite length_app. cbn. lia. }
  rewrite (post_stagger_periodic _ _ _ _ v Hbt Hs2 Hv).
  eexists. split; [done|]. split; [|split].
  - rewrite length_insert, length_app, length_diff_roll. cbn. lia.
  - intros i x y Hx Hy.
    assert (S i < length data) by (by eapply lookup_lt_Some).
    rewrite length_diff_roll.
    rewrite list_lookup_insert_ne by lia.
    rewrite lookup_app_l by (rewrite length_diff_roll; lia).
    apply lookup_fmap2; [done|]. by rewrite roll_up_S.
  - intros x0 xl Hx0 Hxl.
    assert (Hfirst : (fsub data (roll_up data) ++ [NaN]) !! 0 = Some (sub x0 xl)).
    { destruct data as [|d0 data']; [done|].
      cbn in Hx0. injection Hx0 as ->.
      cbn [fsub fmap2 roll_up zip_with app lookup list_lookup]. do 2 f_equal.
      by rewrite (List_last_lookup (x0 :: data') x0 xl Hxl). }
    rewrite Hfirst in Hv. injection Hv as <-.
    rewrite length_diff_roll. split.
    + destruct (decide (length data = 0)) as [E|E].
      * rewrite E. apply list_lookup_insert_eq. rewrite length_app. cbn. lia.
      * by rewrite list_lookup_insert_ne.
    + apply list_lookup_insert_eq. rewrite length_app, length_diff_roll. cbn. lia.
Qed.

(** On the axes of [diff_one_sided_dims] the two settings of [cyclic] give
    the same result. *)
Lemma diff_one_sided_cyclic_irrelevant (data : field) (dim : string) (cyc : bool) :
  dim ∈ diff_one_sided_dims -> diff data dim cyc = diff data dim false.
Proof.
  intros Hdim. destruct cyc; [|done].
  unfold diff. rewrite diff_operand_one_sided, diff_operand_open by done.
  cbn [mbind result_bind].
  destruct (has_stag dim); [done|].
  destruct (String.eqb dim "bottom_top") eqn:Hbt.
  { unfold post_stagger. by rewrite Hbt. }
  destruct (decide (fsub data (shift_up data) = [])) as [E|E].
  { unfold post_stagger. rewrite Hbt, E. done. }
  pose proof (diff_shift_lower data) as H0.
  rewrite (post_stagger_periodic _ _ _ _ NaN Hbt E H0).
  rewrite (post_stagger_open _ _ _ _ Hbt E).
  f_equal.
  rewrite (list_insert_id _ 0 NaN H0).
  apply list_insert_id, lookup_snoc_last.
Qed.

(** C7: on a vertical axis (bottom_top, z and their staggered variants) and
    on the Time axis, [diff] of a field with at least one sample is the
    one-sided backward difference, whatever [cyclic] is.  On the unstaggered
    axes the result has the backward differences data[i+1] - data[i] between
    a NaN at the lower boundary and a NaN at the upper boundary; on the
    staggered axes it has the same differences without boundary values (the
    NaN is the value [diff] drops).  On every other unstaggered axis the
    difference wraps around exactly when cyclic=True: the lower boundary
    value is then data[0] - data[-1], and NaN otherwise. *)
Theorem diff_one_sided (data : field) (dim : string) (cyc : bool) :
  dim ∈ diff_one_sided_dims -> data <> [] ->
  diff data dim cyc = diff data dim false
  /\ (has_stag dim = false ->
        exists out, diff data dim cyc = Ok out
          /\ length out = S (length data)
          /\ out !! 0 = Some NaN
          /\ (forall i x y, data !! S i = Some x -> data !! i = Some y ->
                out !! S i = Some (sub x y))
          /\ out !! length data = Some NaN)
  /\ (has_stag dim = true ->
        exists out, diff data dim cyc = Ok out
          /\ length out = length data - 1
          /\ forall i x y, data !! S i = Some x -> data !! i = Some y ->
               out !! i = Some (sub x y))
  /\ (forall dim', dim' ∉ diff_one_sided_dims -> has_stag dim' = false ->
        (exists out, diff data dim' true = Ok out
           /\ forall x0 xl, data !! 0 = Some x0 ->
                data !! (length data - 1) = Some xl ->
                out !! 0 = Some (sub x0 xl))
        /\ (exists out, diff data dim' false = Ok out /\ out !! 0 = Some NaN)).
Proof.
  intros Hdim Hne. split; [by apply diff_one_sided_cyclic_irrelevant|].
  split; [|split].
  - intros Hst. apply diff_unstaggered_shift; [done| |by right].
    left. by apply in_list_one_sided.
  - intros Hst. by apply diff_staggered.
  - intros dim' Hdim' Hst. apply not_elem_one_sided in Hdim'. split.
    + destruct (diff_unstaggered_roll data dim' Hst Hdim' Hne)
        as (out & Hout & _ & _ & Hwrap).
      exists out. split; [done|]. intros x0 xl Hx0 Hxl.
      by destruct (Hwrap x0 xl Hx0 Hxl).
    + destruct (diff_unstaggered_shift data dim' false Hst) as (out & Hout & _ & H0 & _);
        [by right|by right|].
      by exists out.
Qed.

Lemma diff_one_sided_witness :
  let data := [num one; num two; num four] in
  diff data "Time" true = diff data "Time" false
  /\ exists out, diff data "z" true = Ok out
       /\ out !! 0 = Some NaN /\ out !! 1 = Some (sub (num two) (num one)).
Proof.
  cbv zeta.
  destruct (diff_one_sided [num one; num two; num four] "z" true
              ltac:(by_compute) ltac:(done)) as (_ & Hu & _).
  destruct (Hu eq_refl) as (out & Hout & _ & H0 & Hv & _).
  split.
  - exact (proj1 (diff_one_sided [num one; num two; num four] "Time" true
                    ltac:(by_compute) ltac:(done))).
  - exists out. split; [exact Hout|]. split; [exact H0|].
    by apply (Hv 0).
Defined.

(** ** The drivers *)

Lemma bindM_eq {A B : Type} (m : M A) (k : A -> M B) (w : world) :
  (m ≫= k) w = match m w with
               | (Ok a, w') => k a w'
               | (Raise e, w') => (Raise e, w')
               end.
Proof. reflexivity. Qed.

Lemma extends_refl (P : event -> Prop) (w : world) : extends P w w.
Proof. exists []. by rewrite app_nil_r. Qed.

Lemma extends_trans (P : event -> Prop) (w1 w2 w3 : world) :
  extends P w1 w2 -> extends P w2 w3 -> extends P w1 w3.
Proof.
  intros (e1 & H1 & F1) (e2 & H2 & F2). exists (e1 ++ e2). split.
  - by rewrite H2, H1, app_assoc.
  - by apply Forall_app.
Qed.

Lemma extends_weaken (P Q : event -> Prop) (w w' : world) :
  (forall e, P e -> Q e) -> extends P w w' -> extends Q w w'.
Proof.
  intros HPQ (evs & H & F). exists evs. split; [done|].
  eapply Forall_impl; eauto.
Qed.

Section Emits.
Context (P : event -> Prop).

Lemma emits_ret {A : Type} (a : A) : emits P (mret a : M A).
Proof. intros w. apply extends_refl. Qed.

Lemma emits_retM {A : Type} (a : A) : emits P (retM a).
Proof. intros w. apply extends_refl. Qed.

Lemma emits_raise {A : Type} (e : exn) : emits P (raiseM e : M A).
Proof. intros w. apply extends_refl. Qed.

Lemma emits_lift {A : Type} (r : result A) : emits P (liftM r).
Proof. intros w. apply extends_refl. Qed.

Lemma emits_file_exists (path : string) : emits P (file_exists path).
Proof. intros w. apply extends_refl. Qed.

Lemma emits_emit (e : event) : P e -> emits P (emit e).
Proof. intros He w. exists [e]. split; [done|]. by constructor. Qed.

Lemma emits_save_file (path : string) : P (EvSave path) -> emits P (save_file path).
Proof. intros He w. exists [EvSave path]. split; [done|]. by constructor. Qed.

Lemma emits_remove_file (path : string) :
  P (EvRemove path) -> emits P (remove_file path).
Proof. intros He w. exists [EvRemove path]. split; [done|]. by constructor. Qed.

Lemma emits_bind {A B : Type} (m : M A) (k : A -> M B) :
  emits P m -> (forall a, emits P (k a)) -> emits P (m ≫= k).
Proof.
  intros Hm Hk w. rewrite bindM_eq. specialize (Hm w).
  destruct (m w) as [[a|e] w']; cbn [snd] in *; [|done].
  eapply extends_trans; [exact Hm|]. apply Hk.
Qed.

Lemma emits_for_each {A : Type} (l : list A) (body : A -> M unit) :
  (forall a, emits P (body a)) -> emits P (for_each l body).
Proof.
  intros Hb. induction l as [|a l IH]; cbn [for_each].
  - apply emits_ret.
  - apply emits_bind; [apply Hb | intros _; apply IH].
Qed.

End Emits.

(** The settings dictionary of a budget method has the four settings. *)
Lemma get_budget_method_keys (budget_method name : string) (c : gmap string bool) :
  get_budget_method budget_method = Ok (c, name) ->
  forall k, k ∈ budget_settings -> is_Some (c !! k).
Proof.
  unfold get_budget_method.
  destruct (if String.eqb budget_method "" then _ else _) as [bm l] eqn:E.
  destruct (0 <? length _)%nat; [done|].
  intros [= <- _] k. unfold budget_settings. cbn [foldl].
  rewrite !elem_of_cons, elem_of_nil.
  intros [-> | [-> | [-> | [-> | []]]]]; by simplify_map_eq.
Qed.

(** The events of the loops of [calc_tendencies_core]. *)
Lemma emits_process_method (P : event -> Prop) (dat : model_output) (var : string)
    (cyclic : gmap string bool) (m : string) :
  (forall e, event_cyclic e = Some cyclic -> P e) ->
  emits P (process_method dat var cyclic m).
Proof.
  intros HP. unfold process_method.
  apply emits_bind; [apply emits_lift|]. intros [c name].
  apply emits_bind; [apply emits_lift|]. intros dz.
  apply emits_bind; [by apply emits_emit, HP|]. intros _.
  apply emits_bind; [by apply emits_emit, HP|]. intros _.
  apply emits_bind; [apply emits_lift|]. intros force.
  apply emits_bind; [apply emits_lift|]. intros _.
  apply emits_bind; [apply emits_lift|]. intros cart.
  apply emits_bind; [|intros _; apply emits_retM].
  destruct cart; [by apply emits_emit, HP | apply emits_retM].
Qed.

Lemma emits_load_postproc (P : event -> Prop) (var avg : string) (cartesian : bool) :
  P (EvLoadPostproc var) -> emits P (load_postproc var avg cartesian).
Proof.
  intros HP. unfold load_postproc.
  apply emits_bind; [by apply emits_emit|]. intros _.
  apply emits_for_each. intros f.
  apply emits_bind; [apply emits_file_exists|]. intros ex.
  destruct ex; [apply emits_retM|apply emits_raise].
Qed.

Lemma emits_save_tiles (P : event -> Prop) (path : string) (task : option nat) :
  (forall e, event_cyclic e = None -> P e) -> emits P (save_tiles path task).
Proof.
  intros HP. unfold save_tiles.
  apply emits_bind; [apply emits_file_exists|]. intros ex.
  apply emits_bind; [by apply emits_save_file, HP|]. intros _.
  apply emits_bind.
  - destruct (negb ex); [|apply emits_retM].
    apply emits_bind.
    + destruct (bool_decide (task = Some 0)); [|apply emits_retM].
      apply emits_bind; [apply emits_file_exists|]. intros tex.
      apply emits_bind; [|intros _; by apply emits_save_file, HP].
      destruct tex; [by apply emits_remove_file, HP|apply emits_retM].
    + intros _. apply emits_bind; [apply emits_file_exists|]. intros tex.
      destruct tex; [apply emits_retM|apply emits_raise].
  - intros _. destruct (bool_decide (task = Some 0)); [|apply emits_retM].
    destruct (negb ex); [by apply emits_remove_file, HP|apply emits_raise].
Qed.

Lemma emits_process_methods (P : event -> Prop) (dat : model_output) (var : string)
    (cyclic : gmap string bool) (ms : list string) (done : list (gmap string bool)) :
  (forall e, event_cyclic e = Some cyclic -> P e) ->
  emits P (process_methods dat var cyclic ms done).
Proof.
  intros HP. revert done. induction ms as [|m ms IH]; intros done; cbn [process_methods].
  - apply emits_retM.
  - apply emits_bind; [by apply emits_process_method|]. intros c. apply IH.
Qed.

Lemma emits_process_variable (P : event -> Prop) (dat : model_output) (o : options)
    (tile : option (gmap string slice)) (task : option nat)
    (cyclic : gmap string bool)
    (avg : string) (cartesian : bool) (var : string) :
  (forall e, event_cyclic e = Some cyclic -> P e) ->
  (forall e, event_cyclic e = None -> P e) ->
  emits P (process_variable dat o tile task cyclic avg cartesian var).
Proof.
  intros HP HQ. unfold process_variable.
  apply emits_bind; [intros w; apply extends_refl|]. intros complete.
  destruct (skip_exist o && complete).
  - apply emits_bind; [by apply emits_emit, HQ|]. intros _.
    apply emits_bind; [by apply emits_load_postproc, HQ|]. intros _. apply emits_retM.
  - apply emits_bind; [by apply emits_emit, HP|]. intros _.
    apply emits_bind; [by apply emits_process_methods|]. intros [|c cs].
    + apply emits_raise.
    + apply emits_bind; [by apply emits_emit, HP|]. intros _.
      apply emits_bind; [|intros _; apply emits_retM].
      destruct (save_output o); [|apply emits_retM].
      apply emits_for_each. intros dn.
      destruct tile; [by apply emits_save_tiles|by apply emits_save_file, HQ].
Qed.

Lemma emits_process_variables (P : event -> Prop) (dat : model_output) (o : options)
    (tile : option (gmap string slice)) (task : option nat)
    (cyclic : gmap string bool)
    (avg : string) (cartesian : bool) (variables : list string)
    (acc : list (string * bool)) :
  (forall e, event_cyclic e = Some cyclic -> P e) ->
  (forall e, event_cyclic e = None -> P e) ->
  emits P (process_variables dat o tile task cyclic avg cartesian variables acc).
Proof.
  intros HP HQ. revert acc.
  induction variables as [|var vs IH]; intros acc; cbn [process_variables].
  - apply emits_retM.
  - apply emits_bind; [by apply emits_process_variable|]. intros c. apply IH.
Qed.

Lemma emits_calc_tendencies_core (P : event -> Prop) (dat : model_output)
    (variables : list string) (o : options) (tile : option (gmap string slice))
    (task : option nat) :
  (forall e, event_cyclic e = Some (core_cyclic dat tile) -> P e) ->
  (forall e, event_cyclic e = None -> P e) ->
  emits P (calc_tendencies_core dat variables o tile task).
Proof.
  intros HP HQ. unfold calc_tendencies_core.
  apply emits_bind; [by apply emits_emit, HQ|]. intros _.
  apply emits_bind; [apply emits_lift|]. intros _.
  apply emits_bind; [apply emits_lift|]. intros avg.
  apply emits_bind; [by apply emits_emit, HP|]. intros _.
  apply emits_bind; [by apply emits_process_variables|]. intros l.
  destruct tile; apply emits_retM.
Qed.

Lemma core_cyclic_lookup (dat : model_output) (tile : gmap string slice) (d : string) :
  core_cyclic dat (Some tile) !! d
  = (fun v => v && bool_decide (tile !! d = None)) <$> core_cyclic dat None !! d.
Proof.
  unfold core_cyclic at 1. rewrite map_lookup_imap.
  change (<["bottom_top":=false]> _) with (core_cyclic dat None).
  by destruct (core_cyclic dat None !! d).
Qed.

(** C9: when a tile is processed, the periodicity flag of every dimension of
    the tile mapping is False in the dictionary [cyclic], whatever the
    periodicity of the domain is; the flags of the other dimensions are those
    of the domain; and every kernel of the per-tile computation is called
    with that dictionary. *)
Theorem tile_disables_periodic (dat : model_output) (variables : list string)
    (o : options) (tile : gmap string slice) (task : option nat) (w : world) :
  (forall d, is_Some (tile !! d) -> core_cyclic dat (Some tile) !! d <> Some true)
  /\ (forall d, d ∈ ["x"; "y"; "bottom_top"] -> is_Some (tile !! d) ->
        core_cyclic dat (Some tile) !! d = Some false)
  /\ (forall d, tile !! d = None ->
        core_cyclic dat (Some tile) !! d = core_cyclic dat None !! d)
  /\ extends (fun e => forall c, event_cyclic e = Some c ->
                         c = core_cyclic dat (Some tile))
       w (calc_tendencies_core dat variables o (Some tile) task w).2.
Proof.
  split; [|split; [|split]].
  - intros d [s Hs]. rewrite core_cyclic_lookup, Hs.
    rewrite bool_decide_eq_false_2 by done.
    destruct (core_cyclic dat None !! d) as [v|]; cbn; [|done].
    by rewrite andb_false_r.
  - intros d Hd [s Hs]. rewrite core_cyclic_lookup, Hs.
    rewrite bool_decide_eq_false_2 by done.
    revert Hd. rewrite !elem_of_cons, elem_of_nil.
    intros [-> | [-> | [-> | []]]]; unfold core_cyclic; cbn [foldl xy];
      simplify_map_eq; cbn; rewrite ?andb_false_r; done.
  - intros d Hd. rewrite core_cyclic_lookup, Hd.
    rewrite bool_decide_eq_true_2 by done.
    destruct (core_cyclic dat None !! d) as [v|]; cbn; [|done].
    by rewrite andb_true_r.
  - apply emits_calc_tendencies_core.
    + intros e He c Hc. congruence.
    + intros e He c Hc. congruence.
Qed.

Lemma tile_disables_periodic_witness :
  core_cyclic (ModelOutput true true ∅ false false [])
    (Some {[ "x" := Slice None (Some 5%Z) ]}) !! "x" = Some false.
Proof.
  apply (proj1 (proj2 (tile_disables_periodic (ModelOutput true true ∅ false false []) []
                          default_options {[ "x" := Slice None (Some 5%Z) ]} (Some 0)
                          {| files := ∅; trace := [] |}))).
  - by_compute.
  - by_compute.
Defined.

Lemma forallb_bind {A B : Type} (f : B -> bool) (k : A -> list B) (l : list A) :
  forallb f (l ≫= k) = forallb (fun a => forallb f (k a)) l.
Proof.
  induction l as [|a l IH]; [done|].
  cbn. rewrite forallb_app. by rewrite <- IH.
Qed.

Lemma forallb_ext {A : Type} (f g : A -> bool) (l : list A) :
  (forall a, f a = g a) -> forallb f l = forallb g l.
Proof. intros H. induction l as [|a l IH]; [done|]. cbn. by rewrite H, IH. Qed.

Lemma forallb_swap {A B : Type} (f : A -> B -> bool) (la : list A) (lb : list B) :
  forallb (fun a => forallb (f a) lb) la = forallb (fun b => forallb (fun a => f a b) la) lb.
Proof.
  apply eq_true_iff_eq. rewrite !forallb_forall. split.
  - intros H b Hb. apply forallb_forall. intros a Ha.
    specialize (H a Ha). rewrite forallb_forall in H. by apply H.
  - intros H a Ha. apply forallb_forall. intros b Hb.
    specialize (H b Hb). rewrite forallb_forall in H. by apply H.
Qed.

(** The files looked for by [calc_tendencies] are those of [all_stored]. *)
Lemma all_stored_pairs (w : world) (avg : string) (cartesian : bool)
    (variables : list string) :
  forallb (fun p : string * string => bool_decide (fpath p.2 p.1 avg ∈ files w))
          (outfile ← expected_outfiles cartesian; var ← variables; [(outfile, var)])
  = all_stored w avg cartesian variables.
Proof.
  rewrite forallb_bind. unfold all_stored, stored.
  rewrite <- forallb_swap. apply forallb_ext. intros outfile.
  rewrite forallb_bind. apply forallb_ext. intros var. cbn. by rewrite andb_true_r.
Qed.

Lemma check_existing_keep (env : mpi) (o : options) (avg : string)
    (paths : list (string * string)) (skip : bool) (w : world) :
  skip_exist o = true ->
  check_existing env o avg paths skip w
  = (Ok (skip && forallb (fun p : string * string =>
                            bool_decide (fpath p.2 p.1 avg ∈ files w)) paths), w).
Proof.
  intros Hskip. revert skip.
  induction paths as [|[outfile var] paths IH]; intros skip; cbn [check_existing forallb].
  - by rewrite andb_true_r.
  - rewrite bindM_eq. unfold file_exists at 1. cbn [fst snd].
    destruct (bool_decide (fpath var outfile avg ∈ files w)).
    + rewrite Hskip. cbn [negb andb]. rewrite bindM_eq. cbn. apply IH.
    + rewrite IH. by rewrite andb_false_r.
Qed.

Lemma check_existing_remove (env : mpi) (o : options) (avg : string)
    (paths : list (string * string)) (w : world) :
  exists w', check_existing env o avg paths false w = (Ok false, w')
    /\ extends (fun e => is_computation e = false) w w'.
Proof.
  revert w. induction paths as [|[outfile var] paths IH]; intros w; cbn [check_existing].
  - exists w. split; [done|]. apply extends_refl.
  - rewrite bindM_eq. unfold file_exists at 1.
    destruct (bool_decide (fpath var outfile avg ∈ files w)); [|apply IH].
    rewrite bindM_eq.
    destruct (negb (skip_exist o) && (rank env =? 0)%nat).
    + unfold remove_file at 1.
      destruct (IH {| files := files w ∖ {[fpath var outfile avg]};
                      trace := trace w ++ [EvRemove (fpath var outfile avg)] |})
        as (w' & Hw' & Hext).
      exists w'. split; [done|].
      eapply extends_trans; [|exact Hext].
      exists [EvRemove (fpath var outfile avg)]. split; [done|]. by constructor.
    + cbn. apply IH.
Qed.

Lemma stored_files (w w' : world) (avg : string) (cartesian : bool) (var : string) :
  files w' = files w -> stored w' avg cartesian var = stored w avg cartesian var.
Proof. intros H. unfold stored. by rewrite H. Qed.

Lemma extends_files_same (P : event -> Prop) (w : world) (evs : list event) :
  Forall P evs -> extends P w {| files := files w; trace := trace w ++ evs |}.
Proof. intros H. by exists evs. Qed.

(** ** Loading stored output *)

Lemma load_files_ok (var avg : string) (l : list string) (w : world) :
  forallb (fun f => bool_decide (fpath var f avg ∈ files w)) l = true ->
  for_each l (fun f =>
    ex ← file_exists (fpath var f avg);
    if (ex : bool) then retM tt else raiseM (FileNotFoundError (fpath var f avg))) w
  = (Ok tt, w).
Proof.
  induction l as [|f l IH]; [done|]. cbn [forallb for_each].
  intros [Hf Hl]%andb_true_iff. rewrite bindM_eq, bindM_eq.
  unfold file_exists at 1. rewrite Hf. cbn. by apply IH.
Qed.

Lemma load_postproc_ok (var avg : string) (cartesian : bool) (w : world) :
  stored w avg cartesian var = true ->
  load_postproc var avg cartesian w
  = (Ok tt, {| files := files w; trace := trace w ++ [EvLoadPostproc var] |}).
Proof.
  intros H. unfold load_postproc. rewrite bindM_eq. unfold emit at 1.
  by rewrite load_files_ok.
Qed.

Lemma load_variables_ok (variables : list string) (avg : string) (cartesian : bool)
    (w : world) :
  all_stored w avg cartesian variables = true ->
  for_each variables (fun var => load_postproc var avg cartesian) w
  = (Ok tt, {| files := files w;
               trace := trace w ++ (EvLoadPostproc <$> variables) |}).
Proof.
  revert w. induction variables as [|var vs IH]; intros w; cbn [for_each].
  - intros _. unfold retM. rewrite app_nil_r. by destruct w.
  - unfold all_stored. cbn [forallb]. intros [Hv Hvs]%andb_true_iff.
    rewrite bindM_eq, load_postproc_ok by done.
    rewrite IH by (unfold all_stored; exact Hvs).
    cbn [files trace fmap list_fmap]. by rewrite <- app_assoc.
Qed.

(** ** One budget method *)

Lemma get_budget_method_name (budget_method name : string) (c : gmap string bool) :
  get_budget_method budget_method = Ok (c, name) ->
  name = if String.eqb budget_method "" then "native" else budget_method.
Proof.
  unfold get_budget_method. destruct (String.eqb budget_method "");
    destruct (0 <? length _)%nat; try done; by intros [= _ <-].
Qed.

Lemma get_budget_method_name_inj (m1 m2 name : string) (c1 c2 : gmap string bool) :
  get_budget_method m1 = Ok (c1, name) -> get_budget_method m2 = Ok (c2, name) ->
  m1 = m2.
Proof.
  intros H1 H2.
  pose proof (get_budget_method_name _ _ _ H1) as N1.
  pose proof (get_budget_method_name _ _ _ H2) as N2.
  destruct (String.eqb_spec m1 ""), (String.eqb_spec m2 ""); subst; done.
Qed.

Lemma get_budget_method_error (budget_method : string) (e : exn) :
  get_budget_method budget_method = Raise e -> exists msg, e = ValueError msg.
Proof.
  unfold get_budget_method.
  destruct (if String.eqb budget_method "" then _ else _) as [bm l].
  destruct (0 <? length _)%nat; [|done]. intros H. injection H as <-. by eexists.
Qed.

Lemma check_dz_out_cases (c : gmap string bool) (bx bz cart : bool) :
  c !! "dz_out_x" = Some bx -> c !! "dz_out_z" = Some bz ->
  c !! "cartesian" = Some cart ->
  check_dz_out c
  = if bx || bz then
      if negb cart then
        Raise (ValueError "dz_out can only be used for Cartesian calculations!")
      else if bx && bz then
        Raise (ValueError "dz_out_x and dz_out_z cannot be used at the same time!")
      else Ok true
    else Ok false.
Proof.
  intros Hx Hz Hcart. unfold check_dz_out, setting.
  rewrite Hx, Hz, Hcart. cbn [mbind result_bind]. by destruct (bx || bz).
Qed.

Lemma check_dz_out_error (c : gmap string bool) (name bm : string) (e : exn) :
  get_budget_method bm = Ok (c, name) ->
  check_dz_out c = Raise e -> exists msg, e = ValueError msg.
Proof.
  intros Hbm. pose proof (get_budget_method_keys _ _ _ Hbm) as Hkeys.
  destruct (Hkeys "cartesian") as [cart Hcart]; [by_compute|].
  destruct (Hkeys "dz_out_x") as [bx Hx]; [by_compute|].
  destruct (Hkeys "dz_out_z") as [bz Hz]; [by_compute|].
  rewrite (check_dz_out_cases c bx bz cart) by done.
  destruct bx, bz, cart; cbn; intros [= <-]; by eexists.
Qed.

Lemma check_dz_out_bad (c : gmap string bool) (name bm : string) :
  get_budget_method bm = Ok (c, name) -> bad_dz_out c ->
  exists msg, check_dz_out c = Raise (ValueError msg).
Proof.
  intros Hbm Hbad. pose proof (get_budget_method_keys _ _ _ Hbm) as Hkeys.
  destruct (Hkeys "cartesian") as [cart Hcart]; [by_compute|].
  destruct (Hkeys "dz_out_x") as [bx Hx]; [by_compute|].
  destruct (Hkeys "dz_out_z") as [bz Hz]; [by_compute|].
  rewrite (check_dz_out_cases c bx bz cart) by done.
  destruct Hbad as [[Hx' Hz'] | [Hxz Hcart']].
  - assert (bx = true) as -> by congruence. assert (bz = true) as -> by congruence.
    destruct cart; cbn; by eexists.
  - assert (cart = false) as -> by congruence.
    destruct Hxz as [Hx' | Hz'].
    + assert (bx = true) as -> by congruence. cbn. by eexists.
    + assert (bz = true) as -> by congruence. rewrite orb_true_r. cbn. by eexists.
Qed.

Lemma adv_tend_check_error (dat : model_output) (VAR : string) (force : bool)
    (e : exn) :
  adv_tend_check dat VAR force = Raise e ->
  (exists msg, e = ValueError msg) \/ (exists key, e = KeyError key).
Proof.
  unfold adv_tend_check. destruct force.
  - destruct (List.find _ _) as [f|].
    { intros [= <-]. right. by eexists. }
    destruct (String.eqb VAR "T" && _).
    { intros [= <-]. left. by eexists. }
    cbn [mbind result_bind]. destruct (negb _); [|done].
    intros [= <-]. left. by eexists.
  - cbn [mbind result_bind]. destruct (negb _); [|done].
    intros [= <-]. left. by eexists.
Qed.

(** What processing one budget method does, case by case. *)
Lemma process_method_cases (dat : model_output) (var : string)
    (cyclic : gmap string bool) (m : string) (w : world) :
  match get_budget_method m with
  | Raise e => process_method dat var cyclic m w = (Raise e, w)
  | Ok (c, name) =>
      match check_dz_out c with
      | Raise e => process_method dat var cyclic m w = (Raise e, w)
      | Ok dz_out =>
          exists force cart : bool,
            c !! "force_2nd_adv" = Some force /\ c !! "cartesian" = Some cart
            /\ let called := [EvTotalTend var name dz_out cyclic;
                              EvAdvTend var name c cyclic] in
               match adv_tend_check dat (PyStr.upper var) force with
               | Raise e =>
                   process_method dat var cyclic m w
                   = (Raise e, {| files := files w; trace := trace w ++ called |})
               | Ok _ =>
                   process_method dat var cyclic m w
                   = (Ok c, {| files := files w;
                               trace := trace w ++ called
                                 ++ (if cart then [EvCartCorr var name dz_out cyclic]
                                     else []) |})
               end
      end
  end.
Proof.
  assert (Hstart : forall c name dz_out force,
    get_budget_method m = Ok (c, name) -> check_dz_out c = Ok dz_out ->
    c !! "force_2nd_adv" = Some force ->
    process_method dat var cyclic m w
    = match adv_tend_check dat (PyStr.upper var) force with
      | Ok _ =>
          (cartesian ← liftM (setting c "cartesian");
           (if (cartesian : bool) then emit (EvCartCorr var name dz_out cyclic)
            else retM tt) ;;
           retM c)
            {| files := files w;
               trace := trace w ++ [EvTotalTend var name dz_out cyclic;
                                    EvAdvTend var name c cyclic] |}
      | Raise e =>
          (Raise e, {| files := files w;
                       trace := trace w ++ [EvTotalTend var name dz_out cyclic;
                                            EvAdvTend var name c cyclic] |})
      end).
  { intros c name dz_out force Hbm Hdz Hforce.
    unfold process_method. rewrite bindM_eq. unfold liftM at 1. rewrite Hbm.
    rewrite bindM_eq. unfold liftM at 1. rewrite Hdz.
    rewrite !bindM_eq. unfold emit at 1. rewrite !bindM_eq. unfold emit at 1.
    rewrite !bindM_eq. unfold liftM at 1, setting at 1. rewrite Hforce.
    cbn [files trace]. rewrite <- app_assoc. cbn [app].
    by destruct (adv_tend_check dat (PyStr.upper var) force) as [[]|e]. }
  destruct (get_budget_method m) as [[c name]|e] eqn:Hbm.
  2:{ unfold process_method. rewrite bindM_eq. unfold liftM at 1. by rewrite Hbm. }
  pose proof (get_budget_method_keys _ _ _ Hbm) as Hkeys.
  destruct (Hkeys "cartesian") as [cart Hcart]; [by_compute|].
  destruct (Hkeys "force_2nd_adv") as [force Hforce]; [by_compute|].
  destruct (check_dz_out c) as [dz_out|e] eqn:Hdz.
  2:{ unfold process_method. rewrite bindM_eq. unfold liftM at 1. rewrite Hbm.
      rewrite bindM_eq. unfold liftM at 1. by rewrite Hdz. }
  exists force, cart. split; [done|]. split; [done|]. cbv zeta.
  rewrite (Hstart c name dz_out force) by done.
  destruct (adv_tend_check dat (PyStr.upper var) force) as [[]|e]; [|done].
  rewrite bindM_eq. unfold liftM at 1, setting at 1. rewrite Hcart.
  destruct cart.
  - rewrite bindM_eq. unfold emit at 1, retM. cbn [files trace app].
    by rewrite <- app_assoc.
  - rewrite bindM_eq. unfold retM. cbn [app]. reflexivity.
Qed.

(** Processing a method fails or succeeds without touching a file, and the
    kernels it calls are called for this method. *)
Lemma process_method_events (dat : model_output) (var : string)
    (cyclic : gmap string bool) (m : string) (w : world) :
  let r := process_method dat var cyclic m w in
  files r.2 = files w
  /\ (forall e, r.1 = Raise e ->
        (exists msg, e = ValueError msg) \/ (exists key, e = KeyError key))
  /\ (r.2 = w
      \/ exists c name, get_budget_method m = Ok (c, name)
           /\ is_Some (match check_dz_out c with Ok b => Some b | Raise _ => None end)
           /\ extends (fun ev => event_method ev = Some name) w r.2).
Proof.
  cbv zeta. pose proof (process_method_cases dat var cyclic m w) as H.
  destruct (get_budget_method m) as [[c name]|e] eqn:Hbm.
  2:{ rewrite H. cbn. split; [done|]. split; [|by left].
      intros e' [= <-]. left. by eapply get_budget_method_error. }
  destruct (check_dz_out c) as [dz|e] eqn:Hdz.
  2:{ rewrite H. cbn. split; [done|]. split; [|by left].
      intros e' [= <-]. left. by eapply check_dz_out_error. }
  destruct H as (force & cart & _ & _ & H). cbv zeta in H.
  destruct (adv_tend_check dat (PyStr.upper var) force) as [[]|e] eqn:Hadv;
    rewrite H; cbn [fst snd files].
  - split; [done|]. split; [done|]. right. exists c, name.
    split; [done|]. rewrite Hdz. split; [by eexists|].
    eexists. split; [reflexivity|].
    destruct cart; repeat constructor.
  - split; [done|]. split.
    { intros e' [= <-]. by eapply adv_tend_check_error. }
    right. exists c, name. split; [done|]. rewrite Hdz. split; [by eexists|].
    eexists. split; [reflexivity|]. repeat constructor.
Qed.

(** A list of methods with a refused method fails, and no kernel is called
    for that method. *)
Lemma process_methods_bad (dat : model_output) (var : string)
    (cyclic : gmap string bool) (bm name : string) (c : gmap string bool)
    (methods : list string) (done : list (gmap string bool)) (w : world) :
  get_budget_method bm = Ok (c, name) -> bad_dz_out c -> bm ∈ methods ->
  exists e w', process_methods dat var cyclic methods done w = (Raise e, w')
    /\ files w' = files w
    /\ ((exists msg, e = ValueError msg) \/ (exists key, e = KeyError key))
    /\ extends (fun ev => event_method ev <> Some name) w w'.
Proof.
  intros Hbm Hbad. revert done w.
  induction methods as [|m ms IH]; intros done w Hin.
  - by apply elem_of_nil in Hin.
  - cbn [process_methods]. rewrite bindM_eq.
    destruct (process_method_events dat var cyclic m w) as (Hf & He & Hev).
    assert (Hext : extends (fun ev => event_method ev <> Some name) w
                     (process_method dat var cyclic m w).2).
    { destruct Hev as [-> | (c' & name' & Hbm' & Hdz & Hext)].
      - apply extends_refl.
      - eapply extends_weaken; [|exact Hext]. intros ev Hev Hev'.
        rewrite Hev in Hev'. injection Hev' as ->.
        pose proof (get_budget_method_name_inj _ _ _ _ _ Hbm' Hbm) as ->.
        rewrite Hbm in Hbm'. injection Hbm' as <-.
        destruct (check_dz_out_bad c name bm Hbm Hbad) as [msg Hmsg].
        rewrite Hmsg in Hdz. by destruct Hdz. }
    destruct (process_method dat var cyclic m w) as [[c'|e] w1] eqn:Hpm;
      cbn [fst snd] in *.
    + assert (Hne : m <> bm).
      { intros ->. pose proof (process_method_cases dat var cyclic bm w) as H.
        rewrite Hbm in H. destruct (check_dz_out_bad c name bm Hbm Hbad) as [msg Hmsg].
        rewrite Hmsg in H. congruence. }
      apply elem_of_cons in Hin as [->|Hin]; [done|].
      destruct (IH (done ++ [c']) w1 Hin) as (e & w' & -> & Hf' & He' & Hext').
      exists e, w'. split; [done|]. split; [congruence|]. split; [done|].
      by eapply extends_trans.
    + exists e, w1. split; [done|]. split; [done|]. split; [by apply He|done].
Qed.

(** ** Variables whose budget methods fail

    When the list of budget methods cannot be processed, a variable is
    either reused from disk or fails. *)
Section MethodsFail.
Context (dat : model_output) (o : options) (tile : option (gmap string slice))
  (task : option nat) (avg : string) (cartesian : bool)
  (E : exn -> Prop) (Q : event -> Prop).
Hypothesis methods_fail : forall var cyclic w,
  exists e w', process_methods dat var cyclic (make_list (budget_methods o)) [] w
               = (Raise e, w')
    /\ files w' = files w /\ E e /\ extends Q w w'.
Hypothesis Q_other : forall ev, event_method ev = None -> Q ev.

Lemma process_variable_fails (cyclic : gmap string bool) (var : string) (w : world) :
  exists r w', process_variable dat o tile task cyclic avg cartesian var w = (r, w')
    /\ files w' = files w /\ extends Q w w'
    /\ if skip_exist o && stored w avg cartesian var then r = Ok false
       else exists e, r = Raise e /\ E e.
Proof.
  unfold process_variable. rewrite bindM_eq.
  unfold output_complete at 1. fold (stored w avg cartesian var).
  destruct (skip_exist o && stored w avg cartesian var) eqn:Hskip.
  - apply andb_true_iff in Hskip as [_ Hst].
    rewrite bindM_eq. unfold emit at 1. rewrite bindM_eq.
    rewrite load_postproc_ok by (by rewrite (stored_files w)).
    eexists _, _. split; [reflexivity|]. cbn [files trace]. split; [done|].
    split; [|done]. rewrite <- app_assoc.
    apply extends_files_same. repeat constructor; by apply Q_other.
  - rewrite bindM_eq. unfold emit at 1. rewrite bindM_eq.
    match goal with
    | |- context [process_methods dat var cyclic _ [] ?w0] =>
        destruct (methods_fail var cyclic w0) as (e & w' & -> & Hf & He & Hext)
    end.
    eexists _, _. split; [reflexivity|]. split; [done|]. split; [|by exists e].
    eapply extends_trans; [|exact Hext].
    apply (extends_files_same Q w [EvSources var cyclic]).
    repeat constructor. by apply Q_other.
Qed.

Lemma process_variables_fails (cyclic : gmap string bool) (variables : list string)
    (acc : list (string * bool)) (w : world) :
  exists r w',
    process_variables dat o tile task cyclic avg cartesian variables acc w = (r, w')
    /\ files w' = files w /\ extends Q w w'
    /\ if nothing_to_process o w avg cartesian variables
       then r = Ok (acc ++ ((fun var => (var, false)) <$> variables))
       else exists e, r = Raise e /\ E e.
Proof.
  revert acc w.
  induction variables as [|var vs IH]; intros acc w;
    cbn [process_variables nothing_to_process forallb].
  - exists (Ok acc), w. split; [done|]. split; [done|].
    split; [apply extends_refl|]. by rewrite app_nil_r.
  - rewrite bindM_eq.
    destruct (process_variable_fails cyclic var w) as (r1 & w1 & -> & Hf1 & Hext1 & Hr1).
    destruct (skip_exist o && stored w avg cartesian var); cbn [andb].
    + subst r1. cbn [andb]. destruct (IH (acc ++ [(var, false)]) w1)
        as (r2 & w2 & -> & Hf2 & Hext2 & Hr2).
      exists r2, w2. split; [done|]. split; [congruence|].
      split; [by eapply extends_trans|].
      unfold nothing_to_process in *.
      rewrite (forallb_ext _ (fun var => skip_exist o && stored w1 avg cartesian var));
        [|intros v; by rewrite (stored_files w w1)].
      destruct (forallb _ vs); [|done].
      cbn [fmap list_fmap]. by rewrite <- app_assoc in Hr2.
    + destruct Hr1 as (e & -> & He). exists (Raise e), w1.
      split; [done|]. split; [done|]. split; [done|]. by exists e.
Qed.

Lemma calc_tendencies_core_fails (variables : list string) (w : world) :
  avg_suffix o = Ok avg -> any_cartesian o = cartesian ->
  exists r w', calc_tendencies_core dat variables o tile task w = (r, w')
    /\ files w' = files w /\ extends Q w w'
    /\ match select_tile dat tile with
       | Raise e => r = Raise e
       | Ok _ =>
           if nothing_to_process o w avg cartesian variables
           then r = Ok (match tile with
                        | None => loaded o variables
                        | Some _ => OutNone
                        end)
           else exists e, r = Raise e /\ E e
       end.
Proof.
  intros Havg Hcart. unfold calc_tendencies_core. rewrite Hcart.
  rewrite bindM_eq. unfold emit at 1. rewrite bindM_eq. unfold liftM at 1.
  assert (Hload : extends Q w {| files := files w; trace := trace w ++ [EvLoadData] |}).
  { apply extends_files_same. repeat constructor. by apply Q_other. }
  destruct (select_tile dat tile) as [[]|e].
  2:{ eexists _, _. split; [reflexivity|]. by split. }
  rewrite bindM_eq. unfold liftM at 1. rewrite Havg.
  rewrite bindM_eq. unfold emit at 1. rewrite bindM_eq. cbn [files trace].
  match goal with
  | |- context [process_variables dat o tile task ?c avg _ variables [] ?w0] =>
      destruct (process_variables_fails c variables [] w0)
        as (r & w' & -> & Hf & Hext & Hr)
  end.
  cbn [files] in Hf.
  assert (Hn : forall w0, files w0 = files w ->
            nothing_to_process o w0 avg cartesian variables
            = nothing_to_process o w avg cartesian variables).
  { intros w0 H0. unfold nothing_to_process. apply forallb_ext. intros v.
    by rewrite (stored_files w w0). }
  rewrite Hn in Hr by done.
  assert (Hext' : extends Q w w').
  { eapply extends_trans; [exact Hload|]. eapply extends_trans; [|exact Hext].
    exists [EvPrepare (core_cyclic dat tile)]. split; [done|].
    repeat constructor. by apply Q_other. }
  destruct (nothing_to_process o w avg cartesian variables).
  - subst r. destruct tile; eexists _, _; (split; [reflexivity|]); by split.
  - destruct Hr as (e & -> & He). eexists _, _. split; [reflexivity|].
    split; [done|]. split; [done|]. by exists e.
Qed.

End MethodsFail.

(** ** The driver [calc_tendencies] without tiling *)

Lemma for_each_emit {A : Type} (l : list A) (f : A -> event) (w : world) :
  exists w', for_each l (fun a => emit (f a)) w = (Ok tt, w') /\ files w' = files w.
Proof.
  revert w. induction l as [|a l IH]; intros w; cbn [for_each].
  - by exists w.
  - rewrite bindM_eq. unfold emit at 1.
    destruct (IH {| files := files w; trace := trace w ++ [f a] |}) as (w' & -> & Hf).
    by exists w'.
Qed.

(** The stored output is loaded when it is complete. *)
Lemma load_all_ok (variables : list string) (o : options) (avg : string)
    (cartesian : bool) (w : world) :
  all_stored w avg cartesian variables = true ->
  exists w', load_all variables o avg cartesian w = (Ok (loaded o variables), w')
    /\ files w' = files w.
Proof.
  intros Hst. unfold load_all. rewrite bindM_eq.
  rewrite load_variables_ok by done.
  rewrite bindM_eq. unfold loaded. destruct (return_model_output o) eqn:E.
  - unfold emit at 1. eexists. split; [reflexivity|]. done.
  - cbn. eexists. split; [reflexivity|]. done.
Qed.

(** Whatever is stored, loading gives the stored output or fails. *)
Lemma load_all_result (variables : list string) (o : options) (avg : string)
    (cartesian : bool) (w w' : world) (out : output) :
  load_all variables o avg cartesian w = (Ok out, w') -> out = loaded o variables.
Proof.
  unfold load_all. rewrite bindM_eq.
  destruct (for_each variables _ w) as [[[]|e] w1]; [|done].
  rewrite bindM_eq. unfold loaded.
  destruct (return_model_output o).
  - unfold emit at 1. by intros [= <- _].
  - cbn. by intros [= <- _].
Qed.

Lemma nothing_to_process_keep (o : options) (w : world) (avg : string)
    (cartesian : bool) (variables : list string) :
  skip_exist o = true ->
  nothing_to_process o w avg cartesian variables
  = all_stored w avg cartesian variables.
Proof.
  intros H. unfold nothing_to_process, all_stored. apply forallb_ext.
  intros v. by rewrite H.
Qed.

Lemma nothing_to_process_force (o : options) (w w' : world) (avg : string)
    (cartesian : bool) (variables : list string) :
  skip_exist o = false ->
  nothing_to_process o w avg cartesian variables
  = nothing_to_process o w' avg cartesian variables.
Proof.
  intros H. unfold nothing_to_process. apply forallb_ext.
  intros v. by rewrite H.
Qed.

(** [calc_tendencies]: the stored output is reused, or the rest of the
    function is run after the stored files have been removed if skip_exist
    is off. *)
Lemma calc_tendencies_cases (env : mpi) (dat : model_output)
    (variables : list string) (o : options) (chunks : option (list (string * nat)))
    (w : world) (avg : string) :
  avg_suffix o = Ok avg ->
  exists w1, extends (fun e => is_computation e = false) w w1
    /\ (skip_exist o = true -> w1 = w)
    /\ calc_tendencies env dat variables o chunks w
       = if skip_exist o && all_stored w avg (any_cartesian o) variables
         then (emit (EvPrint "Postprocessed output already available!") ;;
               load_all variables o avg (any_cartesian o)) w
         else
           match chunks with
           | Some chunks =>
               if existsb (fun c => negb (in_list c xy)) (chunks.*1) then
                 raiseM (ValueError "Chunking is only allowed in the x and y-directions!")
               else if hor_avg o
                       && existsb (fun d => in_list d (default [] (avg_dims o)))
                                  (chunks.*1) then
                 raiseM (ValueError "Averaging dimensions cannot be used for chunking!")
               else
                 emit EvLoadData ;;
                 t ← liftM (create_tiles (dims dat) chunks);
                 for_each (printed t) (fun msg => emit (EvPrint msg)) ;;
                 let all_tiles := imap (fun i t => (i, t)) (tiles t) in
                 tiles ← liftM (slice_from_step (rank env) (nproc env) all_tiles);
                 for_each tiles (fun '(task, tile) =>
                   let tile := merge_tile tile in
                   (if bool_decide (tile = ∅)
                    then calc_tendencies_core dat variables
                           (with_return_model_output o false) None None
                    else calc_tendencies_core dat variables
                           (with_return_model_output o false) (Some tile) (Some task)) ;;
                   mret tt) ;;
                 (if has_comm env then emit EvBarrier else mret tt) ;;
                 if (rank env =? 0)%nat
                 then load_all variables o avg (any_cartesian o)
                 else mret OutNone
           | None =>
               if (1 <? nproc env)%nat then
                 raiseM (ValueError
                   "Number of processors > 1, but chunking is disabled (chunks=None)!")
               else calc_tendencies_core dat variables o None None
           end w1.
Proof.
  intros Havg. unfold calc_tendencies.
  rewrite bindM_eq. unfold liftM at 1. rewrite Havg. rewrite bindM_eq.
  destruct (skip_exist o) eqn:Hskip.
  - rewrite check_existing_keep by done. rewrite all_stored_pairs. cbn [andb].
    exists w. split; [apply extends_refl|]. split; [done|].
    by destruct (all_stored w avg (any_cartesian o) variables).
  - destruct (check_existing_remove env o avg
                (outfile ← expected_outfiles (any_cartesian o); var ← variables;
                 [(outfile, var)]) w) as (w' & -> & Hext).
    cbn [andb]. exists w'. split; [done|]. split; [done|]. done.
Qed.

Lemma print_load_all_ok (variables : list string) (o : options) (avg : string)
    (cartesian : bool) (w : world) :
  all_stored w avg cartesian variables = true ->
  ((emit (EvPrint "Postprocessed output already available!") ;;
    load_all variables o avg cartesian) w).1 = Ok (loaded o variables).
Proof.
  intros Hst. rewrite bindM_eq. unfold emit at 1.
  match goal with
  | |- context [load_all variables o avg cartesian ?w0] =>
      destruct (load_all_ok variables o avg cartesian w0) as (w' & -> & _)
  end; [|done].
  unfold all_stored in *. erewrite forallb_ext; [exact Hst|].
  intros v. by apply stored_files.
Qed.

(** C8, as stated, fails: with two worker processes and chunks=None,
    [calc_tendencies] returns the stored output without an error when the
    output of every variable is already on disk (skip_exist is True by
    default). *)
Lemma nproc_without_chunks_counterexample :
  let o := {| budget_methods := Str "cartesian"; hor_avg := false;
              avg_dims := None; skip_exist := true; save_output := true;
              return_model_output := false |} in
  let w := {| files := list_to_set ((fun f => fpath "t" f "") <$> expected_outfiles true);
              trace := [] |} in
  (calc_tendencies (Mpi 0 2 true) (ModelOutput true true ∅ false false []) ["t"]
     o None w).1
  = Ok (OutData [("t", false)] false).
Proof. cbv zeta. by_compute. Qed.

(** C8 (amended): with more than one worker process and chunks=None,
    [calc_tendencies] raises the ValueError before anything is loaded or
    computed (at most stored files have been removed), unless the stored
    output of all variables is complete and reused (skip_exist): then the
    stored output is returned and no error is raised. *)
Theorem nproc_without_chunks (env : mpi) (dat : model_output)
    (variables : list string) (o : options) (w : world) (avg : string) :
  1 < nproc env ->
  avg_suffix o = Ok avg ->
  let out := calc_tendencies env dat variables o None w in
  if skip_exist o && all_stored w avg (any_cartesian o) variables
  then out.1 = Ok (loaded o variables)
  else out.1 = Raise (ValueError
                 "Number of processors > 1, but chunking is disabled (chunks=None)!")
       /\ extends (fun e => is_computation e = false) w out.2.
Proof.
  intros Hn Havg. cbv zeta.
  destruct (calc_tendencies_cases env dat variables o None w avg Havg)
    as (w1 & Hext & _ & ->).
  assert (Hnp : (1 <? nproc env)%nat = true) by (by apply Nat.ltb_lt).
  rewrite Hnp.
  destruct (skip_exist o && all_stored w avg (any_cartesian o) variables) eqn:Hskip.
  - apply print_load_all_ok. by apply andb_true_iff in Hskip as [_ ?].
  - by split.
Qed.

Lemma nproc_without_chunks_witness :
  (calc_tendencies (Mpi 0 2 true) (ModelOutput true true ∅ false false []) ["t"]
     default_options None {| files := ∅; trace := [] |}).1
  = Raise (ValueError
      "Number of processors > 1, but chunking is disabled (chunks=None)!").
Proof.
  refine (proj1 (nproc_without_chunks (Mpi 0 2 true)
                   (ModelOutput true true ∅ false false []) ["t"]
                   default_options {| files := ∅; trace := [] |} "" _ _)).
  - cbn. lia.
  - reflexivity.
Defined.

(** ** The default budget methods *)

Lemma default_methods_fail (dat : model_output) (o : options) :
  budget_methods o = Str default_budget_methods ->
  forall var cyclic w,
    exists e w', process_methods dat var cyclic (make_list (budget_methods o)) [] w
                 = (Raise e, w')
      /\ files w' = files w
      /\ e = ValueError "Undefined keys: castesian"
      /\ extends (fun _ => True) w w'.
Proof.
  intros Hbm var cyclic w. rewrite Hbm.
  exists (ValueError "Undefined keys: castesian"), w.
  split; [reflexivity|]. split; [done|]. split; [done|]. apply extends_refl.
Qed.

(** [calc_tendencies_core] with the default budget methods. *)
Lemma calc_tendencies_core_default (dat : model_output) (variables : list string)
    (o : options) (tile : option (gmap string slice)) (task : option nat)
    (w : world) (avg : string) :
  budget_methods o = Str default_budget_methods ->
  avg_suffix o = Ok avg ->
  (calc_tendencies_core dat variables o tile task w).1
  = match select_tile dat tile with
    | Raise e => Raise e
    | Ok _ =>
        if nothing_to_process o w avg false variables
        then Ok (match tile with None => loaded o variables | Some _ => OutNone end)
        else Raise (ValueError "Undefined keys: castesian")
    end.
Proof.
  intros Hbm Havg.
  assert (Hcart : any_cartesian o = false) by (unfold any_cartesian; by rewrite Hbm).
  destruct (calc_tendencies_core_fails dat o tile task avg false
              (fun e => e = ValueError "Undefined keys: castesian") (fun _ => True)
              (default_methods_fail dat o Hbm) (fun _ _ => I) variables w Havg Hcart)
    as (r & w' & -> & _ & _ & Hr).
  cbn [fst]. destruct (select_tile dat tile); [|done].
  destruct (nothing_to_process o w avg false variables); [done|].
  by destruct Hr as (e & -> & ->).
Qed.




(** ** Budget methods that the check of dz_out refuses *)




(** ** Tiles *)

Lemma length_bounds (n size : nat) :
  length (bounds n size) = Nat.div (n + size - 1) size.
Proof. unfold bounds. by rewrite length_fmap, length_seq. Qed.

Lemma lookup_bounds (n size i : nat) :
  i < length (bounds n size) -> bounds n size !! i = Some (i * size).
Proof.
  rewrite length_bounds. intros Hi. unfold bounds.
  rewrite list_lookup_fmap, lookup_seq_lt by done. done.
Qed.

Lemma nth_bounds (n size i : nat) :
  i < length (bounds n size) -> nth i (bounds n size) 0 = i * size.
Proof.
  intros Hi. apply nth_lookup_Some with (d := 0). by apply lookup_bounds.
Qed.

(** Every bound is a position of the axis. *)
Lemma bounds_lt (n size i : nat) :
  0 < size -> i < length (bounds n size) -> i * size < n.
Proof.
  rewrite length_bounds. intros Hs Hi.
  assert (H : i * size <= n + size - 1 - size).
  { assert (S i <= (n + size - 1) / size) by lia.
    assert (S i * size <= n + size - 1).
    { etrans; [apply Nat.mul_le_mono_r; exact H|].
      rewrite Nat.mul_comm. apply Nat.Div0.mul_div_le. }
    lia. }
  destruct (decide (n = 0)) as [->|]; [|lia].
  rewrite Nat.add_0_l in Hi.
  rewrite Nat.div_small in Hi by lia. lia.
Qed.

Lemma lookup_iloc (dim : string) (b : list nat) (i : nat) :
  i < length b -> iloc dim b !! i = Some (iloc_b dim b i).
Proof.
  intros Hi. unfold iloc. rewrite list_lookup_fmap, lookup_seq_lt by done. done.
Qed.

Lemma stag_name_ne (dim : string) : dim <> dim +:+ "_stag".
Proof.
  induction dim as [|a dim IH]; intros H.
  - discriminate H.
  - apply IH. by injection H.
Qed.

Lemma iloc_b_lookup (dim : string) (b : list nat) (i : nat) :
  iloc_b dim b i !! dim = Some (tile_slice b i 1)
  /\ iloc_b dim b i !! (dim +:+ "_stag") = Some (tile_slice b i 2).
Proof.
  unfold iloc_b. cbn [foldl]. pose proof (stag_name_ne dim).
  split; by simplify_map_eq.
Qed.

(** The loop of [create_tiles]. *)
Lemma create_tiles_loop_spec (dims : gmap string nat) (items : list (string * nat))
    (st : tiling) :
  (forall dim size, (dim, size) ∈ items -> is_Some (dims !! dim) /\ 0 < size) ->
  create_tiles_loop dims items st
  = Ok {| tiles := tiles st ++ partitions dims items;
          chunks_left := foldl (fun c dim => del_key dim c) (chunks_left st)
                               (one_chunk_dims dims items);
          printed := printed st ++ (one_chunk_message <$> one_chunk_dims dims items) |}.
Proof.
  revert st. induction items as [|[dim size] items IH]; intros st Hok.
  - cbn. rewrite !app_nil_r. by destruct st.
  - destruct (Hok dim size) as [[n Hn] Hsize]; [by left|].
    assert (Hok' : forall dim size, (dim, size) ∈ items ->
                     is_Some (dims !! dim) /\ 0 < size).
    { intros d s Hd. apply Hok. by right. }
    cbn [create_tiles_loop]. rewrite Hn.
    assert (Hs : (size =? 0)%nat = false) by (apply Nat.eqb_neq; lia).
    rewrite Hs. unfold partitions, one_chunk_dims.
    cbn [omap list_omap fst snd]. rewrite Hn. cbn [mbind option_bind].
    destruct (length (bounds n size) =? 1)%nat.
    + rewrite IH by done. cbn [tiles chunks_left printed fmap list_fmap foldl].
      f_equal. f_equal. by rewrite <- app_assoc.
    + rewrite IH by done. cbn [tiles chunks_left printed].
      f_equal. f_equal. by rewrite <- app_assoc.
Qed.

Lemma del_key_not_elem {A : Type} (dim : string) (chunks : list (string * A)) :
  dim ∉ (del_key dim chunks).*1.
Proof.
  unfold del_key. rewrite list_elem_of_fmap. intros ([k v] & Hk & Hin).
  cbn in Hk. subst k. apply list_elem_of_In, filter_In in Hin as [_ Hin].
  cbn in Hin. by rewrite String.eqb_refl in Hin.
Qed.

Lemma del_key_subseteq {A : Type} (dim : string) (chunks : list (string * A)) :
  del_key dim chunks ⊆ chunks.
Proof.
  intros kv Hkv. apply list_elem_of_In. apply list_elem_of_In in Hkv.
  unfold del_key in Hkv. by apply filter_In in Hkv as [? _].
Qed.

Lemma del_key_keeps {A : Type} (dim : string) (chunks : list (string * A))
    (kv : string * A) :
  kv ∈ chunks -> kv.1 <> dim -> kv ∈ del_key dim chunks.
Proof.
  intros Hin Hne. apply list_elem_of_In. unfold del_key. apply filter_In.
  split; [by apply list_elem_of_In|].
  apply negb_true_iff, String.eqb_neq. done.
Qed.

Lemma del_keys_subseteq {A : Type} (ds : list string) (chunks : list (string * A)) :
  foldl (fun c dim => del_key dim c) chunks ds ⊆ chunks.
Proof.
  revert chunks. induction ds as [|d ds IH]; intros chunks; cbn [foldl]; [done|].
  etrans; [apply IH|]. apply del_key_subseteq.
Qed.

Lemma del_keys_not_elem {A : Type} (dim : string) (ds : list string)
    (chunks : list (string * A)) :
  dim ∈ ds -> dim ∉ (foldl (fun c dim => del_key dim c) chunks ds).*1.
Proof.
  revert chunks. induction ds as [|d ds IH]; intros chunks Hin; cbn [foldl].
  - by apply elem_of_nil in Hin.
  - destruct (decide (dim ∈ ds)) as [Hds|Hds]; [by apply IH|].
    apply elem_of_cons in Hin as [->|]; [|done].
    intros Hd. apply (del_key_not_elem d chunks).
    apply list_elem_of_fmap in Hd as (kv & -> & Hkv).
    apply list_elem_of_fmap. exists kv. split; [done|].
    by apply (del_keys_subseteq ds).
Qed.

Lemma del_keys_keeps {A : Type} (ds : list string) (chunks : list (string * A))
    (kv : string * A) :
  kv ∈ chunks -> kv.1 ∉ ds -> kv ∈ foldl (fun c dim => del_key dim c) chunks ds.
Proof.
  revert chunks. induction ds as [|d ds IH]; intros chunks Hin Hne; cbn [foldl]; [done|].
  apply not_elem_of_cons in Hne as [Hd Hds].
  apply IH; [|done]. by apply del_key_keeps.
Qed.

Lemma elem_of_one_chunk_dims (dims : gmap string nat) (chunks : list (string * nat))
    (dim : string) :
  dim ∈ one_chunk_dims dims chunks <->
  exists size n, (dim, size) ∈ chunks /\ dims !! dim = Some n
                 /\ length (bounds n size) = 1.
Proof.
  unfold one_chunk_dims. rewrite list_elem_of_omap. split.
  - intros ([d size] & Hin & Hsome). cbn [fst snd] in Hsome.
    destruct (dims !! d) as [n|] eqn:Hn; [|done]. cbn in Hsome.
    destruct (length (bounds n size) =? 1)%nat eqn:E; [|done].
    injection Hsome as ->. exists size, n. by apply Nat.eqb_eq in E.
  - intros (size & n & Hin & Hn & Hlen). exists (dim, size). split; [done|].
    cbn [fst snd]. rewrite Hn. cbn. by rewrite Hlen.
Qed.

Lemma elem_of_partitions (dims : gmap string nat) (chunks : list (string * nat))
    (dim : string) (size n : nat) :
  (dim, size) ∈ chunks -> dims !! dim = Some n -> length (bounds n size) <> 1 ->
  iloc dim (bounds n size) ∈ partitions dims chunks.
Proof.
  intros Hin Hn Hlen. unfold partitions. apply list_elem_of_omap.
  exists (dim, size). split; [done|]. cbn [fst snd]. rewrite Hn. cbn.
  by apply Nat.eqb_neq in Hlen as ->.
Qed.

Lemma NoDup_fst_agree {A : Type} (l : list (string * A)) (k : string) (v1 v2 : A) :
  NoDup l.*1 -> (k, v1) ∈ l -> (k, v2) ∈ l -> v1 = v2.
Proof.
  induction l as [|[k' v'] l IH]; intros Hnd H1 H2.
  - by apply elem_of_nil in H1.
  - cbn in Hnd. apply NoDup_cons in Hnd as [Hk' Hnd].
    apply elem_of_cons in H1 as [H1|H1]; apply elem_of_cons in H2 as [H2|H2].
    + congruence.
    + injection H1 as -> ->. exfalso. apply Hk'.
      apply list_elem_of_fmap. by exists (k', v2).
    + injection H2 as -> ->. exfalso. apply Hk'.
      apply list_elem_of_fmap. by exists (k', v1).
    + by apply IH.
Qed.

Lemma tile_slice_bounds (n size i : nat) (ext : Z) :
  i < length (bounds n size) ->
  tile_slice (bounds n size) i ext
  = {| start := if (i =? 0)%nat then None else Some (Z.of_nat (i * size) - 1)%Z;
       stop := if (i =? length (bounds n size) - 1)%nat then None
               else Some (Z.of_nat ((i + 1) * size) + ext)%Z |}.
Proof.
  intros Hi. unfold tile_slice. rewrite (nth_bounds n size i Hi).
  destruct (i =? length (bounds n size) - 1)%nat eqn:E; [done|].
  apply Nat.eqb_neq in E. rewrite nth_bounds by lia. done.
Qed.

(** C6, as stated, fails: an axis of 4 points in chunks of 2 gives the
    bounds 0 and 2; the staggered variant of the second tile starts at
    index 1, one point (not two) below its bound, as the unstaggered variant
    does.  Two extra points are only taken above the upper bound of a tile. *)
Lemma staggered_lower_halo_counterexample :
  bounds 4 2 = [0; 2]
  /\ (t ← create_tiles {[ "x" := 4 ]} [("x", 2)]; Ok (tiles t))
     = Ok [ [ {[ "x" := Slice None (Some 3%Z); "x_stag" := Slice None (Some 4%Z) ]} ];
            [ {[ "x" := Slice (Some 1%Z) None; "x_stag" := Slice (Some 1%Z) None ]} ] ].
Proof. split; by_compute. Qed.

(** C6 (amended): for every chunked axis whose partition has at least two
    chunks, the slices of tile i (for the axis and for its staggered
    variant) have no halo at the domain edges (an open bound at the start of
    the first and at the end of the last tile); at an interior boundary the
    slice starts one point below the lower bound of the tile, for both
    variants, and ends one point (two points for the staggered variant)
    above the upper bound.  An axis whose partition has a single chunk is
    deleted from the chunk dictionary with a printed warning and contributes
    no partition.  The tiles are the Cartesian product of the partitions of
    the axes that are kept. *)
Theorem create_tiles_halos (dims : gmap string nat) (chunks : list (string * nat)) :
  NoDup chunks.*1 ->
  (forall dim size, (dim, size) ∈ chunks -> is_Some (dims !! dim) /\ 0 < size) ->
  exists t, create_tiles dims chunks = Ok t
    /\ tiles t = product (partitions dims chunks)
    /\ forall dim size n, (dim, size) ∈ chunks -> dims !! dim = Some n ->
         let b := bounds n size in
         (length b = 1 ->
            (dim ∉ (chunks_left t).*1) /\ (one_chunk_message dim ∈ printed t))
         /\ (length b <> 1 ->
               ((dim, size) ∈ chunks_left t)
               /\ (iloc dim b ∈ partitions dims chunks)
               /\ forall i, i < length b ->
                    iloc dim b !! i = Some (iloc_b dim b i)
                    /\ iloc_b dim b i !! dim
                       = Some {| start := if (i =? 0)%nat then None
                                          else Some (Z.of_nat (i * size) - 1)%Z;
                                 stop := if (i =? length b - 1)%nat then None
                                         else Some (Z.of_nat ((i + 1) * size) + 1)%Z |}
                    /\ iloc_b dim b i !! (dim +:+ "_stag")
                       = Some {| start := if (i =? 0)%nat then None
                                          else Some (Z.of_nat (i * size) - 1)%Z;
                                 stop := if (i =? length b - 1)%nat then None
                                         else Some (Z.of_nat ((i + 1) * size) + 2)%Z |}).
Proof.
  intros Hnd Hok. unfold create_tiles.
  rewrite (create_tiles_loop_spec dims chunks _ Hok). cbn [mbind result_bind].
  eexists. split; [reflexivity|]. cbn [tiles chunks_left printed app].
  split; [done|]. intros dim size n Hin Hn. set (b := bounds n size). split.
  - intros Hlen.
    assert (Hdim : dim ∈ one_chunk_dims dims chunks).
    { apply elem_of_one_chunk_dims. by exists size, n. }
    split; [by apply del_keys_not_elem|].
    right. apply list_elem_of_fmap. by exists dim.
  - intros Hlen. split; [|split].
    + apply del_keys_keeps; [done|]. cbn [fst].
      intros Hd. apply elem_of_one_chunk_dims in Hd as (size' & n' & Hin' & Hn' & Hlen').
      rewrite Hn in Hn'. injection Hn' as <-.
      pose proof (NoDup_fst_agree chunks dim size size' Hnd Hin Hin') as <-.
      apply Hlen. exact Hlen'.
    + by apply elem_of_partitions.
    + intros i Hi. split; [by apply lookup_iloc|].
      destruct (iloc_b_lookup dim b i) as [-> ->].
      unfold b. by rewrite !tile_slice_bounds.
Qed.

Lemma create_tiles_halos_witness :
  exists t, create_tiles {[ "x" := 10; "y" := 3 ]} [("x", 4); ("y", 5)] = Ok t
    /\ tiles t = product (partitions {[ "x" := 10; "y" := 3 ]} [("x", 4); ("y", 5)]).
Proof.
  destruct (create_tiles_halos {[ "x" := 10; "y" := 3 ]} [("x", 4); ("y", 5)])
    as (t & Ht & Htiles & _).
  - by_compute.
  - intros dim size Hin.
    revert Hin. rewrite !elem_of_cons, elem_of_nil.
    intros [[= -> ->] | [[= -> ->] | []]]; (split; [by eexists | lia]).
  - by exists t.
Defined.

Lemma clip_pos (n : nat) (z : Z) :
  (0 <= z <= Z.of_nat n)%Z -> clip n z = Z.to_nat z.
Proof. intros Hz. unfold clip. destruct (Z.ltb_spec z 0); lia. Qed.

Lemma clip_neg (n : nat) (z : Z) :
  (- Z.of_nat n <= z < 0)%Z -> clip n z = Z.to_nat (Z.of_nat n + z).
Proof. intros Hz. unfold clip. destruct (Z.ltb_spec z 0); lia. Qed.

Ltac clip_tac :=
  repeat match goal with
  | |- context [clip ?m ?z] =>
      first [ rewrite (clip_pos m z) by lia | rewrite (clip_neg m z) by lia ]
  end.

Lemma apply_slice_seq (s : slice) (a m : nat) :
  apply_slice s (seq a m)
  = seq (a + from_option (clip m) 0 (start s))
        (Nat.min (from_option (clip m) m (stop s) - from_option (clip m) 0 (start s))
                 (m - from_option (clip m) 0 (start s))).
Proof. unfold apply_slice. by rewrite length_seq, drop_seq, take_seq. Qed.

(** Stripping a tile (lines 2088-2105) removes exactly its halo: what is
    left of tile [i] is its own range of the axis, from its bound to the next
    one (or to the end of the axis), for the unstaggered axis of [n] points
    and for the staggered axis of [n + 1] points. *)
Lemma stripped_tile_own_range (dim : string) (n size i : nat) :
  dim ∈ xy -> 0 < size -> i < length (bounds n size) ->
  let b := bounds n size in
  let own (points : nat) :=
    seq (i * size)
        (if (i =? length b - 1)%nat then points - i * size else size) in
  apply_slice (strip_slice dim (tile_slice b i 1))
              (apply_slice (tile_slice b i 1) (seq 0 n)) = own n
  /\ apply_slice (strip_slice (dim +:+ "_stag") (tile_slice b i 2))
                 (apply_slice (tile_slice b i 2) (seq 0 (S n))) = own (S n).
Proof.
  intros Hdim Hsize Hi. cbv zeta.
  assert (Hc1 : PyStr.contains "stag" dim = false).
  { revert Hdim. unfold xy. rewrite !elem_of_cons, elem_of_nil.
    intros [-> | [-> | []]]; reflexivity. }
  assert (Hc2 : PyStr.contains "stag" (dim +:+ "_stag") = true).
  { revert Hdim. unfold xy. rewrite !elem_of_cons, elem_of_nil.
    intros [-> | [-> | []]]; reflexivity. }
  pose proof (bounds_lt n size i Hsize Hi) as Hlt.
  rewrite !tile_slice_bounds by done.
  assert (Hnext : i <> length (bounds n size) - 1 -> (i + 1) * size < n).
  { intros Hne. apply bounds_lt; [done|lia]. }
  assert (Hlow : i <> 0 -> 1 <= i * size) by (intros; nia).
  rewrite ?Nat.mul_add_distr_r, ?Nat.mul_1_l in *.
  unfold strip_slice. cbn [start stop]. rewrite Hc1, Hc2.
  destruct (Nat.eqb_spec i 0) as [E0|E0];
    destruct (Nat.eqb_spec i (length (bounds n size) - 1)) as [El|El];
    try specialize (Hnext El); try specialize (Hlow E0);
    rewrite !apply_slice_seq; cbn [start stop from_option];
    clip_tac;
    split; f_equal; lia.
Qed.

(** ** The advective tendency *)

Lemma set_residual_other (a : decomp) (D D' : dir) (c : comp) :
  c <> trb_r -> set_residual a D c D' = a c D'.
Proof. intros Hc. unfold set_residual. by rewrite bool_decide_eq_false_2. Qed.

Lemma set_residual_same (a : decomp) (D : dir) :
  set_residual a D trb_r D = xsub (a adv_r D) (a mean D).
Proof. unfold set_residual. by rewrite !bool_decide_eq_true_2. Qed.

Lemma set_residual_ne (a : decomp) (D D' : dir) :
  D' <> D -> set_residual a D trb_r D' = a trb_r D'.
Proof.
  intros HD. unfold set_residual.
  rewrite (bool_decide_eq_false_2 (D' = D)) by done. by rewrite andb_false_r.
Qed.

(** The residual assignment in all three directions (lines 1532-1534). *)
Lemma residual_all (r : adv_result) :
  let r' := foldl (fun r D => {| flux := set_residual (flux r) D;
                                 adv := set_residual (adv r) D |}) r XYZ in
  (forall c D, c <> trb_r -> flux r' c D = flux r c D /\ adv r' c D = adv r c D)
  /\ (forall D, flux r' trb_r D = xsub (flux r adv_r D) (flux r mean D)
             /\ adv r' trb_r D = xsub (adv r adv_r D) (adv r mean D)).
Proof.
  cbv zeta. split.
  - intros c D Hc. cbn [foldl XYZ flux adv].
    by rewrite !set_residual_other.
  - intros D. cbn [foldl XYZ flux adv]. destruct D.
    + rewrite !(set_residual_ne _ dirZ dirX), !(set_residual_ne _ dirY dirX) by done.
      by rewrite !set_residual_same.
    + rewrite !(set_residual_ne _ dirZ dirY) by done.
      rewrite !set_residual_same. by rewrite !set_residual_other.
    + rewrite !set_residual_same. by rewrite !set_residual_other.
Qed.

(** The residual assignment in the averaging directions (lines 1537-1540). *)
Lemma assign_avg_dims_spec (dims : list string) (r r' : adv_result) :
  assign_avg_dims dims r = Ok r' ->
  (forall c D, c <> trb_r -> flux r' c D = flux r c D /\ adv r' c D = adv r c D)
  /\ (forall D, (exists dn, dn ∈ dims /\ dir_of_name (PyStr.upper dn) = Some D) ->
        flux r' trb_r D = xsub (flux r adv_r D) (flux r mean D)
        /\ adv r' trb_r D = xsub (adv r adv_r D) (adv r mean D))
  /\ (forall D, (forall dn, dn ∈ dims -> dir_of_name (PyStr.upper dn) <> Some D) ->
        flux r' trb_r D = flux r trb_r D /\ adv r' trb_r D = adv r trb_r D).
Proof.
  revert r. induction dims as [|dn dims IH]; intros r H; cbn [assign_avg_dims] in H.
  - injection H as <-. split; [done|]. split; [|done].
    intros D (dn & Hdn & _). by apply elem_of_nil in Hdn.
  - destruct (dir_of_name (PyStr.upper dn)) as [D0|] eqn:E0; [|done].
    destruct (IH _ H) as (Hother & Hset & Hkeep). cbn [flux adv] in *.
    split; [|split].
    + intros c D Hc. destruct (Hother c D Hc) as [-> ->].
      by rewrite !set_residual_other.
    + intros D (dn' & Hdn' & HD).
      destruct (decide (Exists (fun dn => dir_of_name (PyStr.upper dn) = Some D) dims))
        as [Hin|Hnin].
      * apply Exists_exists in Hin. destruct (Hset D Hin) as [-> ->].
        by rewrite !set_residual_other.
      * assert (Hno : forall dn, dn ∈ dims -> dir_of_name (PyStr.upper dn) <> Some D).
        { intros dn0 H0 H1. apply Hnin. apply Exists_exists. by exists dn0. }
        destruct (Hkeep D Hno) as [-> ->].
        apply elem_of_cons in Hdn' as [->|Hdn']; [|by destruct (Hno dn')].
        rewrite E0 in HD. injection HD as ->. by rewrite !set_residual_same.
    + intros D Hno.
      destruct (Hkeep D) as [-> ->].
      { intros dn0 H0. apply Hno. by right. }
      assert (D <> D0).
      { intros ->. by apply (Hno dn); [left|]. }
      by rewrite !set_residual_ne.
Qed.

(** The stacked components before the residual assignment. *)
Lemma adv_tend_inv (avg_xy : xfield -> xfield) (d : adv_data) (r : adv_result) :
  adv_tend avg_xy d = Ok r ->
  exists (aR aM : dir -> xfield) (aT : option (dir -> xfield)) (r0 : adv_result),
    adv_component avg_xy d adv_r (tot_flux d) = Ok aR
    /\ adv_component avg_xy d mean (mean_flux d) = Ok aM
    /\ match trb_flux d with
       | Some f => exists a, aT = Some a /\ adv_component avg_xy d trb_r f = Ok a
       | None => aT = None
       end
    /\ (forall D,
          flux r0 adv_r D = (if adv_hor_avg d then avg_xy (tot_flux d D) else tot_flux d D)
          /\ flux r0 mean D = mean_flux d D
          /\ flux r0 trb_r D = match trb_flux d with
                               | Some t => t D
                               | None => Scalar NaN
                               end
          /\ adv r0 adv_r D = (if adv_hor_avg d then avg_xy (aR D) else aR D)
          /\ adv r0 mean D = aM D
          /\ adv r0 trb_r D = match aT with Some t => t D | None => Scalar NaN end)
    /\ (if negb (trb_exp d)
        then Ok (foldl (fun r D => {| flux := set_residual (flux r) D;
                                      adv := set_residual (adv r) D |}) r0 XYZ)
        else if adv_hor_avg d then assign_avg_dims (adv_avg_dims d) r0
             else Ok r0) = Ok r.
Proof.
  unfold adv_tend. intros H.
  destruct (adv_component avg_xy d adv_r (tot_flux d)) as [aR|] eqn:ER; [|done].
  destruct (adv_component avg_xy d mean (mean_flux d)) as [aM|] eqn:EM; [|done].
  cbn [mbind result_bind] in H.
  destruct (trb_flux d) as [f|] eqn:ET.
  - destruct (adv_component avg_xy d trb_r f) as [aT|] eqn:ETr; [|done].
    cbn [mbind result_bind] in H.
    eexists aR, aM, (Some aT), _. split; [done|]. split; [done|].
    split; [by exists aT|]. split; [|exact H].
    intros D. cbn [flux adv]. by destruct (adv_hor_avg d).
  - cbn [mbind result_bind] in H.
    eexists aR, aM, None, _. split; [done|]. split; [done|].
    split; [done|]. split; [|exact H].
    intros D. cbn [flux adv]. by destruct (adv_hor_avg d).
Qed.

(** C1, as stated, fails when explicit resolved turbulent fluxes are
    supplied: [adv_tend] then returns them (and the tendency computed from
    them) as the turbulent component, whatever total minus mean is.  Here the
    vertical fluxes are 1, 1 (total), 1, 0 (mean) and 4, 4 (turbulent). *)
Lemma explicit_turbulent_not_residual :
  (r ← adv_tend id (sample_w sample_trb);
   Ok (flux r trb_r dirZ, xsub (flux r adv_r dirZ) (flux r mean dirZ)))
  = Ok (Array [num four; num four], Array [num zero; num one])
  /\ (r ← adv_tend id (sample_w sample_trb);
      Ok (bool_decide (adv r trb_r dirZ = xsub (adv r adv_r dirZ) (adv r mean dirZ))))
     = Ok false.
Proof. split; by_compute. Qed.

(** C1 (amended): when no explicit resolved turbulent fluxes are supplied,
    the resolved-turbulent component of the flux and of the tendency that
    [adv_tend] returns is, in every direction, the resolved-total component
    minus the mean component.  When explicit turbulent fluxes are supplied,
    that holds in the directions of horizontal averaging (where it is
    assigned); in the other directions the turbulent component is the
    supplied flux and the tendency computed from it. *)
Theorem residual_decomposition (avg_xy : xfield -> xfield) (d : adv_data)
    (r : adv_result) :
  adv_tend avg_xy d = Ok r ->
  (trb_exp d = false ->
     forall D, flux r trb_r D = xsub (flux r adv_r D) (flux r mean D)
            /\ adv r trb_r D = xsub (adv r adv_r D) (adv r mean D))
  /\ (trb_exp d = true -> adv_hor_avg d = true ->
        forall dn D, dn ∈ adv_avg_dims d -> dir_of_name (PyStr.upper dn) = Some D ->
          flux r trb_r D = xsub (flux r adv_r D) (flux r mean D)
          /\ adv r trb_r D = xsub (adv r adv_r D) (adv r mean D))
  /\ (forall f, trb_flux d = Some f ->
        forall D,
          (adv_hor_avg d = true ->
             forall dn, dn ∈ adv_avg_dims d -> dir_of_name (PyStr.upper dn) <> Some D) ->
          flux r trb_r D = f D
          /\ exists a, adv_component avg_xy d trb_r f = Ok a /\ adv r trb_r D = a D).
Proof.
  intros H.
  destruct (adv_tend_inv avg_xy d r H) as (aR & aM & aT & r0 & ER & EM & ET & H0 & Hr).
  split; [|split].
  - intros Hexp. rewrite Hexp in Hr. cbn [negb] in Hr.
    destruct (residual_all r0) as [Hother Hres].
    match type of Hr with Ok ?rf = _ => assert (r = rf) as -> by congruence end.
    intros D.
    destruct (Hother adv_r D) as [-> ->]; [done|].
    destruct (Hother mean D) as [-> ->]; [done|].
    apply Hres.
  - intros Hexp Havg dn D Hdn HD. rewrite Hexp, Havg in Hr. cbn [negb] in Hr.
    destruct (assign_avg_dims_spec _ _ _ Hr) as (Hother & Hset & _).
    destruct (Hother adv_r D) as [-> ->]; [done|].
    destruct (Hother mean D) as [-> ->]; [done|].
    apply Hset. by exists dn.
  - intros f Hf D Hno. unfold trb_exp in Hr. rewrite Hf in *. cbn [negb] in Hr.
    destruct ET as (a & -> & Ea).
    destruct (H0 D) as (_ & _ & Hft & _ & _ & Hat).
    destruct (adv_hor_avg d) eqn:Havg.
    + destruct (assign_avg_dims_spec _ _ _ Hr) as (_ & _ & Hkeep).
      destruct (Hkeep D (Hno eq_refl)) as [-> ->].
      split; [done|]. by exists a.
    + injection Hr as <-. split; [done|]. by exists a.
Qed.

Lemma residual_decomposition_witness :
  exists r, adv_tend id (sample_w (fun _ => None)) = Ok r
    /\ flux r trb_r dirZ = xsub (flux r adv_r dirZ) (flux r mean dirZ)
    /\ adv r trb_r dirZ = xsub (adv r adv_r dirZ) (adv r mean dirZ).
Proof.
  destruct (adv_tend id (sample_w (fun _ => None))) as [r|e] eqn:E;
    [|by vm_compute in E].
  exists r. split; [done|].
  exact (proj1 (residual_decomposition id (sample_w (fun _ => None)) r E)
           eq_refl dirZ).
Defined.

Lemma zero_times (q : Qc) : (zero * q = zero)%Qc.
Proof. apply Qcmult_0_l. Qed.

Lemma zero_div (q : Qc) : (zero / q = zero)%Qc.
Proof. unfold Qcdiv. apply Qcmult_0_l. Qed.

Lemma diff_vertical_unstaggered (f : field) :
  diff f "bottom_top" false = Ok (fsub f (shift_up f) ++ [NaN]).
Proof. reflexivity. Qed.

(** Lines 1498-1508 for the vertical-velocity budget. *)
Lemma adv_vertical_w (avg_xy : xfield -> xfield) (d : adv_data) (c : comp)
    (flx : dir -> xfield) (f : field) (top dn : val) :
  VAR d = "W" ->
  xmul (maybe_avg avg_xy d c (rhod8z d)) (flx dirZ) = Array f ->
  length (DN d) = S (length f) ->
  f !! (length f - 1) = Some top ->
  DN d !! (length f - 1) = Some dn ->
  exists a, adv_vertical avg_xy d c flx = Ok (Array a)
    /\ length a = S (length f)
    /\ a !! 0 = Some (num zero)
    /\ a !! length f = Some (mul (div (mul (num two) top) dn) (num (- g)%Qc)).
Proof.
  intros HW Hfz HDN Htop Hdn.
  assert (Hpos : 0 < length f) by (apply lookup_lt_Some in Htop; lia).
  unfold adv_vertical. rewrite HW, Hfz. cbn [String.eqb Ascii.eqb Bool.eqb].
  unfold xdiff. rewrite diff_vertical_unstaggered. cbn [mbind result_bind].
  set (df := fsub f (shift_up f) ++ [NaN]).
  assert (Hdf : length df = S (length f)).
  { unfold df, fsub. rewrite length_app, length_fmap2; [cbn; lia|].
    by rewrite length_shift_up. }
  cbn [xneg xdiv xmap2].
  set (a0 := zip_with div (fneg df) (DN d)).
  assert (Ha0 : length a0 = S (length f)).
  { unfold a0, fneg. rewrite length_zip_with, length_fmap. lia. }
  unfold xset at 2. rewrite (py_set_nat a0 0 _ : _ -> py_set _ 0%Z _ = _) by lia.
  cbn [mbind result_bind]. unfold xget.
  rewrite (py_get_neg f 1 top : _ -> _ -> _ -> py_get _ (-1)%Z = _) by (done || lia).
  cbn [mbind result_bind].
  rewrite (py_get_neg (DN d) 2 dn : _ -> _ -> _ -> py_get _ (-2)%Z = _);
    [|lia|lia|by replace (length (DN d) - 2) with (length f - 1) by lia].
  cbn [mbind result_bind]. unfold xset.
  rewrite (py_set_neg _ 1 _ : _ -> _ -> py_set _ (-1)%Z _ = _)
    by (rewrite ?length_insert; lia).
  cbn [mbind result_bind xmul xmap2]. rewrite length_insert, Ha0.
  replace (S (length f) - 1) with (length f) by lia.
  eexists. split; [reflexivity|]. split; [|split].
  - by rewrite length_fmap, !length_insert.
  - rewrite list_lookup_fmap, list_lookup_insert_ne by lia.
    rewrite list_lookup_insert_eq by lia. cbn. unfold num. by rewrite zero_times.
  - rewrite list_lookup_fmap, list_lookup_insert_eq by (rewrite length_insert; lia).
    done.
Qed.

Lemma adv_component_vertical (avg_xy : xfield -> xfield) (d : adv_data) (c : comp)
    (flx a : dir -> xfield) :
  adv_component avg_xy d c flx = Ok a ->
  exists z, adv_vertical avg_xy d c flx = Ok z
    /\ a dirZ = xdiv z (MU_STAG_MEAN d dirZ).
Proof.
  unfold adv_component. intros H.
  destruct (adv_horizontal avg_xy d c flx dirX) as [aX|]; [|done].
  destruct (adv_horizontal avg_xy d c flx dirY) as [aY|]; [|done].
  destruct (adv_vertical avg_xy d c flx) as [aZ|]; [|done].
  cbn [mbind result_bind] in H. injection H as <-.
  exists aZ. split; [done|]. unfold normalize.
  rewrite bool_decide_eq_true_2 by done. by rewrite andb_false_r.
Qed.

(** The components that [adv_tend] returns: the total and the mean
    component are computed from their fluxes (the total one is averaged
    afterwards when there is horizontal averaging); the turbulent component
    is computed from the explicit turbulent fluxes, except in the averaging
    directions, or it is the residual. *)
Lemma adv_tend_components (avg_xy : xfield -> xfield) (d : adv_data)
    (r : adv_result) :
  adv_tend avg_xy d = Ok r ->
  exists aR aM : dir -> xfield,
    adv_component avg_xy d adv_r (tot_flux d) = Ok aR
    /\ adv_component avg_xy d mean (mean_flux d) = Ok aM
    /\ (forall D, adv r adv_r D = if adv_hor_avg d then avg_xy (aR D) else aR D)
    /\ (forall D, adv r mean D = aM D)
    /\ match trb_flux d with
       | Some f =>
           exists aT, adv_component avg_xy d trb_r f = Ok aT
             /\ forall D,
                  (adv_hor_avg d = true ->
                   forall dn, dn ∈ adv_avg_dims d ->
                     dir_of_name (PyStr.upper dn) <> Some D) ->
                  adv r trb_r D = aT D
       | None => forall D, adv r trb_r D = xsub (adv r adv_r D) (adv r mean D)
       end.
Proof.
  intros H.
  destruct (adv_tend_inv avg_xy d r H) as (aR & aM & aT & r0 & ER & EM & ET & H0 & Hr).
  exists aR, aM. split; [done|]. split; [done|].
  unfold trb_exp in Hr.
  destruct (trb_flux d) as [f|] eqn:Hf; cbn [negb] in Hr.
  - destruct ET as (a & -> & Ea).
    destruct (adv_hor_avg d) eqn:Havg.
    + destruct (assign_avg_dims_spec _ _ _ Hr) as (Hother & _ & Hkeep).
      split; [|split].
      * intros D. destruct (Hother adv_r D) as [_ ->]; [done|].
        by destruct (H0 D) as (_ & _ & _ & -> & _).
      * intros D. destruct (Hother mean D) as [_ ->]; [done|].
        by destruct (H0 D) as (_ & _ & _ & _ & -> & _).
      * exists a. split; [done|]. intros D HD.
        destruct (Hkeep D (HD eq_refl)) as [_ ->].
        by destruct (H0 D) as (_ & _ & _ & _ & _ & ->).
    + injection Hr as <-. split; [|split].
      * intros D. by destruct (H0 D) as (_ & _ & _ & -> & _).
      * intros D. by destruct (H0 D) as (_ & _ & _ & _ & -> & _).
      * exists a. split; [done|]. intros D _.
        by destruct (H0 D) as (_ & _ & _ & _ & _ & ->).
  - destruct (residual_all r0) as [Hother Hres].
    match type of Hr with Ok ?rf = _ => assert (r = rf) as -> by congruence end.
    split; [|split].
    + intros D. destruct (Hother adv_r D) as [_ ->]; [done|].
      by destruct (H0 D) as (_ & _ & _ & -> & _).
    + intros D. destruct (Hother mean D) as [_ ->]; [done|].
      by destruct (H0 D) as (_ & _ & _ & _ & -> & _).
    + intros D. destruct (Hres D) as [_ ->].
      destruct (Hother adv_r D) as [_ ->]; [done|].
      by destruct (Hother mean D) as [_ ->].
Qed.

(** The vertical tendency of one component of the vertical-velocity budget,
    as [adv_component] returns it. *)
Lemma adv_component_w (avg_xy : xfield -> xfield) (d : adv_data) (c : comp)
    (flx a : dir -> xfield) (f mu : field) (top dn mu0 mutop : val) :
  adv_component avg_xy d c flx = Ok a ->
  VAR d = "W" -> MU_STAG_MEAN d dirZ = Array mu ->
  xmul (maybe_avg avg_xy d c (rhod8z d)) (flx dirZ) = Array f ->
  length (DN d) = S (length f) -> length mu = S (length f) ->
  f !! (length f - 1) = Some top -> DN d !! (length f - 1) = Some dn ->
  mu !! 0 = Some mu0 -> mu !! length f = Some mutop ->
  exists az, a dirZ = Array az
    /\ length az = S (length f)
    /\ az !! 0 = Some (div (num zero) mu0)
    /\ az !! length f
       = Some (div (mul (div (mul (num two) top) dn) (num (- g)%Qc)) mutop).
Proof.
  intros Hac HW Hmu Hfz HDN Hlmu Htop Hdn Hmu0 Hmutop.
  destruct (adv_component_vertical avg_xy d c flx a Hac) as (z & Hz & HacZ).
  destruct (adv_vertical_w avg_xy d c flx f top dn HW Hfz HDN Htop Hdn)
    as (az & Ha & Hlen & Ha0 & Hatop).
  rewrite Ha in Hz. injection Hz as <-.
  rewrite HacZ, Hmu. cbn [xdiv xmap2].
  eexists. split; [reflexivity|].
  split; [rewrite length_zip_with; lia|]. split.
  - by rewrite lookup_zip_with, Ha0, Hmu0.
  - by rewrite lookup_zip_with, Hatop, Hmutop.
Qed.

Lemma zero_over (mu0 : val) (q : Qc) :
  mu0 = num q -> q <> zero -> div (num zero) mu0 = num zero.
Proof.
  intros -> Hq. cbn. destruct (Qc_eq_bool q zero) eqn:E.
  - by apply Qc_eq_bool_correct in E.
  - unfold num. by rewrite zero_div.
Qed.

Lemma Qc_eq_bool_false (x y : Qc) : Qc_eq_bool x y = false -> x <> y.
Proof.
  unfold Qc_eq_bool. intros H Heq.
  destruct (Qcanon.Qc_eq_dec x y) as [e|n]; [discriminate H|exact (n Heq)].
Qed.

(** The closure is linear in the flux: the difference of two closed
    tendencies is the closed tendency of the difference of the fluxes. *)
Lemma closure_surface_sub (mu0 : val) :
  sub (div (num zero) mu0) (div (num zero) mu0) = div (num zero) mu0.
Proof.
  destruct mu0 as [q|]; [|done]. cbn.
  destruct (Qc_eq_bool q zero); [done|]. cbn. unfold num. f_equal.
  rewrite zero_div. unfold zero. ring.
Qed.

Lemma closure_top_sub (t1 t2 dn mutop : val) :
  sub (div (mul (div (mul (num two) t1) dn) (num (- g)%Qc)) mutop)
      (div (mul (div (mul (num two) t2) dn) (num (- g)%Qc)) mutop)
  = div (mul (div (mul (num two) (sub t1 t2)) dn) (num (- g)%Qc)) mutop.
Proof.
  destruct t1 as [t1|], t2 as [t2|], dn as [dn|], mutop as [m|]; cbn;
    try (destruct (Qc_eq_bool dn zero) eqn:Edn; cbn);
    try (destruct (Qc_eq_bool m zero) eqn:Em; cbn); try done.
  unfold num. f_equal. apply Qc_eq_bool_false in Edn, Em.
  unfold zero in *. qc_consts. field. split; done.
Qed.

(** C4, as stated, fails: the vertical tendency that [adv_tend] returns at
    the model top is not twice the topmost flux over the level spacing.  With
    unit density, level spacing and dry-air mass and a topmost total vertical
    flux of 1, the value set at line 1502 is 2, but the value returned is
    2 * (-g) = -19.62: the tendency is multiplied by -g and divided by the
    dry-air mass afterwards. *)
Lemma top_tendency_counterexample :
  (r ← adv_tend id (sample_w sample_trb); Ok (adv r adv_r dirZ))
  = Ok (Array [num zero; num zero; num (Q2Qc (-981 # 50))])
  /\ div (mul (num two) (num one)) (num one) = num two
  /\ num (Q2Qc (-981 # 50)) <> num two.
Proof. repeat split; by_compute. Qed.

(** C4 (amended): for the vertical-velocity budget, the vertical advective
    tendency that [adv_tend] computes from the flux of a component (resolved
    total, mean, explicit resolved turbulent) is, at the surface (first
    staggered level), 0 / mu and so exactly zero where the dry-air mass mu
    is a non-zero number, and, at the model top (last staggered level),
    2 * fz / DN[-2] * (-g) / mu, where fz is the topmost vertical flux times
    the density [rhod8z] (horizontally averaged for the mean and turbulent
    component when there is horizontal averaging) and DN[-2] the last level
    spacing.  That tendency is what [adv_tend] returns for the mean
    component and for an explicit turbulent component (unless the vertical
    is an averaging direction), and for the total component, which is
    averaged horizontally afterwards when there is horizontal averaging.  A
    turbulent component without explicit flux is returned as the residual,
    total minus mean; without horizontal averaging it has the same values at
    the surface and at the top, with the difference of the two topmost
    fluxes as fz. *)
Theorem w_vertical_tendency (avg_xy : xfield -> xfield) (d : adv_data)
    (r : adv_result) (mu : field) :
  adv_tend avg_xy d = Ok r ->
  VAR d = "W" ->
  MU_STAG_MEAN d dirZ = Array mu ->
  (forall c flx f top dn mu0 mutop,
      fluxes d c = Some flx ->
      xmul (maybe_avg avg_xy d c (rhod8z d)) (flx dirZ) = Array f ->
      length (DN d) = S (length f) -> length mu = S (length f) ->
      f !! (length f - 1) = Some top -> DN d !! (length f - 1) = Some dn ->
      mu !! 0 = Some mu0 -> mu !! length f = Some mutop ->
      exists a,
        length a = S (length f)
        /\ a !! 0 = Some (div (num zero) mu0)
        /\ (forall q, mu0 = num q -> q <> zero -> a !! 0 = Some (num zero))
        /\ a !! length f
           = Some (div (mul (div (mul (num two) top) dn) (num (- g)%Qc)) mutop)
        /\ match c with
           | adv_r =>
               adv r adv_r dirZ = if adv_hor_avg d then avg_xy (Array a) else Array a
           | mean => adv r mean dirZ = Array a
           | trb_r =>
               (adv_hor_avg d = true ->
                forall dn, dn ∈ adv_avg_dims d ->
                  dir_of_name (PyStr.upper dn) <> Some dirZ) ->
               adv r trb_r dirZ = Array a
           end)
  /\ (trb_flux d = None ->
      adv r trb_r dirZ = xsub (adv r adv_r dirZ) (adv r mean dirZ)
      /\ (adv_hor_avg d = false ->
          forall fR fM topR topM dn mu0 mutop,
            xmul (rhod8z d) (tot_flux d dirZ) = Array fR ->
            xmul (rhod8z d) (mean_flux d dirZ) = Array fM ->
            length fM = length fR ->
            length (DN d) = S (length fR) -> length mu = S (length fR) ->
            fR !! (length fR - 1) = Some topR -> fM !! (length fR - 1) = Some topM ->
            DN d !! (length fR - 1) = Some dn ->
            mu !! 0 = Some mu0 -> mu !! length fR = Some mutop ->
            exists a,
              adv r trb_r dirZ = Array a
              /\ length a = S (length fR)
              /\ a !! 0 = Some (div (num zero) mu0)
              /\ a !! length fR
                 = Some (div (mul (div (mul (num two) (sub topR topM)) dn)
                                  (num (- g)%Qc)) mutop))).
Proof.
  intros H HW Hmu.
  destruct (adv_tend_components avg_xy d r H)
    as (aR & aM & ER & EM & HadvR & HadvM & HadvT).
  split.
  - intros c flx f top dn mu0 mutop Hflx Hfz HDN Hlmu Htop Hdn Hmu0 Hmutop.
    destruct c; cbn [fluxes] in Hflx.
    + injection Hflx as <-.
      destruct (adv_component_w avg_xy d adv_r (tot_flux d) aR f mu top dn mu0 mutop)
        as (az & Haz & Hlen & H0 & Htp); try done.
      exists az. split; [done|]. split; [done|]. split.
      { intros q Hq Hne. rewrite H0. f_equal. by eapply zero_over. }
      split; [done|]. by rewrite HadvR, Haz.
    + injection Hflx as <-.
      destruct (adv_component_w avg_xy d mean (mean_flux d) aM f mu top dn mu0 mutop)
        as (az & Haz & Hlen & H0 & Htp); try done.
      exists az. split; [done|]. split; [done|]. split.
      { intros q Hq Hne. rewrite H0. f_equal. by eapply zero_over. }
      split; [done|]. by rewrite HadvM, Haz.
    + rewrite Hflx in HadvT. destruct HadvT as (aT & ET & HT).
      destruct (adv_component_w avg_xy d trb_r flx aT f mu top dn mu0 mutop)
        as (az & Haz & Hlen & H0 & Htp); try done.
      exists az. split; [done|]. split; [done|]. split.
      { intros q Hq Hne. rewrite H0. f_equal. by eapply zero_over. }
      split; [done|]. intros Hdims. by rewrite (HT dirZ Hdims), Haz.
  - intros Hnone. rewrite Hnone in HadvT. split; [apply HadvT|].
    intros Havg fR fM topR topM dn mu0 mutop HfR HfM Hlen HDN Hlmu HtR HtM Hdn
      Hmu0 Hmutop.
    assert (HmR : maybe_avg avg_xy d adv_r (rhod8z d) = rhod8z d).
    { unfold maybe_avg, averaged. by rewrite Havg, andb_false_r. }
    assert (HmM : maybe_avg avg_xy d mean (rhod8z d) = rhod8z d).
    { unfold maybe_avg, averaged. by rewrite Havg, andb_false_r. }
    rewrite <- HmR in HfR. rewrite <- HmM in HfM.
    destruct (adv_component_w avg_xy d adv_r (tot_flux d) aR fR mu topR dn mu0
                mutop ER HW Hmu HfR HDN Hlmu HtR Hdn Hmu0 Hmutop)
      as (azR & HazR & HlR & H0R & HtpR).
    rewrite <- Hlen in HDN, Hlmu, HtM, Hdn, Hmutop.
    destruct (adv_component_w avg_xy d mean (mean_flux d) aM fM mu topM dn mu0
                mutop EM HW Hmu HfM HDN Hlmu HtM Hdn Hmu0 Hmutop)
      as (azM & HazM & HlM & H0M & HtpM).
    rewrite Hlen in *.
    rewrite (HadvT dirZ), HadvR, HadvM, Havg, HazR, HazM. cbn [xsub xmap2].
    eexists. split; [reflexivity|]. split; [rewrite length_zip_with; lia|]. split.
    + rewrite lookup_zip_with, H0R, H0M. cbn [mbind option_bind].
      f_equal. apply closure_surface_sub.
    + rewrite lookup_zip_with, HtpR, HtpM. cbn [mbind option_bind].
      f_equal. apply closure_top_sub.
Qed.

Lemma w_vertical_tendency_witness :
  exists a, (r ← adv_tend id (sample_w sample_trb); Ok (adv r mean dirZ)) = Ok (Array a)
    /\ a !! 0 = Some (num zero)
    /\ a !! 2 = Some (div (mul (div (mul (num two) (mul (num one) (num zero)))
                                    (num one))
                               (num (- g)%Qc)) (num one)).
Proof.
  destruct (adv_tend id (sample_w sample_trb)) as [r|e] eqn:E; [|by vm_compute in E].
  destruct (proj1 (w_vertical_tendency id (sample_w sample_trb) r
                     [num one; num one; num one] E eq_refl eq_refl)
              mean (mean_flux (sample_w sample_trb))
              [mul (num one) (num one); mul (num one) (num zero)]
              (mul (num one) (num zero)) (num one) (num one) (num one))
    as (a & _ & _ & H0 & Htop & Hadv); try reflexivity.
  exists a. cbn [mbind result_bind]. split; [by rewrite Hadv|].
  split; [|exact Htop].
  apply (H0 one); [reflexivity|]. intro Hq. discriminate Hq.
Defined.

(** * Further properties of the staggering algebra *)

Lemma removelast_replicate {A : Type} (n : nat) (v : A) :
  removelast (replicate (S n) v) = replicate n v.
Proof.
  induction n as [|n IH]; [done|].
  change (replicate (S (S n)) v) with (v :: replicate (S n) v).
  cbn [removelast]. change (replicate (S n) v) with (v :: replicate n v) at 1.
  cbv iota. by rewrite IH.
Qed.

Lemma last_replicate {A : Type} (n : nat) (v d : A) :
  List.last (replicate (S n) v) d = v.
Proof.
  induction n as [|n IH]; [done|].
  change (replicate (S (S n)) v) with (v :: replicate (S n) v).
  cbn [List.last]. change (replicate (S n) v) with (v :: replicate n v) at 1.
  cbv iota. exact IH.
Qed.

Lemma roll_up_replicate (n : nat) (v : val) :
  roll_up (replicate n v) = replicate n v.
Proof.
  destruct n as [|n]; [done|]. unfold roll_up.
  change (replicate (S n) v) with (v :: replicate n v) at 1.
  cbv iota. by rewrite last_replicate, removelast_replicate.
Qed.

Lemma shift_up_replicate (n : nat) (v : val) :
  shift_up (replicate (S n) v) = NaN :: replicate n v.
Proof.
  unfold shift_up. change (replicate (S n) v) with (v :: replicate n v) at 1.
  cbv iota. by rewrite removelast_replicate.
Qed.

Lemma zip_with_replicate {A B C : Type} (f : A -> B -> C) (n : nat) (a : A) (b : B) :
  zip_with f (replicate n a) (replicate n b) = replicate n (f a b).
Proof. induction n as [|n IH]; [done|]. cbn. by rewrite IH. Qed.

Lemma insert_snoc_replicate {A : Type} (n : nat) (v x : A) :
  <[n := v]> (replicate n v ++ [x]) = replicate (S n) v.
Proof.
  rewrite insert_app_r_alt by (rewrite length_replicate; lia).
  rewrite length_replicate, Nat.sub_diag. cbn. by rewrite <- replicate_S_end.
Qed.

Lemma half_double (c : Qc) : (half * (c + c) = c)%Qc.
Proof. qc_consts. field. qc_nonzero. Qed.

(** X1: periodic boundary idempotence of [stagger]: on a periodic horizontal
    axis a constant field is staggered to the same constant at every point,
    the boundary points included. *)
Theorem stagger_periodic_constant (c : Qc) (n : nat) (dim : string)
    (FNM FNP : weight) (ic : option interp_const) :
  dim ∈ xy -> 0 < n ->
  stagger (replicate n (num c)) dim FNM FNP true ic = Ok (replicate (S n) (num c)).
Proof.
  intros Hdim Hn. pose proof (eqb_bottom_top_xy dim Hdim) as Hbt.
  assert (Hne : replicate n (num c) <> []) by (destruct n; [lia|done]).
  rewrite (stagger_horizontal _ _ _ _ _ _ Hbt Hne), roll_up_replicate.
  unfold fadd, fmap2, fscale. rewrite zip_with_replicate, fmap_replicate.
  assert (E : mul (num half) (add (num c) (num c)) = num c).
  { cbn. unfold num. by rewrite half_double. }
  rewrite E.
  rewrite (post_stagger_periodic _ _ _ _ (num c) Hbt Hne).
  - by rewrite length_replicate, insert_snoc_replicate.
  - destruct n; [lia|done].
Qed.

Lemma stagger_periodic_constant_witness :
  stagger (replicate 3 (num two)) "x" w_default w_default true None
  = Ok (replicate 4 (num two)).
Proof.
  apply (stagger_periodic_constant two 3 "x" w_default w_default None).
  - by_compute.
  - lia.
Defined.

Lemma sub_self (c : Qc) : sub (num c) (num c) = num zero.
Proof. cbn. unfold num. f_equal. unfold zero. ring. Qed.

(** X2: [diff] of a constant field is zero: at all points of the staggered
    result, boundary points included, on a periodic horizontal axis; and at
    all points of the unstaggered result when the field is staggered,
    whatever the boundary treatment. *)
Theorem diff_constant (c : Qc) (n : nat) (dim : string) (cyc : bool) :
  dim ∈ xy -> 0 < n ->
  diff (replicate n (num c)) dim true = Ok (replicate (S n) (num zero))
  /\ diff (replicate n (num c)) (dim +:+ "_stag") cyc
     = Ok (replicate (n - 1) (num zero)).
Proof.
  intros Hdim Hn. pose proof (eqb_bottom_top_xy dim Hdim) as Hbt.
  destruct n as [|n]; [lia|]. split.
  - unfold diff.
    rewrite (diff_operand_cyclic _ _ (in_list_xy_one_sided dim Hdim)) by done.
    cbn [mbind result_bind]. rewrite (has_stag_xy_plain dim Hdim).
    rewrite roll_up_replicate.
    unfold fsub, fmap2. rewrite zip_with_replicate, sub_self.
    rewrite (post_stagger_periodic _ _ _ _ (num zero) Hbt); [|done|done].
    by rewrite length_replicate, insert_snoc_replicate.
  - unfold diff.
    assert (Hop : exists v, diff_operand (replicate (S n) (num c)) (dim +:+ "_stag") cyc
                            = Ok (v :: replicate n (num c))).
    { unfold diff_operand. destruct (_ || _).
      - exists NaN. by rewrite shift_up_replicate.
      - exists (num c). by rewrite roll_ok, roll_up_replicate. }
    destruct Hop as [v ->]. cbn [mbind result_bind].
    rewrite (has_stag_xy dim Hdim). f_equal.
    replace (S n - 1) with n by lia.
    change (replicate (S n) (num c)) with (num c :: replicate n (num c)).
    unfold fsub, fmap2. cbn [zip_with tail].
    by rewrite zip_with_replicate, sub_self.
Qed.

Lemma diff_constant_witness :
  diff (replicate 3 (num two)) "y" true = Ok (replicate 4 (num zero))
  /\ diff (replicate 3 (num two)) "y_stag" false = Ok (replicate 2 (num zero)).
Proof.
  apply (diff_constant two 3 "y" false).
  - by_compute.
  - lia.
Defined.

Lemma py_set_length (a a' : field) (i : Z) (v : val) :
  py_set a i v = Ok a' -> length a' = length a.
Proof.
  unfold py_set. destruct (py_pos (length a) i); [|done].
  intros [= <-]. apply length_insert.
Qed.

Lemma post_stagger_length (data_stag : field) (dim : string) (data : option field)
    (cyc : bool) (ic : option interp_const) (s : field) :
  post_stagger data_stag dim data cyc ic = Ok s -> length s = S (length data_stag).
Proof.
  unfold post_stagger, reindex_stag.
  assert (Hl : length (data_stag ++ [NaN]) = S (length data_stag)).
  { rewrite length_app. cbn. lia. }
  destruct (String.eqb dim "bottom_top").
  - destruct ic as [c|]; [|intros [= <-]; exact Hl].
    destruct data as [data|]; [|done].
    destruct (py_get data 0); [|done]. destruct (py_get data 1); [|done].
    destruct (py_get data 2); [|done]. cbn [mbind result_bind].
    destruct (py_set (data_stag ++ [NaN]) 0 _) as [s0|] eqn:E0; [|done].
    cbn [mbind result_bind].
    destruct (py_get data (-1)); [|done]. destruct (py_get data (-2)); [|done].
    cbn [mbind result_bind]. intros Hs.
    apply py_set_length in Hs. apply py_set_length in E0. lia.
  - destruct (bool_decide (data_stag = [])); [done|]. destruct cyc.
    + destruct (py_get (data_stag ++ [NaN]) 0); [|done]. cbn [mbind result_bind].
      intros Hs. apply py_set_length in Hs. lia.
    + intros Hs. apply py_set_length in Hs. lia.
Qed.

Lemma stagger_length (data : field) (dim : string) (FNM FNP : weight)
    (cyc : bool) (ic : option interp_const) (s : field) :
  stagger data dim FNM FNP cyc ic = Ok s -> length s = S (length data).
Proof.
  unfold stagger. destruct (String.eqb dim "bottom_top").
  - unfold wmul. rewrite length_shift_up.
    destruct (weight_covers (length data) FNM) eqn:HM; [|done].
    destruct (weight_covers (length data) FNP) eqn:HP; [|done].
    cbn [mbind result_bind]. intros Hs. apply post_stagger_length in Hs.
    by rewrite Hs, length_stagger_vertical_operand.
  - destruct data as [|x data]; [done|].
    rewrite roll_ok by done. cbn [mbind result_bind]. intros Hs.
    apply post_stagger_length in Hs.
    by rewrite Hs, length_stagger_xy_operand.
Qed.

(** X3: the shapes of the staggering algebra: a successful [stagger] adds one
    point to the axis, a successful [destagger] removes one; [diff] succeeds
    on every axis that has a point, and it removes one point of a staggered
    axis and adds one to an unstaggered axis. *)
Theorem staggering_shapes (data : field) (dim : string) (cyc : bool) :
  (forall FNM FNP ic s,
      stagger data dim FNM FNP cyc ic = Ok s -> length s = S (length data))
  /\ (forall rename r, destagger data dim rename = Ok r ->
        length r = length data - 1)
  /\ (data <> [] ->
      exists out, diff data dim cyc = Ok out
        /\ length out = if has_stag dim then length data - 1 else S (length data)).
Proof.
  split; [|split].
  - intros FNM FNP ic s. apply stagger_length.
  - intros rename r. unfold destagger.
    destruct (rename && negb (has_stag dim)); [done|]. intros [= <-].
    rewrite length_removelast', length_fscale. unfold fadd.
    rewrite length_fmap2; [done|]. by rewrite length_shift_down.
  - intros Hne. destruct (has_stag dim) eqn:Hstag.
    + destruct (diff_staggered data dim cyc Hstag Hne) as (out & Hout & Hlen & _).
      by exists out.
    + destruct (in_list dim diff_one_sided_dims) eqn:Hone.
      * destruct (diff_unstaggered_shift data dim cyc Hstag) as (out & Hout & Hlen & _);
          [by left|by right|]. by exists out.
      * destruct cyc.
        -- destruct (diff_unstaggered_roll data dim Hstag Hone Hne)
             as (out & Hout & Hlen & _). by exists out.
        -- destruct (diff_unstaggered_shift data dim false Hstag)
             as (out & Hout & Hlen & _); [by right|by right|]. by exists out.
Qed.

Lemma staggering_shapes_witness :
  exists out, diff [num one; num two] "x" true = Ok out /\ length out = 3.
Proof.
  apply (proj2 (proj2 (staggering_shapes [num one; num two] "x" true))).
  discriminate.
Defined.

Lemma py_get_short (a : field) (k : nat) :
  length a <= k -> py_get a (Z.of_nat k) = Raise IndexError.
Proof.
  intros H. unfold py_get, py_pos.
  destruct (Z.leb_spec 0 (Z.of_nat k)); [|lia].
  destruct (Z.ltb_spec (Z.of_nat k) (Z.of_nat (length a))); [lia|done].
Qed.

(** X4: errors of the staggering algebra.  On the vertical axis [stagger]
    raises a ValueError when a weight array is not aligned with the column;
    with aligned weights it fails only with extrapolation constants, and
    exactly when the column has fewer than three levels (IndexError).  On
    every other axis it succeeds when the axis has a point and fails when it
    has none.  [destagger] fails exactly when it is to rename a dimension
    whose name has no "_stag" (ValueError). *)
Theorem staggering_errors (data : field) (dim : string) (FNM FNP : weight)
    (cyc : bool) :
  (weight_covers (length data) FNM = false
   \/ weight_covers (length data) FNP = false ->
   forall ic, exists msg,
     stagger data "bottom_top" FNM FNP cyc ic = Raise (ValueError msg))
  /\ (weight_covers (length data) FNM = true ->
      weight_covers (length data) FNP = true ->
      (forall c, length data < 3 ->
         stagger data "bottom_top" FNM FNP cyc (Some c) = Raise IndexError)
      /\ (forall c, 3 <= length data ->
            exists s, stagger data "bottom_top" FNM FNP cyc (Some c) = Ok s)
      /\ (exists s, stagger data "bottom_top" FNM FNP cyc None = Ok s))
  /\ (forall ic, String.eqb dim "bottom_top" = false ->
        (data <> [] -> exists s, stagger data dim FNM FNP cyc ic = Ok s)
        /\ (data = [] -> exists e, stagger data dim FNM FNP cyc ic = Raise e))
  /\ (forall rename,
        (exists r, destagger data dim rename = Ok r)
        <-> (rename = true -> has_stag dim = true))
  /\ (forall rename e, destagger data dim rename = Raise e ->
        exists msg, e = ValueError msg).
Proof.
  split; [|split; [|split; [|split]]].
  - intros Hw ic. unfold stagger, wmul.
    cbn [String.eqb Ascii.eqb Bool.eqb]. rewrite length_shift_up.
    destruct (weight_covers (length data) FNM); [|by eexists].
    destruct Hw as [Hw|Hw]; [done|]. rewrite Hw. by eexists.
  - intros HM HP. split; [|split].
    + intros c Hlen. rewrite (stagger_vertical _ _ _ _ _ HM HP).
      unfold post_stagger. cbn [String.eqb Ascii.eqb Bool.eqb].
      destruct data as [|d0 [|d1 [|d2 data]]]; cbn in Hlen; try lia; reflexivity.
    + intros c Hlen.
      destruct (lookup_lt_is_Some_2 data 0) as [d0 H0]; [lia|].
      destruct (lookup_lt_is_Some_2 data 1) as [d1 H1]; [lia|].
      destruct (lookup_lt_is_Some_2 data 2) as [d2 H2]; [lia|].
      destruct (lookup_lt_is_Some_2 data (length data - 1)) as [dl Hl]; [lia|].
      destruct (lookup_lt_is_Some_2 data (length data - 2)) as [dl2 Hl2]; [lia|].
      rewrite (stagger_vertical _ _ _ _ _ HM HP).
      rewrite (post_stagger_vertical_const _ data cyc c d0 d1 d2 dl dl2) by done.
      by eexists.
    + rewrite (stagger_vertical _ _ _ _ _ HM HP), post_stagger_vertical_plain.
      by eexists.
  - intros ic Hbt. split.
    + intros Hne. rewrite (stagger_horizontal _ _ _ _ _ _ Hbt Hne).
      assert (Hne' : fscale (num half) (fadd data (roll_up data)) <> []).
      { apply nonempty_length. rewrite length_stagger_xy_operand.
        by apply nonempty_length. }
      destruct cyc.
      * destruct (post_stagger_periodic_ends _ dim (Some data) ic Hbt Hne')
          as (s & Hs & _). by exists s.
      * destruct (post_stagger_open_ends _ dim (Some data) ic Hbt Hne')
          as (s & Hs & _). by exists s.
    + intros ->. unfold stagger. rewrite Hbt. by eexists.
  - intros rename. unfold destagger.
    destruct rename, (has_stag dim); cbn [andb negb]; split;
      try (intros _; by eexists); try done.
    + intros [r Hr]. done.
    + intros H. by specialize (H eq_refl).
  - intros rename e. unfold destagger.
    destruct (rename && negb (has_stag dim)); [|done].
    intros [= <-]. by eexists.
Qed.

Lemma staggering_errors_witness :
  stagger [num one; num two] "bottom_top" w_default w_default false
    (Some (InterpConst (num one) (num one) (num one) (num one) (num one)))
  = Raise IndexError.
Proof.
  apply (proj1 (proj1 (proj2 (staggering_errors [num one; num two] "x"
                                w_default w_default false))
                  eq_refl eq_refl)).
  cbn. lia.
Defined.

(** X5: the values of [diff] on an axis that has a point: from a staggered
    to an unstaggered axis, the first-order differences data[i+1] - data[i];
    on a periodic horizontal axis (unstaggered to staggered), the backward
    differences, the first one wrapping around to the last sample, and the
    upper boundary point equal to the lower one. *)
Theorem diff_values (data : field) (dim : string) (cyc : bool) :
  dim ∈ xy -> data <> [] ->
  (exists out, diff data (dim +:+ "_stag") cyc = Ok out
     /\ forall i x y, data !! i = Some y -> data !! S i = Some x ->
          out !! i = Some (sub x y))
  /\ (exists out, diff data dim true = Ok out
        /\ (forall i x y, data !! i = Some y -> data !! S i = Some x ->
              out !! S i = Some (sub x y))
        /\ (forall x0 xl, data !! 0 = Some x0 -> data !! (length data - 1) = Some xl ->
              out !! 0 = Some (sub x0 xl)
              /\ out !! length data = Some (sub x0 xl))).
Proof.
  intros Hdim Hne. split.
  - destruct (diff_staggered data (dim +:+ "_stag") cyc (has_stag_xy dim Hdim) Hne)
      as (out & Hout & _ & Hv).
    exists out. split; [done|]. intros i x y Hy Hx. by apply Hv.
  - destruct (diff_unstaggered_roll data dim (has_stag_xy_plain dim Hdim)
                (in_list_xy_one_sided dim Hdim) Hne)
      as (out & Hout & _ & Hv & Hends).
    exists out. split; [done|]. split; [|done].
    intros i x y Hy Hx. by apply Hv.
Qed.

Lemma diff_values_witness :
  exists out, diff [num one; num two; num four] "x_stag" false = Ok out
    /\ out !! 0 = Some (sub (num two) (num one)).
Proof.
  destruct (proj1 (diff_values [num one; num two; num four] "x" false
                     ltac:(by_compute) ltac:(discriminate)))
    as (out & Hout & Hv).
  exists out. split; [exact Hout|]. by apply Hv.
Defined.

(** * Further properties of the budget methods *)

Lemma in_list_elem_of (s : string) (l : list string) : in_list s l = true <-> s ∈ l.
Proof.
  unfold in_list. rewrite existsb_exists. split.
  - intros (x & Hx & Heq). apply String.eqb_eq in Heq. subst x.
    by apply list_elem_of_In.
  - intros H. exists s. split; [by apply list_elem_of_In | apply String.eqb_refl].
Qed.

Lemma in_list_bool_decide (s : string) (l : list string) :
  in_list s l = bool_decide (s ∈ l).
Proof.
  apply eq_true_iff_eq. rewrite in_list_elem_of. by rewrite bool_decide_eq_true.
Qed.

Lemma filter_nil_Forall {A : Type} (f : A -> bool) (l : list A) :
  List.filter f l = [] <-> Forall (fun x => f x = false) l.
Proof.
  induction l as [|a l IH]; [by split; [constructor|]|].
  cbn. destruct (f a) eqn:E.
  - split; [done|]. intros H. apply Forall_cons in H as [H _]. congruence.
  - rewrite IH. split; [by constructor|]. by intros [_ ?]%Forall_cons.
Qed.

Lemma config_lookup (keys : list string) (k : string) :
  foldl (fun (config : gmap string bool) k => <[k := in_list k keys]> config)
        ∅ budget_settings !! k
  = if bool_decide (k ∈ budget_settings) then Some (bool_decide (k ∈ keys)) else None.
Proof.
  unfold budget_settings. cbn [foldl].
  case_bool_decide as Hk; rewrite ?in_list_bool_decide.
  - repeat (apply elem_of_cons in Hk as [->|Hk]; [by simplify_map_eq|]).
    by apply elem_of_nil in Hk.
  - repeat (apply not_elem_of_cons in Hk as [? Hk]).
    by rewrite !lookup_insert_ne by done.
Qed.

(** X6: [get_budget_method] succeeds exactly when every key of the method
    (after abbreviations are replaced) is a budget setting; the settings
    dictionary then has exactly the four settings, each one True exactly when
    it is among the keys, and the name of the method is the method string
    ("native" for the empty string).  Otherwise a ValueError is raised. *)
Theorem get_budget_method_spec (budget_method : string) :
  (Forall (fun key => key ∈ budget_settings) (method_keys budget_method) ->
     exists c, get_budget_method budget_method
               = Ok (c, if String.eqb budget_method "" then "native" else budget_method)
       /\ forall k, c !! k = if bool_decide (k ∈ budget_settings)
                             then Some (bool_decide (k ∈ method_keys budget_method))
                             else None)
  /\ (~ Forall (fun key => key ∈ budget_settings) (method_keys budget_method) ->
        exists msg, get_budget_method budget_method = Raise (ValueError msg)).
Proof.
  assert (Hgen : forall (name : string) (words : list string),
    let keys := (fun key => default key (settings_short_names !! key)) <$> words in
    let undefined := List.filter (fun key => negb (in_list key budget_settings)) keys in
    (Forall (fun key => key ∈ budget_settings) keys -> undefined = [])
    /\ (~ Forall (fun key => key ∈ budget_settings) keys -> undefined <> [])).
  { intros name words keys undefined. split.
    - intros Hall. apply filter_nil_Forall. eapply Forall_impl; [exact Hall|].
      intros k Hk. cbv beta in *. apply negb_false_iff. by apply in_list_elem_of.
    - intros Hnot Hu. apply Hnot. apply filter_nil_Forall in Hu.
      eapply Forall_impl; [exact Hu|]. intros k Hk. cbv beta in *.
      apply negb_false_iff in Hk. by apply in_list_elem_of. }
  unfold get_budget_method, method_keys.
  destruct (String.eqb budget_method "") eqn:Hempty.
  - destruct (Hgen "native" []) as [H1 H2]. split.
    + intros Hall. rewrite (H1 Hall). cbn [length Nat.ltb Nat.leb].
      eexists. split; [reflexivity|]. intros k. apply config_lookup.
    + intros Hnot. specialize (H2 Hnot).
      destruct (List.filter _ _) as [|u us]; [done|]. by eexists.
  - destruct (Hgen budget_method (PyStr.split_space budget_method)) as [H1 H2]. split.
    + intros Hall. rewrite (H1 Hall). cbn [length Nat.ltb Nat.leb].
      eexists. split; [reflexivity|]. intros k. apply config_lookup.
    + intros Hnot. specialize (H2 Hnot).
      destruct (List.filter _ _) as [|u us]; [done|]. by eexists.
Qed.

Lemma get_budget_method_spec_witness :
  exists c, get_budget_method "cartesian 2nd" = Ok (c, "cartesian 2nd")
    /\ c !! "force_2nd_adv" = Some true /\ c !! "dz_out_x" = Some false.
Proof.
  destruct (proj1 (get_budget_method_spec "cartesian 2nd")) as (c & Hc & Hk).
  - by_compute.
  - exists c. split; [exact Hc|]. split.
    + rewrite (Hk "force_2nd_adv"). reflexivity.
    + rewrite (Hk "dz_out_x"). reflexivity.
Defined.

(** X7: the kernels of one budget method.  Processing a budget method has
    one of three outcomes.  The settings are refused (unknown key, or dz_out
    without cartesian, or both dz_out settings): a ValueError, and the state
    (stored files and kernel calls) is as it was.  Or the advective tendency
    refuses the fluxes after the total tendency was called: a KeyError or a
    ValueError, and exactly these two calls were made.  Or the settings of
    the method are returned and, in this order and with these settings, the
    total tendency, the advective tendency and, exactly when the method
    selects cartesian, the Cartesian corrections were called.  No file is
    touched. *)
Theorem process_method_kernels (dat : model_output) (var : string)
    (cyclic : gmap string bool) (budget_method : string) (w : world) :
  match process_method dat var cyclic budget_method w with
  | (Ok c, w') =>
      exists (name : string) (dz_out force cartesian : bool),
        get_budget_method budget_method = Ok (c, name)
        /\ check_dz_out c = Ok dz_out
        /\ c !! "force_2nd_adv" = Some force
        /\ adv_tend_check dat (PyStr.upper var) force = Ok tt
        /\ c !! "cartesian" = Some cartesian
        /\ files w' = files w
        /\ trace w' = trace w
             ++ [EvTotalTend var name dz_out cyclic; EvAdvTend var name c cyclic]
             ++ (if cartesian then [EvCartCorr var name dz_out cyclic] else [])
  | (Raise e, w') =>
      files w' = files w
      /\ ((w' = w /\ (exists msg, e = ValueError msg)
           /\ (get_budget_method budget_method = Raise e
               \/ exists c name, get_budget_method budget_method = Ok (c, name)
                    /\ check_dz_out c = Raise e))
          \/ (exists (c : gmap string bool) (name : string) (dz_out force : bool),
                get_budget_method budget_method = Ok (c, name)
                /\ check_dz_out c = Ok dz_out
                /\ c !! "force_2nd_adv" = Some force
                /\ adv_tend_check dat (PyStr.upper var) force = Raise e
                /\ ((exists msg, e = ValueError msg) \/ (exists key, e = KeyError key))
                /\ trace w' = trace w
                     ++ [EvTotalTend var name dz_out cyclic;
                         EvAdvTend var name c cyclic]))
  end.
Proof.
  pose proof (process_method_cases dat var cyclic budget_method w) as H.
  destruct (get_budget_method budget_method) as [[c name]|e] eqn:Hbm.
  2:{ rewrite H. split; [done|]. left. split; [done|].
      split; [by eapply get_budget_method_error|by left]. }
  destruct (check_dz_out c) as [dz_out|e] eqn:Hdz.
  2:{ rewrite H. split; [done|]. left. split; [done|].
      split; [by eapply check_dz_out_error|]. right. by exists c, name. }
  destruct H as (force & cart & Hforce & Hcart & H). cbv zeta in H.
  destruct (adv_tend_check dat (PyStr.upper var) force) as [[]|e] eqn:Hadv;
    rewrite H.
  - by exists name, dz_out, force, cart.
  - split; [done|]. right. exists c, name, dz_out, force.
    repeat (split; [done|]). split; [|done].
    by eapply adv_tend_check_error.
Qed.

(** * Further properties of the tiles *)

Lemma concat_full_chunks (k size : nat) :
  concat ((fun i => seq (i * size) size) <$> seq 0 k) = seq 0 (k * size).
Proof.
  induction k as [|k IH]; [done|].
  rewrite seq_S, fmap_app, concat_app, IH. cbn [fmap list_fmap concat].
  rewrite app_nil_r. replace (S k * size) with (k * size + size) by lia.
  by rewrite seq_app.
Qed.

Lemma concat_own_ranges (m size N : nat) :
  0 < m -> (m - 1) * size <= N ->
  concat ((fun i => seq (i * size)
                        (if (i =? m - 1)%nat then N - i * size else size))
            <$> seq 0 m) = seq 0 N.
Proof.
  intros Hm HN. destruct m as [|m]; [lia|].
  replace (S m - 1) with m in * by lia.
  rewrite seq_S, fmap_app, concat_app. cbn [fmap list_fmap concat].
  rewrite app_nil_r, Nat.eqb_refl.
  rewrite (list_fmap_ext _ (fun i => seq (i * size) size) (seq 0 m)).
  - rewrite concat_full_chunks.
    replace N with (m * size + (N - m * size)) at 2 by lia.
    by rewrite seq_app.
  - intros i x Hx. apply lookup_seq in Hx as [-> Hi].
    destruct (Nat.eqb_spec (0 + i) m); [lia|done].
Qed.

Lemma length_bounds_pos (n size : nat) :
  0 < size -> 0 < n -> 0 < length (bounds n size).
Proof.
  intros Hs Hn. rewrite length_bounds.
  apply Nat.div_str_pos. lia.
Qed.

(** X8: the tiles partition the domain.  For a chunked horizontal axis of
    [n] points (and its staggered variant of [n + 1] points), cutting out
    every tile with its halo and stripping the boundary points of the tile
    leaves, tile after tile, every point of the axis exactly once and in
    order. *)
Theorem stripped_tiles_partition (dim : string) (n size : nat) :
  dim ∈ xy -> 0 < size -> 0 < n ->
  let b := bounds n size in
  concat ((fun i => stripped_tile dim b i 1 n) <$> seq 0 (length b)) = seq 0 n
  /\ concat ((fun i => stripped_tile (dim +:+ "_stag") b i 2 (S n))
               <$> seq 0 (length b)) = seq 0 (S n).
Proof.
  intros Hdim Hsize Hn b.
  pose proof (length_bounds_pos n size Hsize Hn) as Hlen.
  assert (Hlast : (length b - 1) * size <= n).
  { apply Nat.lt_le_incl, bounds_lt; [done|]. subst b. lia. }
  split.
  - rewrite <- (concat_own_ranges (length b) size n) by done.
    f_equal. apply list_fmap_ext. intros i x Hx.
    apply lookup_seq in Hx as [-> Hi]. cbn [Nat.add] in *.
    unfold stripped_tile. subst b.
    by destruct (stripped_tile_own_range dim n size i Hdim Hsize Hi) as [-> _].
  - rewrite <- (concat_own_ranges (length b) size (S n)) by (done || lia).
    f_equal. apply list_fmap_ext. intros i x Hx.
    apply lookup_seq in Hx as [-> Hi]. cbn [Nat.add] in *.
    unfold stripped_tile. subst b.
    by destruct (stripped_tile_own_range dim n size i Hdim Hsize Hi) as [_ ->].
Qed.

Lemma stripped_tiles_partition_witness :
  concat ((fun i => stripped_tile "x" (bounds 10 4) i 1 10)
            <$> seq 0 (length (bounds 10 4))) = seq 0 10.
Proof.
  exact (proj1 (stripped_tiles_partition "x" 10 4
                  ltac:(by_compute) ltac:(lia) ltac:(lia))).
Defined.

Lemma create_tiles_loop_cases (dims : gmap string nat) (items : list (string * nat))
    (st : tiling) :
  match create_tiles_loop dims items st with
  | Ok _ => Forall (fun kv => is_Some (dims !! kv.1) /\ 0 < kv.2) items
  | Raise e =>
      (exists msg, e = ValueError msg)
      /\ Exists (fun kv => dims !! kv.1 = None \/ kv.2 = 0) items
  end.
Proof.
  revert st. induction items as [|[dim size] items IH]; intros st; cbn [create_tiles_loop].
  - constructor.
  - destruct (dims !! dim) as [n|] eqn:Hn.
    2:{ split; [by eexists|]. left. by left. }
    destruct (Nat.eqb_spec size 0) as [->|Hs].
    { split; [by eexists|]. left. by right. }
    destruct (length (bounds n size) =? 1)%nat.
    + specialize (IH {| tiles := tiles st;
                        chunks_left := del_key dim (chunks_left st);
                        printed := printed st ++ [one_chunk_message dim] |}).
      destruct (create_tiles_loop _ _ _).
      * constructor; [|done]. cbn. rewrite Hn. split; [done|lia].
      * destruct IH as [? ?]. split; [done|]. by right.
    + specialize (IH {| tiles := tiles st ++ [iloc dim (bounds n size)];
                        chunks_left := chunks_left st;
                        printed := printed st |}).
      destruct (create_tiles_loop _ _ _).
      * constructor; [|done]. cbn. rewrite Hn. split; [done|lia].
      * destruct IH as [? ?]. split; [done|]. by right.
Qed.

(** X9: the errors of [create_tiles], for chunk sizes that are natural
    numbers (the sizes that this development covers; the code has no test of
    the sign).  It returns tiles only if every chunking dimension is a
    dimension of the data and no chunk size is zero; and when it fails, the
    error is a ValueError and some chunking dimension is missing from the
    data or has chunk size zero. *)
Theorem create_tiles_errors (dims : gmap string nat) (chunks : list (string * nat)) :
  match create_tiles dims chunks with
  | Ok t =>
      Forall (fun kv => is_Some (dims !! kv.1) /\ kv.2 <> 0) chunks
      /\ tiles t = product (partitions dims chunks)
  | Raise e =>
      (exists msg, e = ValueError msg)
      /\ Exists (fun kv => dims !! kv.1 = None \/ kv.2 = 0) chunks
  end.
Proof.
  unfold create_tiles.
  pose proof (create_tiles_loop_cases dims chunks
                {| tiles := []; chunks_left := chunks; printed := ["Create tasks"] |}) as H.
  destruct (create_tiles_loop _ _ _) as [st|e] eqn:E; cbn [mbind result_bind]; [|done].
  split.
  { eapply Forall_impl; [exact H|]. intros kv [? ?]. split; [done|lia]. }
  cbn [tiles].
  rewrite create_tiles_loop_spec in E.
  - by injection E as <-.
  - intros dim size Hin. rewrite Forall_forall in H. exact (H (dim, size) Hin).
Qed.

Lemma lookup_take_every {A : Type} (fuel step : nat) (l : list A) (k : nat) :
  0 < step -> length l <= fuel ->
  take_every fuel step l !! k = l !! (k * step).
Proof.
  intros Hstep. revert fuel l. induction k as [|k IH]; intros fuel l Hfuel.
  - destruct fuel, l; cbn in *; try done; lia.
  - destruct fuel as [|fuel], l as [|x l]; cbn [take_every]; cbn [length] in Hfuel;
      try done; try lia.
    change ((x :: take_every fuel step (drop step (x :: l))) !! S k)
      with (take_every fuel step (drop step (x :: l)) !! k).
    rewrite IH by (rewrite length_drop; cbn [length]; lia).
    rewrite lookup_drop. reflexivity.
Qed.

(** X10: the tiles are dealt out round robin.  With at least one processor,
    processor [rank] gets as its [k]-th tile the tile number
    [rank + k * nproc] of the list of all tiles (and no tile beyond the end of
    the list); with zero processors the slice raises a ValueError. *)
Theorem tiles_round_robin {A : Type} (rank nproc : nat) (l : list A) :
  (0 < nproc ->
     exists mine, slice_from_step rank nproc l = Ok mine
       /\ forall k, mine !! k = l !! (rank + k * nproc))
  /\ (nproc = 0 -> exists msg, slice_from_step rank nproc l = Raise (ValueError msg)).
Proof.
  unfold slice_from_step. split.
  - intros Hn. destruct (Nat.eqb_spec nproc 0); [lia|].
    eexists. split; [reflexivity|]. intros k.
    rewrite lookup_take_every, lookup_drop; [done|done|].
    rewrite length_drop. lia.
  - intros ->. by eexists.
Qed.

Lemma tiles_round_robin_witness :
  exists mine, slice_from_step 1 3 [10; 11; 12; 13; 14; 15; 16] = Ok mine
    /\ mine !! 1 = Some 14 /\ mine !! 2 = None.
Proof.
  destruct (proj1 (tiles_round_robin 1 3 [10; 11; 12; 13; 14; 15; 16]) ltac:(lia))
    as (mine & Hm & Hk).
  exists mine. split; [exact Hm|]. split; [exact (Hk 1)|exact (Hk 2)].
Defined.

Lemma elem_of_product {A : Type} (ls : list (list A)) (t : list A) :
  t ∈ product ls -> Forall2 (fun x l => x ∈ l) t ls.
Proof.
  revert t. induction ls as [|l ls IH]; intros t; cbn [product].
  - intros ->%list_elem_of_singleton. constructor.
  - intros (x & Ht & Hx)%list_elem_of_bind.
    apply list_elem_of_bind in Ht as (r & Ht & Hr).
    apply list_elem_of_singleton in Ht as ->.
    constructor; [done|]. by apply IH.
Qed.

Lemma merge_tile_is_Some (tile : list (gmap string slice)) (m : gmap string slice)
    (k : string) :
  m ∈ tile -> is_Some (m !! k) -> is_Some (merge_tile tile !! k).
Proof.
  unfold merge_tile. intros Hm Hk.
  assert (Hgen : forall acc : gmap string slice,
            is_Some (acc !! k) \/ (exists m, m ∈ tile /\ is_Some (m !! k)) ->
            is_Some (foldl (fun acc d => d ∪ acc) acc tile !! k)).
  { clear m Hm Hk. induction tile as [|d tile IH]; intros acc [H|(m & Hm & Hk)]; cbn [foldl].
    - done.
    - by apply elem_of_nil in Hm.
    - apply IH. left. rewrite lookup_union. destruct H as [v ->].
      by destruct (d !! k).
    - apply elem_of_cons in Hm as [->|Hm].
      + apply IH. left. rewrite lookup_union. destruct Hk as [v ->].
        by destruct (acc !! k).
      + apply IH. right. by exists m. }
  apply Hgen. right. by exists m.
Qed.

Lemma created_tile_has_partition (dims : gmap string nat)
    (chunks : list (string * nat)) (t : tiling) (tile : list (gmap string slice))
    (dim : string) (size n : nat) :
  create_tiles dims chunks = Ok t -> tile ∈ tiles t ->
  (dim, size) ∈ chunks -> dims !! dim = Some n ->
  length (bounds n size) <> 1 ->
  exists i, iloc_b dim (bounds n size) i ∈ tile.
Proof.
  intros Ht Htile Hin Hn Hlen.
  pose proof (create_tiles_loop_cases dims chunks
                {| tiles := []; chunks_left := chunks; printed := ["Create tasks"] |}) as Hc.
  unfold create_tiles in Ht.
  destruct (create_tiles_loop _ _ _) as [st|e] eqn:E; cbn [mbind result_bind] in Ht; [|done].
  rewrite create_tiles_loop_spec in E.
  2:{ intros d s Hd. rewrite Forall_forall in Hc. exact (Hc (d, s) Hd). }
  injection E as <-. injection Ht as <-. cbn [tiles app] in Htile.
  apply elem_of_product in Htile.
  pose proof (elem_of_partitions dims chunks dim size n Hin Hn Hlen) as Hp.
  apply list_elem_of_lookup in Hp as [j Hj].
  destruct (Forall2_lookup_r _ _ _ _ _ Htile Hj) as (m & Hm & Hmi).
  apply list_elem_of_fmap in Hmi as (i & -> & _).
  exists i. by eapply list_elem_of_lookup_2.
Qed.

Lemma core_cyclic_tile_false (dat : model_output) (tile : gmap string slice)
    (dim : string) :
  dim ∈ xy -> is_Some (tile !! dim) ->
  core_cyclic dat (Some tile) !! dim = Some false.
Proof.
  intros Hxy [s Hs]. rewrite core_cyclic_lookup, Hs.
  rewrite bool_decide_eq_false_2 by done.
  revert Hxy. unfold xy. rewrite !elem_of_cons, elem_of_nil.
  intros [-> | [-> | []]]; unfold core_cyclic; cbn [foldl xy];
    simplify_map_eq; cbn; rewrite ?andb_false_r; done.
Qed.

(** X11: a chunked dimension is never periodic in a tile.  Every tile that
    [create_tiles] returns has, once its dictionaries are merged, a slice for
    every kept chunking dimension and for its staggered variant; so the
    dictionary [cyclic] of the per-tile computation has the periodicity flag
    of that dimension False, whatever the periodicity of the domain is. *)
Theorem chunked_dimension_not_periodic (dat : model_output) (dims : gmap string nat)
    (chunks : list (string * nat)) (t : tiling) (tile : list (gmap string slice))
    (dim : string) (size n : nat) :
  create_tiles dims chunks = Ok t -> tile ∈ tiles t ->
  (dim, size) ∈ chunks -> dim ∈ xy -> dims !! dim = Some n ->
  length (bounds n size) <> 1 ->
  is_Some (merge_tile tile !! dim)
  /\ is_Some (merge_tile tile !! (dim +:+ "_stag"))
  /\ core_cyclic dat (Some (merge_tile tile)) !! dim = Some false.
Proof.
  intros Ht Htile Hin Hxy Hn Hlen.
  destruct (created_tile_has_partition dims chunks t tile dim size n Ht Htile Hin Hn Hlen)
    as [i Hin1].
  destruct (iloc_b_lookup dim (bounds n size) i) as [H1 H2].
  assert (Hs1 : is_Some (merge_tile tile !! dim)).
  { eapply merge_tile_is_Some; [exact Hin1|]. by rewrite H1. }
  split; [done|]. split.
  - eapply merge_tile_is_Some; [exact Hin1|]. by rewrite H2.
  - by apply core_cyclic_tile_false.
Qed.

Lemma chunked_dimension_not_periodic_witness :
  core_cyclic (ModelOutput true true {[ "x" := 10; "y" := 6 ]} false false [])
              (Some (merge_tile [iloc_b "x" (bounds 10 4) 1; iloc_b "y" (bounds 6 3) 0]))
    !! "x" = Some false.
Proof.
  refine (proj2 (proj2 (chunked_dimension_not_periodic _ {[ "x" := 10; "y" := 6 ]}
            [("x", 4); ("y", 3)]
            {| tiles := product (partitions {[ "x" := 10; "y" := 6 ]} [("x", 4); ("y", 3)]);
               chunks_left := [("x", 4); ("y", 3)];
               printed := ["Create tasks"] |}
            [iloc_b "x" (bounds 10 4) 1; iloc_b "y" (bounds 6 3) 0]
            "x" 4 10 _ _ _ _ _ _)));
    [vm_compute; reflexivity | by_compute..].
Defined.
(** * The files of the drivers *)

Lemma file_change_refl (R Q : string -> Prop) (w : world) : file_change R Q w w.
Proof. split; intros p Hp; by left. Qed.

Lemma file_change_trans (R Q : string -> Prop) (w1 w2 w3 : world) :
  file_change R Q w1 w2 -> file_change R Q w2 w3 -> file_change R Q w1 w3.
Proof.
  intros [S1 N1] [S2 N2]. split.
  - intros p Hp. destruct (S1 p Hp) as [H|H]; [by apply S2|by right].
  - intros p Hp. destruct (N2 p Hp) as [H|H]; [by apply N1|by right].
Qed.

Lemma changes_weaken (R Q R' Q' : string -> Prop) {A : Type} (m : M A) :
  (forall p, R p -> R' p) -> (forall p, Q p -> Q' p) ->
  changes_files R Q m -> changes_files R' Q' m.
Proof.
  intros HR HQ Hm w. destruct (Hm w) as [Hs Hn]. split.
  - intros p Hp. destruct (Hs p Hp); [by left|right; by apply HR].
  - intros p Hp. destruct (Hn p Hp); [by left|right; by apply HQ].
Qed.

Section ChangesFiles.
Context (R Q : string -> Prop).

Lemma changes_retM {A : Type} (a : A) : changes_files R Q (retM a).
Proof. intros w. apply file_change_refl. Qed.

Lemma changes_raise {A : Type} (e : exn) : changes_files R Q (raiseM e : M A).
Proof. intros w. apply file_change_refl. Qed.

Lemma changes_lift {A : Type} (r : result A) : changes_files R Q (liftM r).
Proof. intros w. apply file_change_refl. Qed.

Lemma changes_emit (e : event) : changes_files R Q (emit e).
Proof. intros w. split; cbn; intros p Hp; by left. Qed.

Lemma changes_file_exists (path : string) : changes_files R Q (file_exists path).
Proof. intros w. apply file_change_refl. Qed.

Lemma changes_save_file (path : string) :
  Q path -> changes_files R Q (save_file path).
Proof.
  intros HQ w. split; cbn; intros p Hp.
  - left. apply elem_of_union. by left.
  - apply elem_of_union in Hp as [Hp| ->%elem_of_singleton]; [by left|by right].
Qed.

Lemma changes_remove_file (path : string) :
  R path -> changes_files R Q (remove_file path).
Proof.
  intros HR w. split; cbn; intros p Hp.
  - destruct (decide (p = path)) as [->|Hne]; [by right|].
    left. apply elem_of_difference. split; [done|].
    by intros ->%elem_of_singleton.
  - left. by apply elem_of_difference in Hp as [Hp _].
Qed.

Lemma changes_bind {A B : Type} (m : M A) (k : A -> M B) :
  changes_files R Q m -> (forall a, changes_files R Q (k a)) ->
  changes_files R Q (m ≫= k).
Proof.
  intros Hm Hk w. rewrite bindM_eq. specialize (Hm w).
  destruct (m w) as [[a|e] w']; cbn [snd] in *; [|done].
  eapply file_change_trans; [exact Hm|]. apply Hk.
Qed.

Lemma changes_for_each {A : Type} (l : list A) (body : A -> M unit) :
  (forall a, a ∈ l -> changes_files R Q (body a)) ->
  changes_files R Q (for_each l body).
Proof.
  induction l as [|a l IH]; intros Hb; cbn [for_each].
  - apply changes_retM.
  - apply changes_bind; [apply Hb; by left|]. intros _. apply IH.
    intros b Hb'. apply Hb. by right.
Qed.

Lemma changes_process_method (dat : model_output) (var : string)
    (cyclic : gmap string bool) (m : string) :
  changes_files R Q (process_method dat var cyclic m).
Proof.
  unfold process_method.
  apply changes_bind; [apply changes_lift|]. intros [c name].
  apply changes_bind; [apply changes_lift|]. intros dz_out.
  apply changes_bind; [apply changes_emit|]. intros _.
  apply changes_bind; [apply changes_emit|]. intros _.
  apply changes_bind; [apply changes_lift|]. intros force.
  apply changes_bind; [apply changes_lift|]. intros _.
  apply changes_bind; [apply changes_lift|]. intros cartesian.
  apply changes_bind; [|intros _; apply changes_retM].
  destruct cartesian; [apply changes_emit|apply changes_retM].
Qed.

Lemma changes_process_methods (dat : model_output) (var : string)
    (cyclic : gmap string bool) (ms : list string) (done : list (gmap string bool)) :
  changes_files R Q (process_methods dat var cyclic ms done).
Proof.
  revert done. induction ms as [|m ms IH]; intros done; cbn [process_methods].
  - apply changes_retM.
  - apply changes_bind; [apply changes_process_method|]. intros c. apply IH.
Qed.

Lemma changes_load_postproc (var avg : string) (cartesian : bool) :
  changes_files R Q (load_postproc var avg cartesian).
Proof.
  unfold load_postproc.
  apply changes_bind; [apply changes_emit|]. intros _.
  apply changes_for_each. intros f _.
  apply changes_bind; [apply changes_file_exists|]. intros ex.
  destruct ex; [apply changes_retM|apply changes_raise].
Qed.

(** [save_tiles] writes the file; only the first task writes and removes the
    template. *)
Lemma changes_save_tiles (fpath : string) (task : option nat) :
  Q fpath ->
  (task = Some 0 -> R (fpath +:+ ".tmp") /\ Q (fpath +:+ ".tmp")) ->
  changes_files R Q (save_tiles fpath task).
Proof.
  intros HQ Htmp. unfold save_tiles.
  apply changes_bind; [apply changes_file_exists|]. intros ex.
  apply changes_bind; [by apply changes_save_file|]. intros _.
  apply changes_bind.
  - destruct (negb ex); [|apply changes_retM].
    apply changes_bind.
    + case_bool_decide as Hfirst; [|apply changes_retM].
      destruct (Htmp Hfirst) as [HR HQ'].
      apply changes_bind; [apply changes_file_exists|]. intros tmp_ex.
      apply changes_bind; [|intros _; by apply changes_save_file].
      destruct tmp_ex; [by apply changes_remove_file|apply changes_retM].
    + intros _. apply changes_bind; [apply changes_file_exists|]. intros tmp_ex.
      destruct tmp_ex; [apply changes_retM|apply changes_raise].
  - intros _. case_bool_decide as Hfirst; [|apply changes_retM].
    destruct (Htmp Hfirst) as [HR HQ'].
    destruct (negb ex); [by apply changes_remove_file|apply changes_raise].
Qed.

End ChangesFiles.

Lemma written_outfiles_outfiles (configs : list (gmap string bool)) (dn : string) :
  dn ∈ written_outfiles configs -> dn ∈ outfiles.
Proof.
  unfold written_outfiles, outfiles.
  destruct (existsb _ configs); cbn [app];
    rewrite !elem_of_cons, !elem_of_nil; tauto.
Qed.

Section CoreFiles.
Context (dat : model_output) (o : options) (tile : option (gmap string slice))
        (task : option nat) (avg : string).

Lemma changes_process_variable (cyclic : gmap string bool) (cartesian : bool)
    (var : string) :
  changes_files (core_removes o tile task avg [var]) (core_adds o tile task avg [var])
                (process_variable dat o tile task cyclic avg cartesian var).
Proof.
  unfold process_variable.
  apply changes_bind; [intros w; apply file_change_refl|]. intros complete.
  destruct (skip_exist o && complete).
  - apply changes_bind; [apply changes_emit|]. intros _.
    apply changes_bind; [apply changes_load_postproc|]. intros _.
    apply changes_retM.
  - apply changes_bind; [apply changes_emit|]. intros _.
    apply changes_bind; [apply changes_process_methods|]. intros [|c configs].
    + apply changes_raise.
    + apply changes_bind; [apply changes_emit|]. intros _.
      apply changes_bind; [|intros _; apply changes_retM].
      destruct (save_output o) eqn:Hsave; [|apply changes_retM].
      apply changes_for_each. intros dn Hdn.
      apply written_outfiles_outfiles in Hdn.
      assert (Hout : core_adds o tile task avg [var] (fpath var dn avg)).
      { unfold core_adds. rewrite Hsave. split; [done|]. exists var, dn.
        split; [by left|]. split; [done|by left]. }
      destruct (decide (tile = None)) as [Ht|Ht].
      * rewrite Ht at 3. by apply changes_save_file.
      * assert (Hsome : match tile with
                        | None => save_file (fpath var dn avg)
                        | Some _ => save_tiles (fpath var dn avg) task
                        end = save_tiles (fpath var dn avg) task)
          by (by destruct tile).
        rewrite Hsome.
        apply changes_save_tiles; [done|]. intros Htask. split.
        -- unfold core_removes. rewrite Hsave. do 3 (split; [done|]).
           exists var, dn. split; [by left|done].
        -- unfold core_adds. rewrite Hsave. split; [done|]. exists var, dn.
           split; [by left|]. split; [done|]. by right.
Qed.

Lemma changes_process_variables (cyclic : gmap string bool) (cartesian : bool)
    (variables : list string) (acc : list (string * bool)) :
  changes_files (core_removes o tile task avg variables)
                (core_adds o tile task avg variables)
    (process_variables dat o tile task cyclic avg cartesian variables acc).
Proof.
  revert acc. induction variables as [|var variables IH]; intros acc;
    cbn [process_variables].
  - apply changes_retM.
  - apply changes_bind.
    + eapply changes_weaken; [| |apply changes_process_variable].
      * intros p (Hs & Ht & Hk & v & dn & Hv & Hdn & ->).
        apply list_elem_of_singleton in Hv as ->.
        repeat (split; [done|]). exists var, dn. split; [by left|done].
      * intros p (Hs & v & dn & Hv & Hdn & Hp).
        apply list_elem_of_singleton in Hv as ->.
        split; [done|]. exists var, dn. split; [by left|done].
    + intros computed. eapply changes_weaken; [| |apply IH].
      * intros p (Hs & Ht & Hk & v & dn & Hv & Hdn & ->).
        repeat (split; [done|]). exists v, dn. split; [by right|done].
      * intros p (Hs & v & dn & Hv & Hdn & Hp).
        split; [done|]. exists v, dn. split; [by right|done].
Qed.

End CoreFiles.

(** X12: the files of the core driver.  Without a tile,
    [calc_tendencies_core] never removes a stored file; with a tile, only
    the first task removes files, and only templates [<output file>.tmp] of
    [save_tiles].  Every file that is added is an output file
    [VAR/<outfile><avg>.nc] of one of the requested variables or, with a
    tile and for the first task, the template of one.  Files are written and
    removed only when [save_output] is on: with [save_output] off the stored
    files are unchanged. *)
Theorem core_file_effects (dat : model_output) (variables : list string)
    (o : options) (tile : option (gmap string slice)) (task : option nat)
    (w : world) :
  let w' := (calc_tendencies_core dat variables o tile task w).2 in
  (forall p, p ∈ files w -> p ∉ files w' ->
     save_output o = true /\ tile <> None /\ task = Some 0
     /\ template_file variables o p)
  /\ (forall p, p ∈ files w' -> p ∉ files w ->
        save_output o = true
        /\ (output_file variables o p
            \/ (tile <> None /\ task = Some 0 /\ template_file variables o p)))
  /\ (tile = None -> files w ⊆ files w')
  /\ (save_output o = false -> files w' = files w).
Proof.
  set (Rm := fun p => save_output o = true /\ tile <> None /\ task = Some 0
                      /\ template_file variables o p).
  set (Ad := fun p => save_output o = true
                      /\ (output_file variables o p
                          \/ (tile <> None /\ task = Some 0
                              /\ template_file variables o p))).
  assert (H : changes_files Rm Ad (calc_tendencies_core dat variables o tile task)).
  { unfold calc_tendencies_core.
    apply changes_bind; [apply changes_emit|]. intros _.
    apply changes_bind; [apply changes_lift|]. intros _.
    intros w0. rewrite bindM_eq. unfold liftM at 1.
    destruct (avg_suffix o) as [avg|e] eqn:Havg; [|apply file_change_refl].
    revert w0. change (changes_files Rm Ad
      (emit (EvPrepare (core_cyclic dat tile)) ;;
       datout_all ← process_variables dat o tile task (core_cyclic dat tile) avg
                      (any_cartesian o) variables [];
       match tile with
       | None => retM (OutData datout_all (return_model_output o))
       | Some _ => retM OutNone
       end)).
    apply changes_bind; [apply changes_emit|]. intros _.
    apply changes_bind.
    - eapply changes_weaken; [| |apply changes_process_variables].
      + intros p (Hs & Ht & Hk & v & dn & Hv & Hdn & ->).
        repeat (split; [done|]). exists (fpath v dn avg). split; [|done].
        by exists avg, v, dn.
      + intros p (Hs & v & dn & Hv & Hdn & Hp). split; [done|].
        destruct Hp as [->|(Ht & Hk & ->)].
        * left. by exists avg, v, dn.
        * right. repeat (split; [done|]). exists (fpath v dn avg).
          split; [|done]. by exists avg, v, dn.
    - intros datout. destruct tile; apply changes_retM. }
  intros w'. destruct (H w) as [Hold Hnew]. fold w' in Hold, Hnew.
  split; [|split; [|split]].
  - intros p Hp Hnp. by destruct (Hold p Hp).
  - intros p Hp Hnp. by destruct (Hnew p Hp).
  - intros Ht p Hp. destruct (Hold p Hp) as [|(_ & Hne & _)]; done.
  - intros Hsave. apply set_eq. intros p. split.
    + intros Hp. destruct (Hnew p Hp) as [|[Hs _]]; [done|congruence].
    + intros Hp. destruct (Hold p Hp) as [|[Hs _]]; [done|congruence].
Qed.

Lemma core_file_effects_witness :
  files (calc_tendencies_core (ModelOutput true true ∅ false false [])
           ["t"]
           {| budget_methods := Str "cartesian"; hor_avg := false; avg_dims := None;
              skip_exist := false; save_output := false; return_model_output := false |}
           None None {| files := {[ "T/grid.nc" ]}; trace := [] |}).2
  = {[ "T/grid.nc" ]}.
Proof.
  exact (proj2 (proj2 (proj2 (core_file_effects
    (ModelOutput true true ∅ false false []) ["t"]
    {| budget_methods := Str "cartesian"; hor_avg := false; avg_dims := None;
       skip_exist := false; save_output := false; return_model_output := false |}
    None None {| files := {[ "T/grid.nc" ]}; trace := [] |}))) eq_refl).
Defined.

(** * The driver [calc_tendencies] *)

Lemma check_existing_force_files (env : mpi) (o : options) (avg : string)
    (paths : list (string * string)) (w : world) :
  skip_exist o = false ->
  exists w', check_existing env o avg paths false w = (Ok false, w')
    /\ files w' = if (rank env =? 0)%nat
                  then files w ∖ list_to_set ((fun p => fpath p.2 p.1 avg) <$> paths)
                  else files w.
Proof.
  intros Hskip. revert w.
  induction paths as [|[outfile var] paths IH]; intros w; cbn [check_existing].
  - exists w. split; [done|]. destruct (rank env =? 0)%nat; [|done].
    cbn. by rewrite difference_empty_L.
  - rewrite bindM_eq. unfold file_exists at 1.
    case_bool_decide as Hex.
    + rewrite bindM_eq, Hskip. cbn [negb andb].
      destruct (rank env =? 0)%nat eqn:Hrank.
      * unfold remove_file at 1.
        destruct (IH {| files := files w ∖ {[fpath var outfile avg]};
                        trace := trace w ++ [EvRemove (fpath var outfile avg)] |})
          as (w' & Hw' & Hf).
        exists w'. split; [done|]. rewrite Hf. cbn.
        by rewrite difference_difference_l_L.
      * cbn. apply IH.
    + destruct (IH w) as (w' & Hw' & Hf). exists w'. split; [done|].
      rewrite Hf. destruct (rank env =? 0)%nat; [|done]. cbn.
      rewrite <- difference_difference_l_L. f_equal.
      apply set_eq. intros p. rewrite elem_of_difference, elem_of_singleton.
      split; [|by intros []]. intros Hp. split; [done|]. by intros ->.
Qed.

(** X13: the check for stored output (lines 1779-1794 of [calc_tendencies]).
    The check never fails.  With [skip_exist] on, it removes nothing and
    tells to skip exactly when all files looked for are stored.  With
    [skip_exist] off, it never tells to skip, and afterwards none of the
    files looked for is stored any more on the first worker (rank 0), which
    removes exactly these; the other workers leave the files alone. *)
Theorem check_existing_files (env : mpi) (o : options) (avg : string)
    (paths : list (string * string)) (w : world) :
  exists w',
    check_existing env o avg paths (skip_exist o) w
    = (Ok (skip_exist o
           && forallb (fun p : string * string =>
                         bool_decide (fpath p.2 p.1 avg ∈ files w)) paths), w')
    /\ (skip_exist o = true -> w' = w)
    /\ files w' = if negb (skip_exist o) && (rank env =? 0)%nat
                  then files w ∖ list_to_set ((fun p => fpath p.2 p.1 avg) <$> paths)
                  else files w.
Proof.
  destruct (skip_exist o) eqn:Hskip.
  - exists w. rewrite check_existing_keep by done. done.
  - destruct (check_existing_force_files env o avg paths w Hskip) as (w' & Hw' & Hf).
    exists w'. cbn [negb andb]. done.
Qed.

Lemma check_existing_files_witness :
  exists w',
    check_existing {| rank := 0; nproc := 1; has_comm := false |}
      {| budget_methods := Str "cartesian"; hor_avg := false; avg_dims := None;
         skip_exist := false; save_output := true; return_model_output := false |}
      "" [("grid", "t"); ("adv", "t")] false
      {| files := {[ "T/grid.nc"; "Q/grid.nc" ]}; trace := [] |}
    = (Ok false, w')
    /\ files w' = {[ "Q/grid.nc" ]}.
Proof.
  destruct (check_existing_files {| rank := 0; nproc := 1; has_comm := false |}
      {| budget_methods := Str "cartesian"; hor_avg := false; avg_dims := None;
         skip_exist := false; save_output := true; return_model_output := false |}
      "" [("grid", "t"); ("adv", "t")]
      {| files := {[ "T/grid.nc"; "Q/grid.nc" ]}; trace := [] |})
    as (w' & Hw' & _ & Hf).
  exists w'. split; [exact Hw'|]. rewrite Hf. by_compute.
Defined.

Lemma existsb_elem_of {A : Type} (f : A -> bool) (l : list A) (x : A) :
  x ∈ l -> f x = true -> existsb f l = true.
Proof.
  intros Hx Hf. apply existsb_exists. exists x. split; [|done].
  by apply list_elem_of_In.
Qed.

(** X14: the chunk dictionary is validated before anything is computed.
    Unless the stored output is reused, a chunking dimension other than x
    and y, or (with horizontal averaging) a chunking dimension that is an
    averaging dimension, makes [calc_tendencies] raise a ValueError; until
    then nothing has been loaded or computed (at most stored files have been
    removed). *)
Theorem chunks_validated (env : mpi) (dat : model_output)
    (variables : list string) (o : options) (chunks : list (string * nat))
    (w : world) (avg : string) :
  avg_suffix o = Ok avg ->
  skip_exist o && all_stored w avg (any_cartesian o) variables = false ->
  (exists d, d ∈ chunks.*1 /\ d ∉ xy)
  \/ (hor_avg o = true
      /\ exists d l, d ∈ chunks.*1 /\ avg_dims o = Some l /\ d ∈ l) ->
  exists msg w1,
    calc_tendencies env dat variables o (Some chunks) w = (Raise (ValueError msg), w1)
    /\ extends (fun e => is_computation e = false) w w1.
Proof.
  intros Havg Hskip Hbad.
  destruct (calc_tendencies_cases env dat variables o (Some chunks) w avg Havg)
    as (w1 & Hext & _ & ->).
  rewrite Hskip.
  destruct (existsb (fun c => negb (in_list c xy)) chunks.*1) eqn:Hxy.
  { eexists _, w1. split; [reflexivity|done]. }
  destruct Hbad as [(d & Hd & Hnxy) | (Havg' & d & l & Hd & Hl & Hdl)].
  - exfalso. rewrite (existsb_elem_of _ _ d Hd) in Hxy; [done|].
    apply negb_true_iff. apply not_true_is_false. by rewrite in_list_elem_of.
  - rewrite Havg', Hl. cbn [default andb].
    rewrite (existsb_elem_of _ _ d Hd) by (by apply in_list_elem_of).
    eexists _, w1. split; [reflexivity|done].
Qed.

Lemma chunks_validated_witness :
  exists msg w1,
    calc_tendencies {| rank := 0; nproc := 2; has_comm := true |}
      (ModelOutput true true {[ "x" := 10; "y" := 6 ]} false false [])
      ["t"]
      {| budget_methods := Str "cartesian"; hor_avg := true; avg_dims := Some ["y"];
         skip_exist := true; save_output := true; return_model_output := false |}
      (Some [("x", 4); ("y", 3)]) {| files := ∅; trace := [] |}
    = (Raise (ValueError msg), w1).
Proof.
  destruct (chunks_validated {| rank := 0; nproc := 2; has_comm := true |}
      (ModelOutput true true {[ "x" := 10; "y" := 6 ]} false false [])
      ["t"]
      {| budget_methods := Str "cartesian"; hor_avg := true; avg_dims := Some ["y"];
         skip_exist := true; save_output := true; return_model_output := false |}
      [("x", 4); ("y", 3)] {| files := ∅; trace := [] |} "_avg_y")
    as (msg & w1 & H & _).
  - reflexivity.
  - by_compute.
  - right. split; [reflexivity|]. exists "y", ["y"]. repeat split; by_compute.
  - by exists msg, w1.
Defined.

(** * Chunked runs of [calc_tendencies] *)

Lemma emits_for_each_in (P : event -> Prop) {A : Type} (l : list A)
    (body : A -> M unit) :
  (forall a, a ∈ l -> emits P (body a)) -> emits P (for_each l body).
Proof.
  induction l as [|a l IH]; intros Hb; cbn [for_each].
  - apply emits_retM.
  - apply emits_bind; [apply Hb; by left|]. intros _. apply IH.
    intros b Hb'. apply Hb. by right.
Qed.

Lemma emits_bind_lift (P : event -> Prop) {A B : Type} (r : result A)
    (k : A -> M B) :
  (forall a, r = Ok a -> emits P (k a)) -> emits P (liftM r ≫= k).
Proof.
  intros Hk w. rewrite bindM_eq. unfold liftM at 1.
  destruct r as [a|e]; [|apply extends_refl]. by apply Hk.
Qed.

Lemma emits_check_existing (P : event -> Prop) (env : mpi) (o : options)
    (avg : string) (paths : list (string * string)) (skip : bool) :
  (forall p, P (EvRemove p)) -> emits P (check_existing env o avg paths skip).
Proof.
  intros HP. revert skip.
  induction paths as [|[outfile var] paths IH]; intros skip; cbn [check_existing].
  - apply emits_ret.
  - apply emits_bind; [apply emits_file_exists|]. intros ex. destruct ex; [|apply IH].
    apply emits_bind; [|intros _; apply IH].
    destruct (negb (skip_exist o) && (rank env =? 0)%nat);
      [by apply emits_remove_file|apply emits_ret].
Qed.

Lemma emits_load_all (P : event -> Prop) (variables : list string) (o : options)
    (avg : string) (cartesian : bool) :
  (forall e, event_cyclic e = None -> P e) ->
  emits P (load_all variables o avg cartesian).
Proof.
  intros HP. unfold load_all.
  apply emits_bind.
  { apply emits_for_each. intros var. by apply emits_load_postproc, HP. }
  intros _. apply emits_bind; [|intros _; apply emits_ret].
  destruct (return_model_output o); [by apply emits_emit, HP|apply emits_ret].
Qed.

Lemma elem_of_enumerate {A : Type} (l : list A) (i : nat) (x : A) :
  (i, x) ∈ imap (fun i t => (i, t)) l -> x ∈ l.
Proof.
  intros H. apply list_elem_of_lookup in H as [k Hk].
  rewrite list_lookup_imap in Hk.
  destruct (l !! k) as [y|] eqn:Hy; [|done].
  cbn in Hk. injection Hk as _ <-. by eapply list_elem_of_lookup_2.
Qed.

Lemma elem_of_slice_from_step {A : Type} (start step : nat) (l mine : list A) (x : A) :
  slice_from_step start step l = Ok mine -> x ∈ mine -> x ∈ l.
Proof.
  unfold slice_from_step. destruct (Nat.eqb_spec step 0) as [|Hs]; [done|].
  intros [= <-] Hx. apply list_elem_of_lookup in Hx as [k Hk].
  rewrite lookup_take_every in Hk; [|lia|rewrite length_drop; lia].
  rewrite lookup_drop in Hk. by eapply list_elem_of_lookup_2.
Qed.



Lemma for_each_result {A : Type} (l : list A) (body : A -> M unit) (w : world) :
  forall r w', for_each l body w = (r, w') -> r = Ok tt \/ exists e, r = Raise e.
Proof.
  intros [[]|e] w' _; [by left|right; by eexists].
Qed.

(** X16: what a chunked run returns.  When [calc_tendencies] is run with
    chunks and returns without error, the result is the stored output of all
    variables read back from disk (none of it is handed over from the
    computation) if the stored output was reused or the worker is the first
    one (rank 0); every other worker returns nothing. *)
Theorem chunked_run_output (env : mpi) (dat : model_output)
    (variables : list string) (o : options) (chunks : list (string * nat))
    (w w' : world) (avg : string) (out : output) :
  avg_suffix o = Ok avg ->
  calc_tendencies env dat variables o (Some chunks) w = (Ok out, w') ->
  out = if (skip_exist o && all_stored w avg (any_cartesian o) variables)
           || (rank env =? 0)%nat
        then loaded o variables else OutNone.
Proof.
  intros Havg.
  destruct (calc_tendencies_cases env dat variables o (Some chunks) w avg Havg)
    as (w1 & _ & _ & ->).
  destruct (skip_exist o && all_stored w avg (any_cartesian o) variables); cbn [orb].
  { rewrite bindM_eq. unfold emit at 1. intros H.
    by apply load_all_result in H. }
  destruct (existsb _ _); [done|].
  destruct (hor_avg o && _); [done|].
  rewrite bindM_eq. unfold emit at 1. rewrite bindM_eq. unfold liftM at 1.
  destruct (create_tiles (dims dat) chunks) as [t|e]; [|done].
  rewrite bindM_eq. destruct (for_each (printed t) _ _) as [[[]|e] w2]; [|done].
  cbv zeta. rewrite bindM_eq. unfold liftM at 1.
  destruct (slice_from_step (rank env) (nproc env) _) as [mine|e]; [|done].
  rewrite bindM_eq. destruct (for_each mine _ _) as [[[]|e] w3]; [|done].
  rewrite bindM_eq.
  destruct (has_comm env).
  - unfold emit at 1. destruct (rank env =? 0)%nat.
    + intros H. by apply load_all_result in H.
    + by intros [= <- _].
  - cbn. destruct (rank env =? 0)%nat.
    + intros H. by apply load_all_result in H.
    + by intros [= <- _].
Qed.

Lemma chunked_run_output_witness :
  OutNone
  = if (true && all_stored {| files := ∅; trace := [] |} "" true ["t"]) || (1 =? 0)%nat
    then loaded {| budget_methods := Str "cartesian"; hor_avg := false;
                   avg_dims := None; skip_exist := true; save_output := true;
                   return_model_output := false |} ["t"]
    else OutNone.
Proof.
  refine (chunked_run_output {| rank := 1; nproc := 2; has_comm := true |}
       (ModelOutput true true {[ "x" := 4; "y" := 6 ]} false false [])
       ["t"]
       {| budget_methods := Str "cartesian"; hor_avg := false; avg_dims := None;
          skip_exist := true; save_output := true; return_model_output := false |}
       [("x", 4)] {| files := ∅; trace := [] |} _ "" OutNone _ _).
  - reflexivity.
  - vm_compute. reflexivity.
Defined.

(** * The coordinates of [fix_coords] *)

Lemma of_nat_S (i : nat) : of_nat (S i) = (of_nat i + 1)%Qc.
Proof.
  unfold of_nat. apply Qc_is_canon. unfold Qcplus, Q2Qc. cbn [this].
  rewrite !Qred_correct. rewrite Nat2Z.inj_succ. unfold Z.succ.
  by rewrite inject_Z_plus.
Qed.

Lemma fix_coords_coord_eq (n : nat) (res : Qc) :
  0 < n ->
  fix_coords_coord n res
  = Ok ((fun i => num (of_nat i * res - of_nat n * res / two)%Qc) <$> seq 0 n).
Proof.
  intros Hn. unfold fix_coords_coord. cbv zeta.
  set (coord := (fun i => mul (num (of_nat i)) (num res)) <$> seq 0 n).
  assert (Hlen : length coord = n) by (unfold coord; by rewrite length_fmap, length_seq).
  assert (Hlast : coord !! (length coord - 1) = Some (num (of_nat (n - 1) * res)%Qc)).
  { rewrite Hlen. unfold coord. rewrite list_lookup_fmap, lookup_seq_lt by lia. done. }
  rewrite (py_get_neg coord 1 _ : _ -> _ -> _ -> py_get _ (-1)%Z = _)
    by (done || lia).
  cbn [mbind result_bind]. f_equal. unfold coord. rewrite <- list_fmap_compose.
  apply list_fmap_ext. intros i x Hx. cbn. f_equal.
  destruct n as [|n]; [lia|]. replace (S n - 1) with n by lia.
  rewrite of_nat_S. qc_consts. field. qc_nonzero.
Qed.

(** X17: the horizontal coordinates of [fix_coords].  A dimension of [n >= 1]
    points with grid spacing [res] gets the coordinates
    [i * res - n * res / 2]; the coordinates of the staggered dimension
    ([n + 1] points) lie half a grid spacing below and above those of the
    unstaggered dimension, so every unstaggered point is the midpoint of its
    two staggered neighbours.  A dimension without points raises an
    IndexError. *)
Theorem fix_coords_coordinates (n : nat) (res : Qc) :
  fix_coords_coord 0 res = Raise IndexError
  /\ (0 < n ->
      exists c cs,
        fix_coords_coord n res = Ok c /\ fix_coords_coord (S n) res = Ok cs
        /\ length c = n /\ length cs = S n
        /\ forall i, i < n ->
             exists x, c !! i = Some (num x)
               /\ x = (of_nat i * res - of_nat n * res / two)%Qc
               /\ cs !! i = Some (num (x - res / two)%Qc)
               /\ cs !! S i = Some (num (x + res / two)%Qc)).
Proof.
  split; [reflexivity|]. intros Hn.
  rewrite !fix_coords_coord_eq by lia.
  eexists _, _. split; [reflexivity|]. split; [reflexivity|].
  split; [by rewrite length_fmap, length_seq|].
  split; [by rewrite length_fmap, length_seq|].
  intros i Hi. eexists. split.
  { rewrite list_lookup_fmap, lookup_seq_lt by lia. reflexivity. }
  cbn [Nat.add]. split; [reflexivity|]. split.
  - rewrite list_lookup_fmap, lookup_seq_lt by lia. cbn. do 2 f_equal.
    rewrite of_nat_S. qc_consts. field. qc_nonzero.
  - rewrite list_lookup_fmap, lookup_seq_lt by lia. cbn. do 2 f_equal.
    rewrite !of_nat_S. qc_consts. field. qc_nonzero.
Qed.

Lemma fix_coords_coordinates_witness :
  exists c cs,
    fix_coords_coord 4 (Q2Qc 100) = Ok c /\ fix_coords_coord 5 (Q2Qc 100) = Ok cs
    /\ c !! 0 = Some (num (Q2Qc (-200))) /\ cs !! 0 = Some (num (Q2Qc (-250))).
Proof.
  destruct (proj2 (fix_coords_coordinates 4 (Q2Qc 100)) ltac:(lia))
    as (c & cs & Hc & Hcs & _ & _ & H).
  destruct (H 0 ltac:(lia)) as (x & Hx & -> & Hs & _).
  exists c, cs. split; [exact Hc|]. split; [exact Hcs|]. split.
  - rewrite Hx. by_compute.
  - rewrite Hs. by_compute.
Defined.

(** * The dictionaries of [correct_dims_stag] *)

Lemma in_list_cons (k d : string) (l : list string) :
  in_list k (d :: l) = String.eqb k d || in_list k l.
Proof. reflexivity. Qed.

Lemma string_length_append (s1 s2 : string) :
  String.length (s1 +:+ s2) = String.length s1 + String.length s2.
Proof.
  induction s1 as [|a s1 IH]; [done|].
  change (S (String.length (s1 +:+ s2)) = S (String.length s1 + String.length s2)).
  by rewrite IH.
Qed.

Lemma string_append_inj_l (s d1 d2 : string) : d1 +:+ s = d2 +:+ s -> d1 = d2.
Proof.
  revert d2. induction d1 as [|a d1 IH]; intros [|b d2] H.
  - done.
  - apply (f_equal String.length) in H.
    change (String.length s = S (String.length (d2 +:+ s))) in H.
    rewrite string_length_append in H. lia.
  - apply (f_equal String.length) in H.
    change (S (String.length (d1 +:+ s)) = String.length s) in H.
    rewrite string_length_append in H. lia.
  - injection H as -> H. f_equal. by apply IH.
Qed.

Lemma stag_src_elem {V : Type} (items : list (string * V)) (k : string) (v : V) :
  stag_src items k = Some v -> exists d, k = d +:+ "_stag" /\ (d, v) ∈ items.
Proof.
  induction items as [|[d val] rest IH]; [done|]. cbn [stag_src].
  destruct (stag_src rest k) as [v'|].
  - intros [= ->]. destruct IH as (d' & -> & Hd'); [done|].
    exists d'. split; [done|]. by right.
  - destruct (String.eqb_spec (d +:+ "_stag") k) as [<-|]; [|done].
    intros [= ->]. exists d. split; [done|]. by left.
Qed.

Lemma stag_src_None {V : Type} (items : list (string * V)) (d : string) :
  d ∉ items.*1 -> stag_src items (d +:+ "_stag") = None.
Proof.
  induction items as [|[d' val] rest IH]; [done|]. cbn [stag_src fmap list_fmap fst].
  intros [Hne Hd]%not_elem_of_cons. rewrite (IH Hd).
  destruct (String.eqb_spec (d' +:+ "_stag") (d +:+ "_stag")) as [E|]; [|done].
  apply string_append_inj_l in E. congruence.
Qed.

Lemma stag_src_NoDup {V : Type} (items : list (string * V)) (d : string) (v : V) :
  NoDup items.*1 -> (d, v) ∈ items -> stag_src items (d +:+ "_stag") = Some v.
Proof.
  induction items as [|[d' val] rest IH]; intros Hnd Hin.
  - by apply elem_of_nil in Hin.
  - cbn [fmap list_fmap fst] in Hnd. apply NoDup_cons in Hnd as [Hd' Hnd].
    cbn [stag_src]. apply elem_of_cons in Hin as [[= <- <-]|Hin].
    + rewrite stag_src_None by done. by rewrite String.eqb_refl.
    + by rewrite (IH Hnd Hin).
Qed.

(** What the loop of [correct_dims_stag] leaves at key [k]. *)
Lemma correct_dims_stag_loop_spec {V : Type} (K D : list string)
    (items : list (string * V)) (m : gmap string V) :
  NoDup items.*1 ->
  (forall d, d ∈ items.*1 -> is_Some (m !! d)) ->
  (forall d, d ∈ items.*1 -> d ∈ K) ->
  exists out, correct_dims_stag_loop K D items m = Ok out
    /\ forall k, out !! k
         = if in_list k items.*1 && negb (in_list k D) then None
           else if in_list k D && negb (in_list k K)
                then match stag_src items k with
                     | Some v => Some v
                     | None => m !! k
                     end
                else m !! k.
Proof.
  revert m. induction items as [|[d val] rest IH]; intros m Hnd Hm HK.
  - exists m. split; [done|]. intros k. cbn.
    by destruct (in_list k D && negb (in_list k K)).
  - cbn [fmap list_fmap fst] in *. apply NoDup_cons in Hnd as [Hd Hnd].
    cbn [correct_dims_stag_loop].
    set (ds := d +:+ "_stag").
    set (m1 := if in_list ds D && negb (in_list ds K) then <[ds := val]> m else m).
    assert (HdK : in_list d K = true) by (apply in_list_elem_of, HK; by left).
    assert (Hdrest : in_list d rest.*1 = false).
    { apply not_true_is_false. by rewrite in_list_elem_of. }
    assert (Hm1 : forall k, m1 !! k
              = if String.eqb ds k && (in_list k D && negb (in_list k K))
                then Some val else m !! k).
    { intros k. unfold m1. destruct (String.eqb_spec ds k) as [<-|Hne]; cbn [andb].
      - destruct (in_list ds D && negb (in_list ds K)); [|done].
        by rewrite lookup_insert_eq.
      - destruct (in_list ds D && negb (in_list ds K)); [|done].
        by rewrite lookup_insert_ne. }
    assert (Hm1d : is_Some (m1 !! d)).
    { rewrite Hm1, HdK. cbn [negb]. rewrite andb_false_r, andb_false_r.
      apply Hm. by left. }
    assert (Hrest : forall m2 : gmap string V,
              (forall k, k <> d -> m2 !! k = m1 !! k) ->
              forall d', d' ∈ rest.*1 -> is_Some (m2 !! d')).
    { intros m2 Hm2 d' Hd'. rewrite Hm2 by (intros ->; done).
      rewrite Hm1. destruct (String.eqb ds d' && _); [by eexists|].
      apply Hm. by right. }
    assert (HKrest : forall d', d' ∈ rest.*1 -> d' ∈ K).
    { intros d' Hd'. apply HK. by right. }
    destruct (in_list d D) eqn:HdD; cbn [negb].
    + destruct (IH m1 Hnd (Hrest m1 (fun _ _ => eq_refl)) HKrest) as (out & -> & Hout).
      exists out. split; [done|]. intros k. rewrite Hout, Hm1.
      rewrite in_list_cons. cbn [stag_src]. fold ds.
      destruct (String.eqb_spec k d) as [->|Hkd]; cbn [orb].
      * rewrite Hdrest, HdD, HdK. cbn [negb andb]. by rewrite andb_false_r.
      * destruct (in_list k rest.*1 && negb (in_list k D)); [done|].
        destruct (in_list k D && negb (in_list k K)); [|by rewrite andb_false_r].
        rewrite andb_true_r. destruct (stag_src rest k); [done|].
        by destruct (String.eqb ds k).
    + destruct Hm1d as [x Hx]. rewrite Hx.
      destruct (IH (delete d m1) Hnd) as (out & -> & Hout); [|done|].
      { apply Hrest. intros k Hk. by rewrite lookup_delete_ne. }
      exists out. split; [done|]. intros k. rewrite Hout.
      rewrite in_list_cons. cbn [stag_src]. fold ds.
      destruct (String.eqb_spec k d) as [->|Hkd]; cbn [orb].
      * rewrite Hdrest, HdD, HdK. cbn [negb andb].
        by rewrite lookup_delete_eq.
      * rewrite lookup_delete_ne by done. rewrite Hm1.
        destruct (in_list k rest.*1 && negb (in_list k D)); [done|].
        destruct (in_list k D && negb (in_list k K)); [|by rewrite andb_false_r].
        rewrite andb_true_r. destruct (stag_src rest k); [done|].
        by destruct (String.eqb ds k).
Qed.

(** X18: the keys of a location dictionary are fitted to the dimensions of
    the data.  For a dictionary [loc] (with distinct keys),
    [correct_dims_stag] never fails; every key of the result is a dimension
    of the data; a key of [loc] that is a dimension keeps its value; the
    staggered variant of a key of [loc] gets the value of that key when it is
    a dimension and not itself a key of [loc]; and the result has no other
    entries. *)
Theorem correct_dims_stag_spec {V : Type} (loc : list (string * V))
    (dat_dims : list string) :
  NoDup loc.*1 ->
  exists out, correct_dims_stag loc dat_dims = Ok out
    /\ (forall k, is_Some (out !! k) -> k ∈ dat_dims)
    /\ (forall d v, (d, v) ∈ loc -> d ∈ dat_dims -> out !! d = Some v)
    /\ (forall d v, (d, v) ∈ loc -> d +:+ "_stag" ∈ dat_dims ->
          d +:+ "_stag" ∉ loc.*1 -> out !! (d +:+ "_stag") = Some v)
    /\ (forall k v, out !! k = Some v ->
          (k, v) ∈ loc
          \/ exists d, k = d +:+ "_stag" /\ (d, v) ∈ loc /\ k ∉ loc.*1).
Proof.
  intros Hnd. unfold correct_dims_stag.
  destruct (correct_dims_stag_loop_spec loc.*1 dat_dims loc (list_to_map loc) Hnd)
    as (out & Hout & Hk).
  { intros d Hd. apply list_elem_of_fmap in Hd as ([d' v] & -> & Hin).
    exists v. by apply elem_of_list_to_map. }
  { done. }
  exists out. split; [done|].
  assert (Hkey : forall k, in_list k loc.*1 = false ->
            (list_to_map loc : gmap string V) !! k = None).
  { intros k Hf. apply not_elem_of_list_to_map.
    intros Hin. apply in_list_elem_of in Hin. congruence. }
  split; [|split; [|split]].
  - intros k [v Hv]. rewrite Hk in Hv. apply in_list_elem_of.
    destruct (in_list k dat_dims) eqn:HD; [done|]. cbn [negb andb] in Hv.
    rewrite andb_true_r in Hv.
    destruct (in_list k loc.*1) eqn:HK; [done|]. by rewrite Hkey in Hv.
  - intros d v Hin HD. rewrite Hk.
    apply in_list_elem_of in HD. rewrite HD. cbn [negb andb].
    rewrite andb_false_r.
    assert (HK : in_list d loc.*1 = true).
    { apply in_list_elem_of, list_elem_of_fmap. by exists (d, v). }
    rewrite HK. cbn [negb]. by apply elem_of_list_to_map.
  - intros d v Hin HD HnK. rewrite Hk.
    apply in_list_elem_of in HD. rewrite HD.
    assert (HK : in_list (d +:+ "_stag") loc.*1 = false).
    { apply not_true_is_false. by rewrite in_list_elem_of. }
    rewrite HK. cbn [negb andb]. by rewrite (stag_src_NoDup loc d v).
  - intros k v. rewrite Hk.
    destruct (in_list k loc.*1 && negb (in_list k dat_dims)); [done|].
    destruct (in_list k dat_dims && negb (in_list k loc.*1)) eqn:E.
    + apply andb_true_iff in E as [_ HK%negb_true_iff].
      rewrite (Hkey k HK). destruct (stag_src loc k) as [v'|] eqn:Hs; [|done].
      intros [= ->]. apply stag_src_elem in Hs as (d & -> & Hd).
      right. exists d. split; [done|]. split; [done|].
      intros Hin. apply in_list_elem_of in Hin. congruence.
    + intros Hv. left. by apply elem_of_list_to_map.
Qed.

Lemma correct_dims_stag_spec_witness :
  exists out, correct_dims_stag [("x", 3); ("y", 5); ("Time", 0)] ["Time"; "x_stag"; "y"]
              = Ok out
    /\ out !! "x_stag" = Some 3 /\ out !! "y" = Some 5.
Proof.
  destruct (correct_dims_stag_spec [("x", 3); ("y", 5); ("Time", 0)]
              ["Time"; "x_stag"; "y"] ltac:(by_compute))
    as (out & Hout & _ & Hkeep & Hstag & _).
  exists out. split; [exact Hout|]. split.
  - apply (Hstag "x" 3); by_compute.
  - apply (Hkeep "y" 5); by_compute.
Defined.

Lemma correct_dims_stag_list_dims (iterable dat_dims : list string) :
  Forall (fun d => d ∈ dat_dims) (correct_dims_stag_list iterable dat_dims).
Proof.
  unfold correct_dims_stag_list. apply Forall_forall. intros x Hx.
  apply list_elem_of_bind in Hx as (d & Hx & _).
  destruct (in_list d dat_dims) eqn:E1.
  { apply list_elem_of_singleton in Hx as ->. by apply in_list_elem_of. }
  destruct (in_list (d +:+ "_stag") dat_dims) eqn:E2.
  - apply list_elem_of_singleton in Hx as ->. by apply in_list_elem_of.
  - by apply elem_of_nil in Hx.
Qed.

Lemma correct_dims_stag_list_id (l dat_dims : list string) :
  Forall (fun d => d ∈ dat_dims) l -> correct_dims_stag_list l dat_dims = l.
Proof.
  unfold correct_dims_stag_list. induction 1 as [|d l Hd _ IH]; [done|].
  cbn [mbind list_bind]. apply in_list_elem_of in Hd. rewrite Hd.
  cbn [app]. f_equal. exact IH.
Qed.

(** X19: lists of dimensions are fitted to the data.
    [correct_dims_stag_list] returns only dimensions of the data, each one an
    item of the input or the staggered variant of an item that is not itself
    a dimension; a list of dimensions of the data is returned unchanged, so
    correcting twice is the same as correcting once. *)
Theorem correct_dims_stag_list_spec (iterable dat_dims : list string) :
  let out := correct_dims_stag_list iterable dat_dims in
  (forall x, x ∈ out ->
     x ∈ dat_dims
     /\ exists d, d ∈ iterable /\ (x = d \/ (x = d +:+ "_stag" /\ d ∉ dat_dims)))
  /\ (Forall (fun d => d ∈ dat_dims) iterable -> out = iterable)
  /\ correct_dims_stag_list out dat_dims = out.
Proof.
  intros out. split; [|split].
  - intros x Hx. split.
    { pose proof (correct_dims_stag_list_dims iterable dat_dims) as H.
      rewrite Forall_forall in H. by apply H. }
    apply list_elem_of_bind in Hx as (d & Hx & Hd). exists d. split; [done|].
    destruct (in_list d dat_dims) eqn:E1.
    { apply list_elem_of_singleton in Hx. by left. }
    destruct (in_list (d +:+ "_stag") dat_dims) eqn:E2.
    + apply list_elem_of_singleton in Hx. right. split; [done|].
      intros Hin. apply in_list_elem_of in Hin. congruence.
    + by apply elem_of_nil in Hx.
  - apply correct_dims_stag_list_id.
  - apply correct_dims_stag_list_id, correct_dims_stag_list_dims.
Qed.

Lemma correct_dims_stag_list_spec_witness :
  correct_dims_stag_list ["x"; "y"; "z"] ["x_stag"; "y"] = ["x_stag"; "y"]
  /\ correct_dims_stag_list ["x_stag"; "y"] ["x_stag"; "y"] = ["x_stag"; "y"].
Proof.
  split; [reflexivity|].
  apply (proj1 (proj2 (correct_dims_stag_list_spec ["x_stag"; "y"] ["x_stag"; "y"]))).
  by_compute.
Defined.
